(** * eventblaster: worker pool, proxy-line parser and campaign control

    A shallow embedding of the Go sources (utils.go, worker.go, main.go,
    telegram_bot.go and the file readers) together with the properties
    stated about them.  Go strings are byte sequences and are modelled by
    [string] (a list of [ascii] bytes); Go [int] values are modelled by [Z]. *)

From Stdlib Require Import ZArith String Ascii Bool Lia DecimalString.
From stdpp Require Import base list gmap.

Local Open Scope string_scope.
Local Open Scope list_scope.
Local Open Scope Z_scope.

#[local] Arguments String.append : simpl nomatch.

(** ** The parts of Go's [strings] and [strconv] packages the code calls *)
Module GoStrings.

(** [len(s)]: the number of bytes of [s]. *)
Definition len (s : string) : Z := Z.of_nat (String.length s).

(** [strings.HasPrefix(s, prefix)]. *)
Fixpoint HasPrefix (s prefix : string) : bool :=
  match prefix, s with
  | EmptyString, _ => true
  | String _ _, EmptyString => false
  | String p prefix', String c s' => Ascii.eqb c p && HasPrefix s' prefix'
  end.

(** [s[lo:hi]] for [0 <= lo <= hi <= len(s)] (Go panics outside that range;
    every slice expression in the sources stays inside it). *)
Definition slice (s : string) (lo hi : Z) : string :=
  String.substring (Z.to_nat lo) (Z.to_nat (hi - lo)) s.

(** [strings.HasSuffix(s, suffix)]:
    [len(s) >= len(suffix) && s[len(s)-len(suffix):] == suffix]. *)
Definition HasSuffix (s suffix : string) : bool :=
  (len suffix <=? len s)
  && String.eqb (slice s (len s - len suffix) (len s)) suffix.

(** [strings.TrimSuffix(s, suffix)]. *)
Definition TrimSuffix (s suffix : string) : string :=
  if HasSuffix s suffix then slice s 0 (len s - len suffix) else s.

(** [strings.Index(s, substr)]: the first byte offset of [substr] in [s],
    or [-1]. *)
Fixpoint Index_from (i : Z) (s substr : string) : Z :=
  if HasPrefix s substr then i
  else match s with
       | EmptyString => -1
       | String _ s' => Index_from (i + 1) s' substr
       end.

Definition Index (s substr : string) : Z := Index_from 0 s substr.

(** [strings.Contains(s, substr)] is [Index(s, substr) >= 0]. *)
Definition Contains (s substr : string) : bool := 0 <=? Index s substr.

(** [strings.Split(s, sep)] for a one-byte separator, which is what every
    call site passes ([":"], ["@"], ["/"]).  The result is never empty:
    splitting the empty string gives one empty field. *)
Fixpoint Split (s : string) (sep : ascii) : list string :=
  match s with
  | EmptyString => [EmptyString]
  | String c s' =>
      if Ascii.eqb c sep then EmptyString :: Split s' sep
      else match Split s' sep with
           | field :: fields => String c field :: fields
           | [] => [String c EmptyString]
           end
  end.

(** [unicode.IsSpace] on UTF-8 text: the encodings of the white-space runes
    U+0009..U+000D, U+0020, U+0085, U+00A0, U+1680, U+2000..U+200A, U+2028,
    U+2029, U+202F, U+205F and U+3000. *)
Definition bytes (codes : list nat) : string :=
  string_of_list_ascii (map ascii_of_nat codes).

Definition space_runes : list string :=
  map bytes
    [ [9]; [10]; [11]; [12]; [13]; [32]; [194; 133]; [194; 160];
      [225; 154; 128];
      [226; 128; 128]; [226; 128; 129]; [226; 128; 130]; [226; 128; 131];
      [226; 128; 132]; [226; 128; 133]; [226; 128; 134]; [226; 128; 135];
      [226; 128; 136]; [226; 128; 137]; [226; 128; 138];
      [226; 128; 168]; [226; 128; 169]; [226; 128; 175]; [226; 129; 159];
      [227; 128; 128] ]%nat.

(** [s] without its leading [prefix], when it has it. *)
Definition cut_prefix (s prefix : string) : option string :=
  if HasPrefix s prefix then Some (slice s (len prefix) (len s)) else None.

(** [s] without its trailing [suffix], when it has it. *)
Definition cut_suffix (s suffix : string) : option string :=
  if HasSuffix s suffix then Some (slice s 0 (len s - len suffix)) else None.

Fixpoint first_cut (cut : string -> string -> option string) (s : string)
    (runes : list string) : option string :=
  match runes with
  | [] => None
  | r :: runes' =>
      match cut s r with
      | Some s' => Some s'
      | None => first_cut cut s runes'
      end
  end.

(** Remove white-space runes from one end for as long as there is one;
    [n] bounds the number of runes removed. *)
Fixpoint trim_end (cut : string -> string -> option string) (n : nat)
    (s : string) : string :=
  match n with
  | O => s
  | S n' =>
      match first_cut cut s space_runes with
      | Some s' => trim_end cut n' s'
      | None => s
      end
  end.

(** [strings.TrimSpace(s)]: all leading and trailing white space removed. *)
Definition TrimSpace (s : string) : string :=
  let s1 := trim_end cut_prefix (String.length s) s in
  trim_end cut_suffix (String.length s1) s1.

(** [strconv.Atoi(s)] with a 64-bit [int]: an optional sign followed by one
    or more decimal digits whose value fits in [int]; [None] stands for a
    non-nil error. *)
Definition digit (c : ascii) : option Z :=
  let n := Z.of_nat (nat_of_ascii c) in
  if (48 <=? n) && (n <=? 57) then Some (n - 48) else None.

Fixpoint digits (s : string) (acc : Z) : option Z :=
  match s with
  | EmptyString => Some acc
  | String c s' =>
      match digit c with
      | Some d => digits s' (acc * 10 + d)
      | None => None
      end
  end.

Definition Atoi (s : string) : option Z :=
  let '(neg, body) :=
    match s with
    | String "-" rest => (true, rest)
    | String "+" rest => (false, rest)
    | _ => (false, s)
    end in
  match body with
  | EmptyString => None
  | _ =>
      match digits body 0 with
      | Some n =>
          let v := if neg : bool then - n else n in
          if (- 2 ^ 63 <=? v) && (v <? 2 ^ 63) then Some v else None
      | None => None
      end
  end.

End GoStrings.
Import GoStrings.

(** ** utils.go *)

(** [truncateString]: at most [maxLen] leading bytes of [s]. *)
Definition truncateString (s : string) (maxLen : Z) : string :=
  if len s <=? maxLen then s else slice s 0 maxLen.

(** [lastPathSegment]: the last ['/']-separated piece of [url] once a single
    trailing ['/'] has been removed. *)
Definition lastPathSegment (url : string) : string :=
  let parts := Split (TrimSuffix url "/") "/"%char in
  if 0 <? Z.of_nat (length parts)
  then default url (last parts)
  else url.

(** [pow]: [int(math.Pow(float64(base), float64(exp)))].  The only call is
    [pow(3, attempt)] with [1 <= attempt < RegistrationRetry]; on such small
    integers the floating-point power is exact. *)
Definition pow (base exp : Z) : Z := base ^ exp.

(** ** main.go: configuration and result records *)

Record Config := {
  RegistrationRetry : Z;
  MaxWorkers : Z
}.

Definition config : Config :=
  {| RegistrationRetry := 3; MaxWorkers := 20 |}.

Record ProxyConfig := {
  Server : string;
  Username : string;
  Password : string
}.

Record RegistrationResult := {
  Email : string;
  Event : string;
  Status : string;
  Attempt : Z;
  Message : string;
  Timestamp : Z
}.

(** ** worker.go: one registration with retry *)
Module Worker.

(** What a call of [ExecuteRegistration] does to the outside world, in
    program order: a call of the browser automation ([tryRegistration]), a
    back-off [time.Sleep], or a [sendTelegramAlert] call. *)
Inductive Effect :=
| TryRegistration (eventURL firstName lastName email organization : string)
    (proxy : option ProxyConfig) (attempt : Z)
| Sleep (seconds : Z)
| TelegramAlert (chatID email eventURL : string) (attempt : Z)
    (reason : string).

(** The outside world seen by one call of [ExecuteRegistration]:
    [try_outcome n] is what the [n]-th call of [tryRegistration] returns
    (success flag and message) and [time_now] is the reading of [time.Now()]
    put in the result. *)
Record World := {
  try_outcome : Z -> bool * string;
  time_now : Z
}.

(** A computation that returns a value and logs its effects. *)
Definition Eff (A : Type) : Type := A * list Effect.

Definition ret {A} (a : A) : Eff A := (a, []).

Definition bind {A B} (m : Eff A) (k : A -> Eff B) : Eff B :=
  let (a, t1) := m in let (b, t2) := k a in (b, t1 ++ t2).

Definition emit (e : Effect) : Eff unit := (tt, [e]).

Notation "x <- m ;; k" := (bind m (fun x => k))
  (at level 100, m at next level, right associativity).
Notation "m ;;; k" := (bind m (fun _ => k))
  (at level 100, right associativity).

Record RegistrationWorker := {
  workerID : Z;
  proxies : list ProxyConfig;
  headless : bool;
  telegramChatID : string
}.

Definition NewRegistrationWorker (workerID : Z) (proxies : list ProxyConfig)
    (headless : bool) (telegramChatID : string) : RegistrationWorker :=
  {| workerID := workerID; proxies := proxies; headless := headless;
     telegramChatID := telegramChatID |}.

(** Lines 30-33 of [ExecuteRegistration]: the proxy of this worker.  The
    worker ids the orchestrator hands out are loop indices, hence
    non-negative, so Go's [%] is the mathematical remainder here. *)
Definition selectProxy (w : RegistrationWorker) : option ProxyConfig :=
  if 0 <? Z.of_nat (length (proxies w))
  then proxies w !! Z.to_nat (Z.rem (workerID w) (Z.of_nat (length (proxies w))))
  else None.

Section Worker.

Variable cfg : Config.
Variable w : RegistrationWorker.
Variable world : World.
Variables eventURL firstName lastName email organization : string.

(** One call of [w.tryRegistration]. *)
Definition tryRegistration (proxy : option ProxyConfig) (attempt : Z)
  : Eff (bool * string) :=
  emit (TryRegistration eventURL firstName lastName email organization proxy
          attempt) ;;;
  ret (try_outcome world attempt).

(** The [for attempt := 1; attempt <= config.RegistrationRetry; attempt++]
    loop, entered with the current value of [attempt]; [n] bounds the
    iterations left.  [Some r] is the [return] inside the loop, [None] is
    leaving the loop by its condition. *)
Fixpoint retry_loop (proxy : option ProxyConfig) (n : nat) (attempt : Z)
  : Eff (option RegistrationResult) :=
  match n with
  | O => ret None
  | S n' =>
      if attempt <=? RegistrationRetry cfg then
        r <- tryRegistration proxy attempt ;;
        let (success, message) := r in
        if success then
          ret (Some {| Email := email;
                       Event := truncateString (lastPathSegment eventURL) 20;
                       Status := "SUCCESS";
                       Attempt := attempt;
                       Message := message;
                       Timestamp := time_now world |})
        else
          (if attempt <? RegistrationRetry cfg then
             emit (Sleep (pow 3 attempt))
           else if negb (String.eqb (telegramChatID w) "") then
             emit (TelegramAlert (telegramChatID w) email eventURL attempt
                     message)
           else ret tt) ;;;
          retry_loop proxy n' (attempt + 1)
      else ret None
  end.

Definition ExecuteRegistration : Eff RegistrationResult :=
  let proxy := selectProxy w in
  r <- retry_loop proxy (Z.to_nat (RegistrationRetry cfg)) 1 ;;
  match r with
  | Some result => ret result
  | None =>
      ret {| Email := email;
             Event := truncateString (lastPathSegment eventURL) 20;
             Status := "FAILED";
             Attempt := RegistrationRetry cfg;
             Message := "Max retries exceeded";
             Timestamp := time_now world |}
  end.

End Worker.

(** What one failed attempt logs after the call of [tryRegistration]: the
    back-off sleep, or at the last attempt the alert. *)
Definition after_failure (cfg : Config) (w : RegistrationWorker)
    (eventURL email : string) (a : Z) (message : string) : list Effect :=
  if a <? RegistrationRetry cfg then [Sleep (pow 3 a)]
  else if negb (String.eqb (telegramChatID w) "")
       then [TelegramAlert (telegramChatID w) email eventURL a message]
       else [].

(** The [TelegramAlert] effects of a trace. *)
Definition is_alert (e : Effect) : bool :=
  match e with TelegramAlert _ _ _ _ _ => true | _ => false end.

Definition alerts (t : list Effect) : list Effect := List.filter is_alert t.

(** The [tryRegistration] calls of a trace. *)
Definition is_try (e : Effect) : bool :=
  match e with TryRegistration _ _ _ _ _ _ _ => true | _ => false end.

Definition tries (t : list Effect) : list Effect := List.filter is_try t.

(** The durations, in seconds, of the [time.Sleep] calls of a trace. *)
Definition sleeps (t : list Effect) : list Z :=
  flat_map (fun e => match e with Sleep seconds => [seconds] | _ => [] end) t.

(** The proxies of the [tryRegistration] calls of a trace. *)
Definition used_proxies (t : list Effect) : list (option ProxyConfig) :=
  flat_map (fun e => match e with
                     | TryRegistration _ _ _ _ _ proxy _ => [proxy]
                     | _ => []
                     end) t.

(** Sample inputs: a worker with an alert chat and no proxy, a world where
    every attempt fails, and a world where the second attempt succeeds. *)
Definition sample_worker : RegistrationWorker :=
  NewRegistrationWorker 0 [] true "42".

Definition always_fails : World :=
  {| try_outcome := fun _ => (false, "timeout"); time_now := 0 |}.

Definition succeeds_at_2 : World :=
  {| try_outcome := fun n => (n =? 2, "registered"); time_now := 0 |}.

End Worker.

(** ** The proxy-line parser ([parseProxyLine], next to the file readers) *)

(** What the parser reads off the result of Go's [net/url] package. *)
Module url.

Record Userinfo := {
  Username : string;            (* [u.User.Username()] *)
  Password : option string      (* [u.User.Password()]: [Some p] when set *)
}.

Record URL := {
  Scheme : string;              (* [u.Scheme] *)
  Hostname : string;            (* [u.Hostname()] *)
  Port : string;                (* [u.Port()] *)
  User : option Userinfo        (* [u.User], [None] for [nil] *)
}.

End url.

(** [fmt.Sprintf("%s://%s:%s", scheme, host, port)]. *)
Definition server_of (scheme host port : string) : string :=
  (scheme ++ "://" ++ host ++ ":" ++ port)%string.

(** Lines 146-153: a markdown link [[inner](...)] is replaced by [inner]. *)
Definition unwrapMarkdown (s : string) : string :=
  if Contains s "[" && Contains s "](" then
    let start := Index s "[" in
    let end_ := Index s "]" in
    if negb (start =? -1) && negb (end_ =? -1) && (start <? end_)
    then slice s (start + 1) end_
    else s
  else s.

(** Lines 175-191, [USER:PASS@HOST:PORT]; [None] means that control falls
    through to the colon-separated forms. *)
Definition parseUserPassAtHostPort (s : string) : option ProxyConfig :=
  if Contains s "@" then
    match Split s "@"%char with
    | [part0; part1] =>
        match Split part0 ":"%char, Split part1 ":"%char with
        | [user; pass], [host; port] =>
            match Atoi port with
            | Some _ =>
                Some {| Server := server_of "http" host port;
                        Username := user;
                        Password := pass |}
            | None => None
            end
        | _, _ => None
        end
    | _ => None
    end
  else None.

(** Lines 193-223, [HOST:PORT:USER:PASS], [USER:PASS:HOST:PORT] and bare
    [HOST:PORT]; [None] is the final [return nil]. *)
Definition parseColonSeparated (s : string) : option ProxyConfig :=
  match Split s ":"%char with
  | [p0; p1; p2; p3] =>
      match Atoi p1 with
      | Some _ =>
          Some {| Server := server_of "http" p0 p1;
                  Username := p2;
                  Password := p3 |}
      | None =>
          match Atoi p3 with
          | Some _ =>
              Some {| Server := server_of "http" p2 p3;
                      Username := p0;
                      Password := p1 |}
          | None => None
          end
      end
  | [p0; p1] =>
      match Atoi p1 with
      | Some _ =>
          Some {| Server := server_of "http" p0 p1;
                  Username := "";
                  Password := "" |}
      | None => None
      end
  | _ => None
  end.

(** The [USER:PASS@HOST:PORT] reading of [s]: one ['@'], two fields on
    its left, two on its right, the last of them an integer. *)
Definition user_pass_at_host_port (s user pass host port : string) : Prop :=
  exists part0 part1,
    Split s "@"%char = [part0; part1] /\
    Split part0 ":"%char = [user; pass] /\
    Split part1 ":"%char = [host; port] /\
    is_Some (Atoi port).

Section ProxyParser.

(** [url.Parse] of the Go standard library; [None] stands for a non-nil
    error. *)
Variable url_Parse : string -> option url.URL.

(** Lines 155-173, the [scheme://...] form. *)
Definition parseURLForm (s : string) : option ProxyConfig :=
  match url_Parse s with
  | None => None
  | Some u =>
      if String.eqb (url.Hostname u) "" || String.eqb (url.Port u) ""
      then None
      else
        Some {| Server := server_of (url.Scheme u) (url.Hostname u) (url.Port u);
                Username := match url.User u with
                            | Some ui => url.Username ui
                            | None => ""
                            end;
                Password := match url.User u with
                            | Some ui => default "" (url.Password ui)
                            | None => ""
                            end |}
  end.

(** [parseProxyLine]: [None] is the [nil] result. *)
Definition parseProxyLine (line : string) : option ProxyConfig :=
  let s := TrimSpace line in
  if String.eqb s "" || HasPrefix s "#" then None
  else
    let s := unwrapMarkdown s in
    if Contains s "://" then parseURLForm s
    else
      match parseUserPassAtHostPort s with
      | Some proxy => Some proxy
      | None => parseColonSeparated s
      end.

End ProxyParser.

(** A stand-in for [url.Parse] in closed examples whose lines hold no
    "://": on such lines [parseProxyLine] never calls it. *)
Definition url_Parse_unused : string -> option url.URL := fun _ => None.

(** A printable ASCII byte other than the space, and a field made of such
    bytes that holds none of the bytes the parser gives a meaning to. *)
Definition graphic (c : ascii) : bool :=
  (33 <=? nat_of_ascii c)%nat && (nat_of_ascii c <=? 126)%nat.

Definition field_byte (c : ascii) : bool :=
  graphic c
  && negb (Ascii.eqb c ":" || Ascii.eqb c "@" || Ascii.eqb c "["
           || Ascii.eqb c "/")%char.

Definition plain_field (f : string) : bool :=
  forallb field_byte (list_ascii_of_string f).

Definition all_graphic (s : string) : Prop :=
  forall c, In c (list_ascii_of_string s) -> graphic c = true.

(** ** telegram_bot.go: the campaign guard of the control plane *)
Module Bot.

Record UserConfig := {
  FirstName : string;
  LastName : string;
  Organization : string;
  EmailsFile : string;
  EventsFile : string;
  ProxiesFile : string;
  MaxWorkers : Z;
  State : string
}.

(** [CampaignManager]: the single campaign state of the process. *)
Record CampaignManager := {
  running : bool;
  results : list RegistrationResult;
  startTime : Z
}.

(** The arguments of one [go b.runCampaign(...)]. *)
Record CampaignRun := {
  run_chatID : Z;
  run_firstName : string;
  run_lastName : string;
  run_organization : string;
  run_maxWorkers : Z;
  run_emails : list string;
  run_eventURLs : list string;
  run_proxies : list ProxyConfig
}.

(** The texts handed to [sendMessage], by their opening words. *)
Inductive Text :=
| RunSetupFirst                          (* "Please run /setup first ..." *)
| AlreadyRunning                         (* "Campaign already running! ..." *)
| LoadEmailsFailed (file : string)       (* "Failed to load emails from ..." *)
| LoadEventsFailed (file : string)       (* "Failed to load events from ..." *)
| CampaignStarted (run : CampaignRun)    (* "Campaign Started! ..." *)
| CampaignCompleted (total successful failed : Z)
                                         (* "Campaign Completed! ..." *)
| NoCampaignRunning                      (* "No campaign running" *)
| StopRequested.                         (* "Campaign stop requested ..." *)

(** The bot as the handlers see it: the campaign state, the [runCampaign]
    goroutines that were started and have not finished, and the messages
    sent so far (newest last). *)
Record Bot := {
  campaign : CampaignManager;
  inflight : list CampaignRun;
  sent : list (Z * Text)
}.

Definition sendMessage (chatID : Z) (text : Text) (b : Bot) : Bot :=
  {| campaign := campaign b; inflight := inflight b;
     sent := sent b ++ [(chatID, text)] |}.

Definition set_campaign (c : CampaignManager) (b : Bot) : Bot :=
  {| campaign := c; inflight := inflight b; sent := sent b |}.

Definition go_runCampaign (run : CampaignRun) (b : Bot) : Bot :=
  {| campaign := campaign b; inflight := inflight b ++ [run];
     sent := sent b |}.

(** The files as the readers find them: [None] is a reader's error;
    [readProxies]'s error is discarded by the caller. *)
Record Files := {
  readEmails : string -> option (list string);
  readEventURLs : string -> option (list string);
  readProxies : string -> list ProxyConfig
}.

Section Handlers.

Variable files : Files.
Variable now : Z.                     (* [time.Now()] *)

(** [handleRegister]. *)
Definition handleRegister (chatID : Z) (userConfig : UserConfig) (b : Bot)
  : Bot :=
  let firstName := FirstName userConfig in
  let lastName := LastName userConfig in
  let organization := Organization userConfig in
  let emailsFile := EmailsFile userConfig in
  let eventsFile := EventsFile userConfig in
  let proxiesFile := ProxiesFile userConfig in
  let maxWorkers := MaxWorkers userConfig in
  if String.eqb firstName "" || String.eqb lastName ""
     || String.eqb organization ""
  then sendMessage chatID RunSetupFirst b
  else if running (campaign b)
  then sendMessage chatID AlreadyRunning b
  else
    let b := set_campaign {| running := true; results := [];
                             startTime := now |} b in
    match readEmails files emailsFile with
    | None =>
        let b := set_campaign {| running := false;
                                 results := results (campaign b);
                                 startTime := startTime (campaign b) |} b in
        sendMessage chatID (LoadEmailsFailed emailsFile) b
    | Some emails =>
        match readEventURLs files eventsFile with
        | None =>
            let b := set_campaign {| running := false;
                                     results := results (campaign b);
                                     startTime := startTime (campaign b) |} b in
            sendMessage chatID (LoadEventsFailed eventsFile) b
        | Some eventURLs =>
            let proxies := readProxies files proxiesFile in
            let run := {| run_chatID := chatID;
                          run_firstName := firstName;
                          run_lastName := lastName;
                          run_organization := organization;
                          run_maxWorkers := maxWorkers;
                          run_emails := emails;
                          run_eventURLs := eventURLs;
                          run_proxies := proxies |} in
            go_runCampaign run (sendMessage chatID (CampaignStarted run) b)
        end
    end.

End Handlers.

(** [handleStop]. *)
Definition handleStop (chatID : Z) (b : Bot) : Bot :=
  if negb (running (campaign b))
  then sendMessage chatID NoCampaignRunning b
  else
    let b := set_campaign {| running := false;
                             results := results (campaign b);
                             startTime := startTime (campaign b) |} b in
    sendMessage chatID StopRequested b.

(** The number of results with [Status == "SUCCESS"]. *)
Definition successes (rs : list RegistrationResult) : Z :=
  Z.of_nat (length (List.filter (fun r => String.eqb (Status r) "SUCCESS") rs)).

(** The part of [runCampaign] after [orchestrator.Run] has returned
    [rs]: the completion handler of the goroutine at position [i] of
    [inflight]. *)
Definition runCampaign_completed (i : nat) (rs : list RegistrationResult)
    (b : Bot) : option Bot :=
  match inflight b !! i with
  | None => None
  | Some run =>
      let b := {| campaign := {| running := false; results := rs;
                                 startTime := startTime (campaign b) |};
                  inflight := delete i (inflight b);
                  sent := sent b |} in
      Some (sendMessage (run_chatID run)
              (CampaignCompleted (Z.of_nat (length rs)) (successes rs)
                 (Z.of_nat (length rs) - successes rs)) b)
  end.

(** Sample inputs: a configured user, readers that find two emails and
    one event, and a bot whose campaign is running with one result. *)
Definition sample_user : UserConfig :=
  {| FirstName := "Ada"; LastName := "Lovelace";
     Organization := "Analytical"; EmailsFile := "emails_7.txt";
     EventsFile := "events_7.txt"; ProxiesFile := "proxies.txt";
     MaxWorkers := 20; State := "idle" |}.

Definition sample_files : Files :=
  {| readEmails := fun _ => Some ["a@x.com"; "b@x.com"];
     readEventURLs := fun _ => Some ["https://events.example.com/e/1"];
     readProxies := fun _ => [] |}.

Definition sample_running_bot : Bot :=
  {| campaign :=
       {| running := true;
          results := [ {| Email := "a@x.com"; Event := "1";
                          Status := "SUCCESS"; Attempt := 1;
                          Message := "registered"; Timestamp := 5 |} ];
          startTime := 4 |};
     inflight := [];
     sent := [] |}.

End Bot.

(** ** main.go: the orchestrator's worker pool *)
Module Orchestrator.

Record RegistrationOrchestrator := {
  firstName : string;
  lastName : string;
  organization : string;
  headless : bool;
  maxWorkers : Z;
  telegramChatID : string
}.

(** The work item of [Run]. *)
Record job := {
  eventURL : string;
  email : string;
  workerID : Z
}.

(** Go's [int]: 64-bit two's complement. *)
Definition wrap (z : Z) : Z := (z + 2 ^ 63) mod 2 ^ 64 - 2 ^ 63.

(** A goroutine of the pool: blocked in [range jobs], inside
    [ExecuteRegistration] for [job], blocked in [results <- result], or
    past [wg.Done()]. *)
Inductive WorkerState :=
| Waiting
| Running (j : job)
| Sending (j : job) (result : RegistrationResult)
| Exited.

(** Where the goroutine that called [Run] is: in the queueing loops, in the
    collecting loop, returned, or stopped by a run-time panic. *)
Inductive Phase := Queueing | Collecting | Returned | Panicked.

#[global] Instance Phase_eq_dec : EqDecision Phase.
Proof. solve_decision. Defined.

(** The state of one call of [Run]: the (event, email) pairs the queueing
    loops have still to visit, [jobIndex], the buffers of the two channels
    (oldest first), the pool, whether [results] is closed, and
    [allResults]. *)
Record State := {
  pending : list (string * string);
  jobIndex : Z;
  jobs : list job;
  workers : list WorkerState;
  results : list RegistrationResult;
  results_closed : bool;
  allResults : list RegistrationResult;
  phase : Phase
}.

Inductive Label :=
| Enqueue
| Panic
| CloseJobs
| Receive (w : nat)
| Execute (w : nat) (j : job) (world : Worker.World)
| Send (w : nat)
| Exit (w : nat)
| CloseResults
| Collect
| Return.

Section Run.

Variable o : RegistrationOrchestrator.
Variables eventURLs emails : list string.
Variable proxies : list ProxyConfig.

Definition totalTasks : Z :=
  wrap (Z.of_nat (length eventURLs) * Z.of_nat (length emails)).

(** The worker of goroutine [w], created at the top of its function. *)
Definition worker (w : nat) : Worker.RegistrationWorker :=
  Worker.NewRegistrationWorker (Z.of_nat w) proxies (headless o)
    (telegramChatID o).

(** [worker.ExecuteRegistration(job.eventURL, o.firstName, o.lastName,
    job.email, o.organization)] by goroutine [w]. *)
Definition execute (w : nat) (world : Worker.World) (j : job)
  : Worker.Eff RegistrationResult :=
  Worker.ExecuteRegistration config (worker w) world (eventURL j)
    (firstName o) (lastName o) (email j) (organization o).

(** The state once the channels are made and the pool is started;
    [make] panics on a negative size. *)
Definition init : State :=
  {| pending := list_prod eventURLs emails;
     jobIndex := 0;
     jobs := [];
     workers := replicate (Z.to_nat (maxWorkers o)) Waiting;
     results := [];
     results_closed := false;
     allResults := [];
     phase := if totalTasks <? 0 then Panicked else Queueing |}.

Definition with_workers (ws : list WorkerState) (s : State) : State :=
  {| pending := pending s; jobIndex := jobIndex s; jobs := jobs s;
     workers := ws; results := results s;
     results_closed := results_closed s; allResults := allResults s;
     phase := phase s |}.

Definition with_jobs (js : list job) (s : State) : State :=
  {| pending := pending s; jobIndex := jobIndex s; jobs := js;
     workers := workers s; results := results s;
     results_closed := results_closed s; allResults := allResults s;
     phase := phase s |}.

Definition with_results (rs : list RegistrationResult) (s : State) : State :=
  {| pending := pending s; jobIndex := jobIndex s; jobs := jobs s;
     workers := workers s; results := rs;
     results_closed := results_closed s; allResults := allResults s;
     phase := phase s |}.

Definition with_phase (p : Phase) (s : State) : State :=
  {| pending := pending s; jobIndex := jobIndex s; jobs := jobs s;
     workers := workers s; results := results s;
     results_closed := results_closed s; allResults := allResults s;
     phase := p |}.

(** One step of one goroutine.  A send needs room in the buffer (both
    channels are made with capacity [totalTasks]); a receive needs a
    buffered value. *)
Inductive step : State -> Label -> State -> Prop :=
| step_enqueue s eventURL email rest :
    phase s = Queueing ->
    pending s = (eventURL, email) :: rest ->
    maxWorkers o <> 0 ->
    Z.of_nat (length (jobs s)) < totalTasks ->
    step s Enqueue
      {| pending := rest;
         jobIndex := wrap (jobIndex s + 1);
         jobs := jobs s ++ [ {| eventURL := eventURL; email := email;
                                workerID := Z.rem (jobIndex s) (maxWorkers o) |} ];
         workers := workers s; results := results s;
         results_closed := results_closed s; allResults := allResults s;
         phase := Queueing |}
| step_panic s eventURL email rest :
    (* [jobIndex % o.maxWorkers] with a zero divisor *)
    phase s = Queueing ->
    pending s = (eventURL, email) :: rest ->
    maxWorkers o = 0 ->
    step s Panic (with_phase Panicked s)
| step_close_jobs s :
    phase s = Queueing ->
    pending s = [] ->
    step s CloseJobs (with_phase Collecting s)
| step_receive s w j rest :
    workers s !! w = Some Waiting ->
    jobs s = j :: rest ->
    step s (Receive w)
      (with_jobs rest (with_workers (<[w := Running j]> (workers s)) s))
| step_execute s w j world :
    workers s !! w = Some (Running j) ->
    step s (Execute w j world)
      (with_workers (<[w := Sending j (fst (execute w world j))]> (workers s)) s)
| step_send s w j result :
    workers s !! w = Some (Sending j result) ->
    Z.of_nat (length (results s)) < totalTasks ->
    step s (Send w)
      (with_results (results s ++ [result])
         (with_workers (<[w := Waiting]> (workers s)) s))
| step_exit s w :
    (* [range jobs] ends: the channel is closed and drained *)
    workers s !! w = Some Waiting ->
    phase s = Collecting ->
    jobs s = [] ->
    step s (Exit w) (with_workers (<[w := Exited]> (workers s)) s)
| step_close_results s :
    (* [wg.Wait(); close(results)] *)
    phase s = Collecting ->
    Forall (fun st => st = Exited) (workers s) ->
    results_closed s = false ->
    step s CloseResults
      {| pending := pending s; jobIndex := jobIndex s; jobs := jobs s;
         workers := workers s; results := results s;
         results_closed := true; allResults := allResults s;
         phase := phase s |}
| step_collect s result rest :
    phase s = Collecting ->
    results s = result :: rest ->
    step s Collect
      {| pending := pending s; jobIndex := jobIndex s; jobs := jobs s;
         workers := workers s; results := rest;
         results_closed := results_closed s;
         allResults := allResults s ++ [result];
         phase := phase s |}
| step_return s :
    (* [range results] ends: the channel is closed and drained *)
    phase s = Collecting ->
    results s = [] ->
    results_closed s = true ->
    step s Return (with_phase Returned s).

(** Executions from state to state, with the labels of their steps. *)
Inductive exec (s : State) : list Label -> State -> Prop :=
| exec_nil : exec s [] s
| exec_snoc ls s1 l s2 : exec s ls s1 -> step s1 l s2 -> exec s (ls ++ [l]) s2.

Definition reachable (s : State) : Prop := exists ls, exec init ls s.

(** [Run] returns [rs]. *)
Definition Run (rs : list RegistrationResult) : Prop :=
  exists s, reachable s /\ phase s = Returned /\ allResults s = rs.

(** [r] is the result some goroutine of the pool computes for the pair
    (event, email), in some outside world. *)
Definition pair_result (p : string * string) (r : RegistrationResult) : Prop :=
  exists (w : nat) (world : Worker.World),
    (w < Z.to_nat (maxWorkers o))%nat /\
    r = fst (Worker.ExecuteRegistration config (worker w) world (fst p)
               (firstName o) (lastName o) (snd p) (organization o)).

Definition pair_of (j : job) : string * string := (eventURL j, email j).

(** The jobs a goroutine holds in its local variables. *)
Definition held (st : WorkerState) : list job :=
  match st with
  | Running j => [j]
  | Sending j _ => [j]
  | Waiting | Exited => []
  end.

Definition sending_ok (st : WorkerState) : Prop :=
  match st with
  | Sending j r => pair_result (pair_of j) r
  | _ => True
  end.

(** What holds of every state [Run] can reach: each pair of the product is
    in exactly one place (not yet visited, buffered as a job, held by a
    goroutine, or turned into a buffered or collected result), and the
    phases of the goroutines fit together. *)
Record Inv (s : State) : Prop := {
  inv_pairs :
    exists ps_buf ps_all,
      Forall2 pair_result ps_buf (results s) /\
      Forall2 pair_result ps_all (allResults s) /\
      pending s ++ map pair_of (jobs s)
        ++ map pair_of (flat_map held (workers s)) ++ ps_buf ++ ps_all
      ≡ₚ list_prod eventURLs emails;
  inv_sending : Forall sending_ok (workers s);
  inv_pool : length (workers s) = Z.to_nat (maxWorkers o);
  inv_exit :
    Forall (fun st => st <> Exited) (workers s)
    \/ (jobs s = [] /\ phase s <> Queueing);
  inv_closed :
    results_closed s = true ->
    Forall (fun st => st = Exited) (workers s) /\ phase s <> Queueing;
  inv_pending : phase s = Queueing \/ pending s = [];
  inv_returned :
    phase s = Returned -> results s = [] /\ results_closed s = true;
  inv_no_panic : phase s <> Panicked
}.

(** A bound on the steps left: every step lowers it. *)
Definition weight (st : WorkerState) : nat :=
  match st with
  | Exited => 0
  | Waiting => 1
  | Sending _ _ => 3
  | Running _ => 4
  end.

Definition rank (p : Phase) : nat :=
  match p with
  | Queueing => 2
  | Collecting => 1
  | Returned | Panicked => 0
  end.

Definition measure (s : State) : nat :=
  5 * length (pending s) + 4 * length (jobs s)
  + list_sum (map weight (workers s)) + length (results s)
  + (if results_closed s then 0 else 1) + rank (phase s).

End Run.

(** Sample inputs: a pool of two, one event, two emails, two proxies. *)
Definition sample_orchestrator : RegistrationOrchestrator :=
  {| firstName := "Ada"; lastName := "Lovelace";
     organization := "Analytical"; headless := true; maxWorkers := 2;
     telegramChatID := "42" |}.

Definition sample_events : list string := ["https://events.example.com/e/1"].

Definition sample_emails : list string := ["a@x.com"; "b@x.com"].

Definition proxy0 : ProxyConfig :=
  {| Server := "http://10.0.0.1:3128"; Username := ""; Password := "" |}.

Definition proxy1 : ProxyConfig :=
  {| Server := "http://10.0.0.2:3128"; Username := ""; Password := "" |}.

Definition sample_proxies : list ProxyConfig := [proxy0; proxy1].

(** The first job of the sample run, with the index 0 it is given when it
    is queued, the state once it is queued, and the state once goroutine 1
    has received it. *)
Definition sample_job0 : job :=
  {| eventURL := "https://events.example.com/e/1"; email := "a@x.com";
     workerID := 0 |}.

Definition sample_queued : State :=
  {| pending := [("https://events.example.com/e/1", "b@x.com")];
     jobIndex := 1;
     jobs := [sample_job0];
     workers := [Waiting; Waiting];
     results := []; results_closed := false; allResults := [];
     phase := Queueing |}.

Definition sample_received : State :=
  {| pending := [("https://events.example.com/e/1", "b@x.com")];
     jobIndex := 1;
     jobs := [];
     workers := [Waiting; Running sample_job0];
     results := []; results_closed := false; allResults := [];
     phase := Queueing |}.

End Orchestrator.

(** ** The proxy file reader, after the scanner has split the file *)
Section Readers.

Variable url_Parse : string -> option url.URL.

(** The loop of [readProxies] over the scanned lines: the proxies loaded
    and the texts of the skipped-line warnings, both in file order. *)
Fixpoint scanProxies (lines : list string) : list ProxyConfig * list string :=
  match lines with
  | [] => ([], [])
  | text :: rest =>
      let line := TrimSpace text in
      let (loaded, warned) := scanProxies rest in
      match parseProxyLine url_Parse line with
      | Some proxy => (proxy :: loaded, warned)
      | None =>
          if negb (String.eqb line "") && negb (HasPrefix line "#")
          then (loaded, truncateString line 120 :: warned)
          else (loaded, warned)
      end
  end.

(** [readProxies]: [file] is [None] when [os.Open] fails, else the scanned
    lines and whether [scanner.Err()] is non-nil; the result is [None] for
    a non-nil error. *)
Definition readProxies (file : option (list string * bool))
  : option (list ProxyConfig) :=
  match file with
  | None => Some []
  | Some (lines, scan_error) =>
      if scan_error then None else Some (fst (scanProxies lines))
  end.

End Readers.

(** [readEventURLs]: the loop over the scanned lines, and the function on
    the file ([None] when [os.Open] fails, else the lines and whether
    [scanner.Err()] is non-nil). *)
Fixpoint scanEventURLs (lines : list string) : list string :=
  match lines with
  | [] => []
  | text :: rest =>
      let line := TrimSpace text in
      if negb (String.eqb line "")
         && (HasPrefix line "http" || Contains line "event")
      then line :: scanEventURLs rest
      else scanEventURLs rest
  end.

Definition readEventURLs (file : option (list string * bool))
  : option (list string) :=
  match file with
  | None => None
  | Some (lines, scan_error) =>
      if scan_error then None else Some (scanEventURLs lines)
  end.

(** ** worker.go: the success test on the address of the page *)

(** [contains]; [fmt.Sprintf("%v", s)] of a string is the string. *)
Definition contains (s substr : string) : bool :=
  (len substr <=? len s)
  && (String.eqb s substr
      || ((0 <? len s) && (0 <? len substr)
          && negb (String.eqb s substr))).

(** [containsSuccessIndicator]. *)
Definition containsSuccessIndicator (url : string) : bool :=
  let successKeywords :=
    ["success"; "confirmation"; "thank"; "registered"; "complete"] in
  let urlLower := url in
  existsb (fun keyword => contains urlLower keyword) successKeywords.

(** ** telegram_bot.go: the command loop *)
Module Control.

(** [strings.Fields]: the maximal runs of bytes between white-space
    runes; [n] bounds the bytes left. *)
Definition push (field : string) (fields : list string) : list string :=
  if String.eqb field "" then fields else field :: fields.

Fixpoint Fields_from (n : nat) (field s : string) : list string :=
  match n with
  | O => push field []
  | S n' =>
      match s with
      | EmptyString => push field []
      | String c s' =>
          match first_cut cut_prefix s space_runes with
          | Some rest => push field (Fields_from n' "" rest)
          | None => Fields_from n' (field ++ String c "") s'
          end
      end
  end.

Definition Fields (s : string) : list string :=
  Fields_from (S (String.length s)) "" s.

(** [fmt.Sprintf("%d", n)] and [strconv.FormatInt(n, 10)]. *)
Definition itoa (n : Z) : string := NilZero.string_of_int (Z.to_int n).

Record TelegramDocument := {
  FileID : string;
  FileName : string;
  FileSize : Z
}.

Record TelegramUser := {
  UserID : Z;
  UserFirstName : string;
  Username : string
}.

Record TelegramChat := {
  ID : Z;
  ChatType : string
}.

(** [TelegramMessage]: [From], [Chat] and [Document] are pointers, [None]
    when nil. *)
Record TelegramMessage := {
  MessageID : Z;
  From : option TelegramUser;
  Chat : option TelegramChat;
  Text : string;
  Document : option TelegramDocument
}.

Inductive Advice := Safe | Decent | Powerful | Extreme.

(** One entry of the results listing: the failure mark, the email cut to
    30 bytes, the event cut to 40 bytes, the message. *)
Record ResultLine := {
  line_failed : bool;
  line_email : string;
  line_event : string;
  line_message : string
}.

(** The texts of the other handlers, by their opening words. *)
Inductive Notice :=
| Welcome (chatID : Z)
| Help
| SetupStep1
| SetupStep2 (firstName : string)
| SetupStep3 (lastName : string)
| SetupComplete (userConfig : Bot.UserConfig)
| WorkersCurrent (current : Z)
| WorkersUsage
| WorkersInvalid
| WorkersUpdated (workers : Z) (advice : Advice)
| UnknownFileType
| DownloadFailed
| FileUploaded (fileType targetFile : string)
| StatusIdle
| StatusRunning (elapsed completed successful failed : Z)
| NoResultsYet
| LastResults (count : Z) (entries : list ResultLine)
| Stats (running : bool) (emails events proxies maxWorkers bandwidth
         results chatID : Z)
| Configuration (userConfig : Bot.UserConfig) (retry : Z)
| UnknownCommand.

(** The bot: the campaign state and the goroutines in flight (as in
    [Bot.Bot]), the per-chat configurations, and every message sent so
    far, newest last. *)
Record TelegramBot := {
  campaign : Bot.CampaignManager;
  inflight : list Bot.CampaignRun;
  userConfigs : gmap Z Bot.UserConfig;
  outbox : list (Z * (Bot.Text + Notice))
}.

(** A fresh bot: [NewTelegramBot]. *)
Definition NewTelegramBot : TelegramBot :=
  {| campaign := {| Bot.running := false; Bot.results := [];
                    Bot.startTime := 0 |};
     inflight := [];
     userConfigs := ∅;
     outbox := [] |}.

(** The campaign handlers of [Bot] run on the bot: they see the campaign
    state and the goroutines, and what they send goes to the outbox. *)
Definition core (b : TelegramBot) : Bot.Bot :=
  {| Bot.campaign := campaign b; Bot.inflight := inflight b;
     Bot.sent := [] |}.

Definition with_core (b : TelegramBot) (c : Bot.Bot) : TelegramBot :=
  {| campaign := Bot.campaign c;
     inflight := Bot.inflight c;
     userConfigs := userConfigs b;
     outbox := outbox b ++ map (fun m => (fst m, inl (snd m))) (Bot.sent c) |}.

Definition sendMessage (chatID : Z) (text : Notice) (b : TelegramBot)
  : TelegramBot :=
  {| campaign := campaign b; inflight := inflight b;
     userConfigs := userConfigs b;
     outbox := outbox b ++ [(chatID, inr text)] |}.

Definition set_user (chatID : Z) (userConfig : Bot.UserConfig)
    (b : TelegramBot) : TelegramBot :=
  {| campaign := campaign b; inflight := inflight b;
     userConfigs := <[chatID := userConfig]> (userConfigs b);
     outbox := outbox b |}.

(** The configuration [getUserConfig] creates at the first contact. *)
Definition default_config (chatID : Z) : Bot.UserConfig :=
  {| Bot.FirstName := ""; Bot.LastName := ""; Bot.Organization := "";
     Bot.EmailsFile := "emails_" ++ itoa chatID ++ ".txt";
     Bot.EventsFile := "events_" ++ itoa chatID ++ ".txt";
     Bot.ProxiesFile := "proxies.txt";
     Bot.MaxWorkers := 20;
     Bot.State := "idle" |}.

(** [getUserConfig]. *)
Definition getUserConfig (chatID : Z) (b : TelegramBot)
  : Bot.UserConfig * TelegramBot :=
  match userConfigs b !! chatID with
  | Some userConfig => (userConfig, b)
  | None => (default_config chatID, set_user chatID (default_config chatID) b)
  end.

(** What the handlers get from outside: the files as the readers find
    them, the clock, [strings.ToLower] (which follows the Unicode case
    tables) and whether [downloadFile] returns a nil error. *)
Record Env := {
  files : Bot.Files;
  now : Z;
  ToLower : string -> string;
  downloadFile : string -> string -> bool
}.

(** [handleWorkers]. *)
Definition advice_for (workers : Z) : Advice :=
  if workers <=? 20 then Safe
  else if workers <=? 50 then Decent
  else if workers <=? 100 then Powerful
  else Extreme.

Definition set_MaxWorkers (workers : Z) (u : Bot.UserConfig)
  : Bot.UserConfig :=
  {| Bot.FirstName := Bot.FirstName u; Bot.LastName := Bot.LastName u;
     Bot.Organization := Bot.Organization u;
     Bot.EmailsFile := Bot.EmailsFile u; Bot.EventsFile := Bot.EventsFile u;
     Bot.ProxiesFile := Bot.ProxiesFile u;
     Bot.MaxWorkers := workers; Bot.State := Bot.State u |}.

Definition handleWorkers (chatID : Z) (text : string)
    (userConfig : Bot.UserConfig) (b : TelegramBot) : TelegramBot :=
  match Fields text with
  | [_] => sendMessage chatID (WorkersCurrent (Bot.MaxWorkers userConfig)) b
  | [_; arg] =>
      match Atoi arg with
      | Some workers =>
          if (workers <? 1) || (200 <? workers)
          then sendMessage chatID WorkersInvalid b
          else
            sendMessage chatID (WorkersUpdated workers (advice_for workers))
              (set_user chatID (set_MaxWorkers workers userConfig) b)
      | None => sendMessage chatID WorkersInvalid b
      end
  | _ => sendMessage chatID WorkersUsage b
  end.

(** [handleFileUpload]; the download itself happens outside. *)
Definition handleFileUpload (env : Env) (chatID : Z) (doc : TelegramDocument)
    (userConfig : Bot.UserConfig) (b : TelegramBot) : TelegramBot :=
  let fileName := ToLower env (FileName doc) in
  let target :=
    if Contains fileName "email"
    then Some (Bot.EmailsFile userConfig, "emails")
    else if Contains fileName "event" || Contains fileName "list"
    then Some (Bot.EventsFile userConfig, "events")
    else if Contains fileName "proxy" || Contains fileName "proxies"
    then Some (Bot.ProxiesFile userConfig, "proxies")
    else None in
  match target with
  | None => sendMessage chatID UnknownFileType b
  | Some (targetFile, fileType) =>
      if downloadFile env (FileID doc) targetFile
      then sendMessage chatID (FileUploaded fileType targetFile) b
      else sendMessage chatID DownloadFailed b
  end.

(** [handleSetup] and [handleStateInput]: the setup dialogue. *)
Definition set_State (state : string) (u : Bot.UserConfig) : Bot.UserConfig :=
  {| Bot.FirstName := Bot.FirstName u; Bot.LastName := Bot.LastName u;
     Bot.Organization := Bot.Organization u;
     Bot.EmailsFile := Bot.EmailsFile u; Bot.EventsFile := Bot.EventsFile u;
     Bot.ProxiesFile := Bot.ProxiesFile u;
     Bot.MaxWorkers := Bot.MaxWorkers u; Bot.State := state |}.

Definition handleSetup (chatID : Z) (userConfig : Bot.UserConfig)
    (b : TelegramBot) : TelegramBot :=
  sendMessage chatID SetupStep1
    (set_user chatID (set_State "awaiting_firstname" userConfig) b).

Definition handleStateInput (chatID : Z) (text : string)
    (userConfig : Bot.UserConfig) (b : TelegramBot) : TelegramBot :=
  let u := userConfig in
  if String.eqb (Bot.State u) "awaiting_firstname" then
    sendMessage chatID (SetupStep2 text)
      (set_user chatID
         {| Bot.FirstName := text; Bot.LastName := Bot.LastName u;
            Bot.Organization := Bot.Organization u;
            Bot.EmailsFile := Bot.EmailsFile u;
            Bot.EventsFile := Bot.EventsFile u;
            Bot.ProxiesFile := Bot.ProxiesFile u;
            Bot.MaxWorkers := Bot.MaxWorkers u;
            Bot.State := "awaiting_lastname" |} b)
  else if String.eqb (Bot.State u) "awaiting_lastname" then
    sendMessage chatID (SetupStep3 text)
      (set_user chatID
         {| Bot.FirstName := Bot.FirstName u; Bot.LastName := text;
            Bot.Organization := Bot.Organization u;
            Bot.EmailsFile := Bot.EmailsFile u;
            Bot.EventsFile := Bot.EventsFile u;
            Bot.ProxiesFile := Bot.ProxiesFile u;
            Bot.MaxWorkers := Bot.MaxWorkers u;
            Bot.State := "awaiting_org" |} b)
  else if String.eqb (Bot.State u) "awaiting_org" then
    let u' := {| Bot.FirstName := Bot.FirstName u;
                 Bot.LastName := Bot.LastName u;
                 Bot.Organization := text;
                 Bot.EmailsFile := Bot.EmailsFile u;
                 Bot.EventsFile := Bot.EventsFile u;
                 Bot.ProxiesFile := Bot.ProxiesFile u;
                 Bot.MaxWorkers := Bot.MaxWorkers u;
                 Bot.State := "idle" |} in
    sendMessage chatID (SetupComplete u') (set_user chatID u' b)
  else b.

(** [sendStatus]. *)
Definition sendStatus (env : Env) (chatID : Z) (b : TelegramBot)
  : TelegramBot :=
  if negb (Bot.running (campaign b))
  then sendMessage chatID StatusIdle b
  else
    let results := Bot.results (campaign b) in
    let successful := Bot.successes results in
    sendMessage chatID
      (StatusRunning (now env - Bot.startTime (campaign b))
         (Z.of_nat (length results)) successful
         (Z.of_nat (length results) - successful)) b.

(** [sendResults]: the last ten results at most. *)
Definition result_line (r : RegistrationResult) : ResultLine :=
  {| line_failed := String.eqb (Status r) "FAILED";
     line_email := truncateString (Email r) 30;
     line_event := truncateString (Event r) 40;
     line_message := Message r |}.

Definition sendResults (chatID : Z) (b : TelegramBot) : TelegramBot :=
  let results := Bot.results (campaign b) in
  if Z.of_nat (length results) =? 0
  then sendMessage chatID NoResultsYet b
  else
    let count := if 10 <? Z.of_nat (length results)
                 then 10 else Z.of_nat (length results) in
    sendMessage chatID
      (LastResults count
         (map result_line
            (drop (Z.to_nat (Z.of_nat (length results) - count)) results))) b.

(** [sendStats]. *)
Definition sendStats (env : Env) (chatID : Z) (b : TelegramBot)
  : TelegramBot :=
  let (userConfig, b) := getUserConfig chatID b in
  let emails := default [] (Bot.readEmails (files env)
                              (Bot.EmailsFile userConfig)) in
  let events := default [] (Bot.readEventURLs (files env)
                              (Bot.EventsFile userConfig)) in
  let proxies := Bot.readProxies (files env) (Bot.ProxiesFile userConfig) in
  let maxWorkers := Bot.MaxWorkers userConfig in
  sendMessage chatID
    (Stats (Bot.running (campaign b)) (Z.of_nat (length emails))
       (Z.of_nat (length events)) (Z.of_nat (length proxies)) maxWorkers
       (maxWorkers * 2) (Z.of_nat (length (Bot.results (campaign b))))
       chatID) b.

(** [handleRegister] and [handleStop], from [Bot]. *)
Definition handleRegister (env : Env) (chatID : Z)
    (userConfig : Bot.UserConfig) (b : TelegramBot) : TelegramBot :=
  with_core b
    (Bot.handleRegister (files env) (now env) chatID userConfig (core b)).

Definition handleStop (chatID : Z) (b : TelegramBot) : TelegramBot :=
  with_core b (Bot.handleStop chatID (core b)).

(** [handleMessage]; [None] is the panic of a nil dereference, at
    [msg.Chat.ID] or at [msg.From.Username]. *)
Definition handleMessage (env : Env) (msg : TelegramMessage)
    (b : TelegramBot) : option TelegramBot :=
  match Chat msg with
  | None => None
  | Some chat =>
      let chatID := ID chat in
      let (userConfig, b) := getUserConfig chatID b in
      match Document msg with
      | Some doc => Some (handleFileUpload env chatID doc userConfig b)
      | None =>
          let text := TrimSpace (Text msg) in
          match From msg with
          | None => None
          | Some _ =>
              Some
                (if negb (String.eqb (Bot.State userConfig) "idle")
                 then handleStateInput chatID text userConfig b
                 else if String.eqb text "/start"
                 then sendMessage chatID (Welcome chatID) b
                 else if String.eqb text "/help"
                 then sendMessage chatID Help b
                 else if String.eqb text "/setup"
                 then handleSetup chatID userConfig b
                 else if HasPrefix text "/workers"
                 then handleWorkers chatID text userConfig b
                 else if String.eqb text "/status"
                 then sendStatus env chatID b
                 else if String.eqb text "/register"
                 then handleRegister env chatID userConfig b
                 else if String.eqb text "/stop" then handleStop chatID b
                 else if String.eqb text "/results"
                 then sendResults chatID b
                 else if String.eqb text "/stats"
                 then sendStats env chatID b
                 else if String.eqb text "/config"
                 then sendMessage chatID
                        (Configuration userConfig (RegistrationRetry config))
                        b
                 else sendMessage chatID UnknownCommand b)
          end
      end
  end.

(** A text message: one with its sender and its chat, and no document. *)
Definition text_of (messageID : Z) (sender : TelegramUser)
    (chat : TelegramChat) (text : string) : TelegramMessage :=
  {| MessageID := messageID; From := Some sender; Chat := Some chat;
     Text := text; Document := None |}.

(** The orchestrator [runCampaign] builds for a launch. *)
Definition orchestrator_of (run : Bot.CampaignRun)
  : Orchestrator.RegistrationOrchestrator :=
  {| Orchestrator.firstName := Bot.run_firstName run;
     Orchestrator.lastName := Bot.run_lastName run;
     Orchestrator.organization := Bot.run_organization run;
     Orchestrator.headless := true;
     Orchestrator.maxWorkers := Bot.run_maxWorkers run;
     Orchestrator.telegramChatID := itoa (Bot.run_chatID run) |}.

(** The goroutine at position [i] of [inflight] finishes: its [Run] has
    returned [rs] and its completion handler runs. *)
Definition completed (i : nat) (rs : list RegistrationResult)
    (b b' : TelegramBot) : Prop :=
  exists run c,
    inflight b !! i = Some run /\
    Orchestrator.Run (orchestrator_of run) (Bot.run_eventURLs run)
      (Bot.run_emails run) (Bot.run_proxies run) rs /\
    Bot.runCampaign_completed i rs (core b) = Some c /\
    b' = with_core b c.

(** The two halves of [handleRegister]: up to the release of the campaign
    lock ([None] when the launch is rejected there), and from the file
    reads on.  Goroutines in flight may finish in between. *)
Definition register_locked (now chatID : Z) (userConfig : Bot.UserConfig)
    (c : Bot.Bot) : Bot.Bot * bool :=
  if String.eqb (Bot.FirstName userConfig) ""
     || String.eqb (Bot.LastName userConfig) ""
     || String.eqb (Bot.Organization userConfig) ""
  then (Bot.sendMessage chatID Bot.RunSetupFirst c, false)
  else if Bot.running (Bot.campaign c)
  then (Bot.sendMessage chatID Bot.AlreadyRunning c, false)
  else (Bot.set_campaign {| Bot.running := true; Bot.results := [];
                            Bot.startTime := now |} c, true).

Definition register_unlocked (files : Bot.Files) (chatID : Z)
    (userConfig : Bot.UserConfig) (c : Bot.Bot) : Bot.Bot :=
  let stop_running c :=
    Bot.set_campaign {| Bot.running := false;
                        Bot.results := Bot.results (Bot.campaign c);
                        Bot.startTime := Bot.startTime (Bot.campaign c) |} c in
  match Bot.readEmails files (Bot.EmailsFile userConfig) with
  | None =>
      Bot.sendMessage chatID (Bot.LoadEmailsFailed (Bot.EmailsFile userConfig))
        (stop_running c)
  | Some emails =>
      match Bot.readEventURLs files (Bot.EventsFile userConfig) with
      | None =>
          Bot.sendMessage chatID
            (Bot.LoadEventsFailed (Bot.EventsFile userConfig))
            (stop_running c)
      | Some eventURLs =>
          let run := {| Bot.run_chatID := chatID;
                        Bot.run_firstName := Bot.FirstName userConfig;
                        Bot.run_lastName := Bot.LastName userConfig;
                        Bot.run_organization := Bot.Organization userConfig;
                        Bot.run_maxWorkers := Bot.MaxWorkers userConfig;
                        Bot.run_emails := emails;
                        Bot.run_eventURLs := eventURLs;
                        Bot.run_proxies :=
                          Bot.readProxies files (Bot.ProxiesFile userConfig) |} in
          Bot.go_runCampaign run
            (Bot.sendMessage chatID (Bot.CampaignStarted run) c)
      end
  end.

(** Goroutines finishing one after another. *)
Inductive finishing : TelegramBot -> TelegramBot -> Prop :=
| finishing_none b : finishing b b
| finishing_more b i rs b1 b2 :
    completed i rs b b1 -> finishing b1 b2 -> finishing b b2.

(** What can happen to the bot: the loop handles a message (without a
    panic), a goroutine finishes, or goroutines finish while the loop is
    between the two halves of an accepted launch. *)
Inductive step : TelegramBot -> TelegramBot -> Prop :=
| step_message env msg b b' :
    handleMessage env msg b = Some b' -> step b b'
| step_completed i rs b b' : completed i rs b b' -> step b b'
| step_register_raced env chatID userConfig b c b1 b2 :
    userConfigs b !! chatID = Some userConfig ->
    Bot.State userConfig = "idle" ->
    register_locked (now env) chatID userConfig (core b) = (c, true) ->
    b1 = with_core b c ->
    finishing b1 b2 ->
    step b
      (with_core b2
         (register_unlocked (files env) chatID userConfig (core b2))).

Inductive reachable : TelegramBot -> Prop :=
| reachable_new : reachable NewTelegramBot
| reachable_step b b' : reachable b -> step b b' -> reachable b'.

(** What holds of every state the bot reaches: while the running flag is
    set the cached results are empty; every configuration has between 1
    and 200 workers and a state of the setup dialogue; every goroutine in
    flight was launched with between 1 and 200 workers and with the three
    names filled in. *)
Definition user_ok (u : Bot.UserConfig) : Prop :=
  1 <= Bot.MaxWorkers u <= 200 /\
  (Bot.State u = "idle" \/ Bot.State u = "awaiting_firstname"
   \/ Bot.State u = "awaiting_lastname" \/ Bot.State u = "awaiting_org").

Definition run_ok (run : Bot.CampaignRun) : Prop :=
  1 <= Bot.run_maxWorkers run <= 200 /\
  Bot.run_firstName run <> "" /\ Bot.run_lastName run <> "" /\
  Bot.run_organization run <> "".

Record Good (b : TelegramBot) : Prop := {
  good_status :
    Bot.running (campaign b) = true -> Bot.results (campaign b) = [];
  good_users : map_Forall (fun _ u => user_ok u) (userConfigs b);
  good_runs : Forall run_ok (inflight b)
}.

(** Sample inputs: an environment with the sample files, and text and
    file messages from chat 7. *)
Definition ascii_lower (s : string) : string :=
  string_of_list_ascii
    (map (fun c => let n := nat_of_ascii c in
                   if (65 <=? n)%nat && (n <=? 90)%nat
                   then ascii_of_nat (n + 32) else c)
       (list_ascii_of_string s)).

Definition sample_env : Env :=
  {| files := Bot.sample_files; now := 9; ToLower := ascii_lower;
     downloadFile := fun _ _ => true |}.

Definition sample_sender : TelegramUser :=
  {| UserID := 7; UserFirstName := "Ada"; Username := "ada" |}.

Definition sample_chat : TelegramChat :=
  {| ID := 7; ChatType := "private" |}.

Definition text_message (text : string) : TelegramMessage :=
  text_of 1 sample_sender sample_chat text.

(** The handling of several messages, one after the other. *)
Fixpoint handle_all (env : Env) (msgs : list TelegramMessage)
    (b : TelegramBot) : option TelegramBot :=
  match msgs with
  | [] => Some b
  | msg :: msgs' =>
      match handleMessage env msg b with
      | Some b' => handle_all env msgs' b'
      | None => None
      end
  end.

(** The bot once chat 7 has sent "/setup", once it has gone through the
    setup dialogue, and once it has then launched a campaign. *)
Definition sample_asking : TelegramBot :=
  default NewTelegramBot
    (handleMessage sample_env (text_message "/setup") NewTelegramBot).

Definition sample_configured : TelegramBot :=
  default NewTelegramBot
    (handle_all sample_env
       [text_message "/setup"; text_message "Ada"; text_message "Lovelace";
        text_message "Analytical"] NewTelegramBot).

Definition sample_launched : TelegramBot :=
  default sample_configured
    (handleMessage sample_env (text_message "/register") sample_configured).

Definition sample_run : Bot.CampaignRun :=
  {| Bot.run_chatID := 7; Bot.run_firstName := "Ada";
     Bot.run_lastName := "Lovelace"; Bot.run_organization := "Analytical";
     Bot.run_maxWorkers := 20;
     Bot.run_emails := ["a@x.com"; "b@x.com"];
     Bot.run_eventURLs := ["https://events.example.com/e/1"];
     Bot.run_proxies := [] |}.

(** A bot whose last campaign has finished with one result, and an
    environment in which the emails file cannot be read. *)
Definition sample_finished : TelegramBot :=
  {| campaign :=
       {| Bot.running := false;
          Bot.results := Bot.results (Bot.campaign Bot.sample_running_bot);
          Bot.startTime := 4 |};
     inflight := [];
     userConfigs := userConfigs sample_configured;
     outbox := [] |}.

Definition sample_env_no_emails : Env :=
  {| files := {| Bot.readEmails := fun _ => None;
                 Bot.readEventURLs := Bot.readEventURLs Bot.sample_files;
                 Bot.readProxies := Bot.readProxies Bot.sample_files |};
     now := 9; ToLower := ascii_lower;
     downloadFile := fun _ _ => true |}.

End Control.

(** ** main.go: the command line *)
Module Main.

(** The values of the flags after [flag.Parse()]. *)
Record Flags := {
  botMode : bool;
  firstName : string;
  lastName : string;
  organization : string;
  emailsFile : string;
  eventsFile : string;
  proxiesFile : string;
  workers : Z;
  headless : bool;
  windowMode : bool;
  verbose : bool;
  telegram : string;
  debug : bool
}.

(** The flags of a command line that sets none. *)
Definition defaults : Flags :=
  {| botMode := false; firstName := ""; lastName := ""; organization := "";
     emailsFile := "emails.txt"; eventsFile := "list.txt";
     proxiesFile := "proxies.txt"; workers := MaxWorkers config;
     headless := true; windowMode := false; verbose := false;
     telegram := ""; debug := false |}.

(** What [main] comes to: the bot, [os.Exit(code)], the debug mode, or a
    campaign. *)
Inductive Plan :=
| RunBotMode
| Exit (code : Z)
| runDebugMode (proxiesFile eventsFile : string)
| Campaign (o : Orchestrator.RegistrationOrchestrator)
    (eventURLs emails : list string) (proxies : list ProxyConfig).

(** [main] up to the call of [orchestrator.Run]. *)
Definition plan (flags : Flags) (files : Bot.Files) : Plan :=
  if botMode flags then RunBotMode
  else if String.eqb (firstName flags) "" || String.eqb (lastName flags) ""
          || String.eqb (organization flags) ""
  then Exit 1
  else if debug flags
  then runDebugMode (proxiesFile flags) (eventsFile flags)
  else
    match Bot.readEmails files (emailsFile flags) with
    | None => Exit 1
    | Some emails =>
        match Bot.readEventURLs files (eventsFile flags) with
        | None => Exit 1
        | Some eventURLs =>
            let proxies := Bot.readProxies files (proxiesFile flags) in
            if (Z.of_nat (length emails) =? 0)
               || (Z.of_nat (length eventURLs) =? 0)
            then Exit 1
            else
              Campaign
                {| Orchestrator.firstName := firstName flags;
                   Orchestrator.lastName := lastName flags;
                   Orchestrator.organization := organization flags;
                   Orchestrator.headless :=
                     negb (windowMode flags) && headless flags;
                   Orchestrator.maxWorkers := workers flags;
                   Orchestrator.telegramChatID := telegram flags |}
                eventURLs emails proxies
        end
    end.

(** The process ends with status [code]: by [os.Exit], or by the return of
    [main] (status 0).  The bot's loop does not return; a panic of [Run]
    is no such end. *)
Definition main (flags : Flags) (files : Bot.Files) (code : Z) : Prop :=
  match plan flags files with
  | RunBotMode => False
  | Exit c => code = c
  | runDebugMode _ _ => code = 0
  | Campaign o eventURLs emails proxies =>
      exists results,
        Orchestrator.Run o eventURLs emails proxies results /\
        code = if 0 <? Z.of_nat (length results) then 0 else 1
  end.

(** A command line with the three names, and one that also asks for a
    pool of no goroutine. *)
Definition sample_flags : Flags :=
  {| botMode := false; firstName := "Ada"; lastName := "Lovelace";
     organization := "Analytical"; emailsFile := "emails.txt";
     eventsFile := "list.txt"; proxiesFile := "proxies.txt";
     workers := MaxWorkers config; headless := true; windowMode := false;
     verbose := false; telegram := ""; debug := false |}.

Definition sample_flags_no_worker : Flags :=
  {| botMode := false; firstName := "Ada"; lastName := "Lovelace";
     organization := "Analytical"; emailsFile := "emails.txt";
     eventsFile := "list.txt"; proxiesFile := "proxies.txt";
     workers := 0; headless := true; windowMode := false;
     verbose := false; telegram := ""; debug := false |}.

End Main.

(** * Properties *)

(** ** The retry loop of the worker *)
Section WorkerFacts.

Import Worker.

Variable cfg : Config.
Variable w : RegistrationWorker.
Variable world : World.
Variables eventURL firstName lastName email organization : string.

Local Abbreviation R := (RegistrationRetry cfg).
Local Abbreviation loop :=
  (retry_loop cfg w world eventURL firstName lastName email organization).
Local Abbreviation event := (truncateString (lastPathSegment eventURL) 20).
Local Abbreviation call :=
  (TryRegistration eventURL firstName lastName email organization).

Lemma retry_loop_step proxy n a :
  loop proxy (S n) a =
  if a <=? R then
    if fst (try_outcome world a) then
      (Some {| Email := email; Event := event; Status := "SUCCESS";
               Attempt := a; Message := snd (try_outcome world a);
               Timestamp := time_now world |},
       [call proxy a])
    else
      (fst (loop proxy n (a + 1)),
       call proxy a
         :: after_failure cfg w eventURL email a (snd (try_outcome world a))
         ++ snd (loop proxy n (a + 1)))
  else (None, []).
Proof.
  unfold after_failure. simpl.
  destruct (a <=? RegistrationRetry cfg); [|reflexivity].
  unfold tryRegistration, bind, emit, ret.
  destruct (try_outcome world a) as [[|] message]; simpl; [reflexivity|].
  destruct (retry_loop _ _ _ _ _ _ _ _ proxy n (a + 1)) as [r t].
  destruct (a <? RegistrationRetry cfg); simpl; [reflexivity|].
  destruct (negb _); reflexivity.
Qed.

(** The loop entered at [a] with exactly the iterations up to [R] left:
    it returns at the first successful attempt, and leaves by its condition
    when every attempt from [a] to [R] failed. *)
Lemma retry_loop_result proxy n a :
  a + Z.of_nat n = R + 1 ->
  match fst (loop proxy n a) with
  | Some r =>
      Status r = "SUCCESS" /\ Email r = email /\ Event r = event /\
      a <= Attempt r <= R /\
      fst (try_outcome world (Attempt r)) = true /\
      Message r = snd (try_outcome world (Attempt r)) /\
      (forall k, a <= k < Attempt r -> fst (try_outcome world k) = false)
  | None => forall k, a <= k <= R -> fst (try_outcome world k) = false
  end.
Proof.
  revert a. induction n as [|n IH]; intros a Ha.
  - simpl. intros k Hk. lia.
  - rewrite retry_loop_step.
    destruct (Z.leb_spec a R) as [Hle|Hgt]; [|lia].
    destruct (fst (try_outcome world a)) eqn:Hs; simpl.
    + repeat split; try reflexivity; try lia; try assumption.
    + specialize (IH (a + 1) ltac:(lia)).
      destruct (fst (loop proxy n (a + 1))) as [r|].
      * destruct IH as (H1 & H2 & H3 & H4 & H5 & H6 & H7).
        repeat split; try assumption; try lia.
        intros k Hk. destruct (Z.eq_dec k a) as [->|Hne]; [assumption|].
        apply H7. lia.
      * intros k Hk. destruct (Z.eq_dec k a) as [->|Hne]; [assumption|].
        apply IH. lia.
Qed.

(** When every attempt fails the loop calls [tryRegistration] once per
    iteration and alerts at the last one only. *)
Lemma retry_loop_all_fail proxy n a :
  a + Z.of_nat n = R + 1 ->
  (forall k, fst (try_outcome world k) = false) ->
  fst (loop proxy n a) = None /\
  length (tries (snd (loop proxy n a))) = n /\
  alerts (snd (loop proxy n a)) =
    match n with
    | O => []
    | S _ => if String.eqb (telegramChatID w) "" then []
             else [TelegramAlert (telegramChatID w) email eventURL R
                     (snd (try_outcome world R))]
    end.
Proof.
  intros Ha Hfail. revert a Ha. induction n as [|n IH]; intros a Ha.
  - simpl. auto.
  - rewrite retry_loop_step.
    destruct (Z.leb_spec a R) as [Hle|Hgt]; [|lia].
    rewrite Hfail. simpl.
    destruct (IH (a + 1) ltac:(lia)) as (H1 & H2 & H3).
    split; [assumption|]. unfold tries, alerts in *.
    rewrite !List.filter_app, !length_app, H2, H3.
    unfold after_failure.
    destruct (Z.ltb_spec a R) as [Hlt|Hge]; simpl.
    + split; [reflexivity|]. destruct n; [lia|reflexivity].
    + assert (a = R) by lia. subst a.
      destruct n; [|lia].
      destruct (String.eqb (telegramChatID w) ""); simpl; auto.
Qed.

(** Every call of the loop passes the proxy chosen before the loop. *)
Lemma retry_loop_proxies proxy n a :
  Forall (fun p => p = proxy) (used_proxies (snd (loop proxy n a))).
Proof.
  revert a. induction n as [|n IH]; intros a; [constructor|].
  rewrite retry_loop_step.
  destruct (a <=? R); [|constructor].
  destruct (fst (try_outcome world a)); simpl.
  - repeat constructor.
  - constructor; [reflexivity|].
    unfold used_proxies in *. rewrite flat_map_app.
    apply Forall_app. split; [|apply IH].
    unfold after_failure.
    destruct (a <? R); [constructor|]. destruct (negb _); constructor.
Qed.

Lemma retry_loop_calls proxy n :
  1 <= R -> used_proxies (snd (loop proxy (S n) 1)) <> [].
Proof.
  intros HR. rewrite retry_loop_step.
  destruct (Z.leb_spec 1 R); [|lia].
  destruct (fst (try_outcome world 1)); discriminate.
Qed.

Lemma ExecuteRegistration_unfold :
  ExecuteRegistration cfg w world eventURL firstName lastName email
    organization =
  (match fst (loop (selectProxy w) (Z.to_nat R) 1) with
   | Some r => r
   | None => {| Email := email; Event := event; Status := "FAILED";
                Attempt := R; Message := "Max retries exceeded";
                Timestamp := time_now world |}
   end,
   snd (loop (selectProxy w) (Z.to_nat R) 1)).
Proof.
  unfold ExecuteRegistration, bind, ret.
  destruct (retry_loop _ _ _ _ _ _ _ _ _ _ _) as [[r|] t]; simpl;
    rewrite app_nil_r; reflexivity.
Qed.

End WorkerFacts.

(** ** Bytes of the strings the utilities build *)
Section StringFacts.

Lemma substring_prefix_length n s :
  (String.length (substring 0 n s) <= n)%nat.
Proof.
  revert s. induction n as [|n IH]; intros [|c s]; simpl; try lia.
  specialize (IH s). lia.
Qed.

Lemma substring_prefix_bytes n s c :
  In c (list_ascii_of_string (substring 0 n s)) ->
  In c (list_ascii_of_string s).
Proof.
  revert s. induction n as [|n IH]; intros [|d s]; simpl; try tauto.
  intros [->|H]; [left; reflexivity | right; apply IH, H].
Qed.

Lemma truncateString_len s maxLen :
  0 <= maxLen -> len (truncateString s maxLen) <= maxLen.
Proof.
  intros Hm. unfold truncateString, slice, len.
  destruct (Z.leb_spec (Z.of_nat (String.length s)) maxLen) as [H|H];
    [exact H|].
  change (Z.to_nat 0) with 0%nat.
  pose proof (substring_prefix_length (Z.to_nat (maxLen - 0)) s). lia.
Qed.

Lemma truncateString_bytes s maxLen c :
  In c (list_ascii_of_string (truncateString s maxLen)) ->
  In c (list_ascii_of_string s).
Proof.
  unfold truncateString, slice.
  destruct (len s <=? maxLen); [tauto|].
  change (Z.to_nat 0) with 0%nat. apply substring_prefix_bytes.
Qed.

(** No field of a split holds the separator. *)
Lemma Split_fields_free s sep field :
  In field (Split s sep) -> ~ In sep (list_ascii_of_string field).
Proof.
  revert field. induction s as [|c s IH]; intros field; simpl.
  - intros [<-|[]]. simpl. tauto.
  - destruct (Ascii.eqb_spec c sep) as [->|Hne].
    + intros [<-|H]; [simpl; tauto | apply IH, H].
    + destruct (Split s sep) as [|f fs] eqn:E.
      * intros [<-|[]]. simpl. intros [H|[]]. congruence.
      * intros [<-|H].
        -- simpl. intros [H|H]; [congruence|].
           apply (IH f); [left; reflexivity | exact H].
        -- apply IH. right. exact H.
Qed.

Lemma Split_nonempty s sep : Split s sep <> [].
Proof.
  destruct s as [|c s]; simpl; [discriminate|].
  destruct (Ascii.eqb c sep); [discriminate|].
  destruct (Split s sep); discriminate.
Qed.

Lemma Index_from_absent i s c :
  ~ In c (list_ascii_of_string s) ->
  Index_from i s (String c EmptyString) = -1.
Proof.
  revert i. induction s as [|d s IH]; intros i Hc; simpl; [reflexivity|].
  destruct (Ascii.eqb_spec d c) as [->|Hne].
  - exfalso. apply Hc. left. reflexivity.
  - simpl. apply IH. intros H. apply Hc. right. exact H.
Qed.

Lemma Contains_byte s c :
  Contains s (String c EmptyString) = true -> In c (list_ascii_of_string s).
Proof.
  unfold Contains, Index. intros H.
  destruct (in_dec ascii_dec c (list_ascii_of_string s)) as [Hin|Hout];
    [exact Hin|].
  rewrite (Index_from_absent 0 s c Hout) in H. discriminate.
Qed.

(** [lastPathSegment] is the last field of the split. *)
Lemma lastPathSegment_last url :
  last (Split (TrimSuffix url "/") "/"%char) = Some (lastPathSegment url).
Proof.
  unfold lastPathSegment.
  pose proof (Split_nonempty (TrimSuffix url "/") "/"%char) as Hne.
  destruct (Split (TrimSuffix url "/") "/"%char) as [|f fs] eqn:E;
    [congruence|].
  replace (0 <? Z.of_nat (length (f :: fs))) with true
    by (symmetry; apply Z.ltb_lt; simpl; lia).
  destruct (last (f :: fs)) as [x|] eqn:El; [reflexivity|].
  apply last_None in El. discriminate.
Qed.

Lemma lastPathSegment_free url :
  ~ In "/"%char (list_ascii_of_string (lastPathSegment url)).
Proof.
  apply (Split_fields_free (TrimSuffix url "/") "/"%char).
  pose proof (lastPathSegment_last url) as H.
  apply last_Some in H. destruct H as [l' ->].
  apply in_or_app. right. left. reflexivity.
Qed.

End StringFacts.

(** ** The results of the worker *)
Section WorkerResults.

Import Worker.

(** C7: with a retry ceiling of at least one, the attempt of a result lies
    between 1 and the ceiling; a result is SUCCESS or FAILED; a SUCCESS
    result carries the number of the first attempt that succeeded; a FAILED
    result carries the ceiling, and then every attempt failed. *)
Theorem ExecuteRegistration_attempt
    (cfg : Config) (w : RegistrationWorker) (world : World)
    (eventURL firstName lastName email organization : string) :
  1 <= RegistrationRetry cfg ->
  let r := fst (ExecuteRegistration cfg w world eventURL firstName lastName
                  email organization) in
  1 <= Attempt r <= RegistrationRetry cfg /\
  (Status r = "SUCCESS" \/ Status r = "FAILED") /\
  (Status r = "SUCCESS" ->
     fst (try_outcome world (Attempt r)) = true /\
     forall k, 1 <= k < Attempt r -> fst (try_outcome world k) = false) /\
  (Status r = "FAILED" ->
     Attempt r = RegistrationRetry cfg /\
     forall k, 1 <= k <= RegistrationRetry cfg ->
               fst (try_outcome world k) = false).
Proof.
  intros HR r. subst r. rewrite ExecuteRegistration_unfold. simpl.
  pose proof (retry_loop_result cfg w world eventURL firstName lastName email
                organization (selectProxy w)
                (Z.to_nat (RegistrationRetry cfg)) 1 ltac:(lia)) as H.
  destruct (fst (retry_loop _ _ _ _ _ _ _ _ _ _ _)) as [r|].
  - destruct H as (Hs & _ & _ & Ha & Ht & _ & Hf).
    rewrite Hs. repeat split; try lia; auto; discriminate.
  - simpl. repeat split; try lia; auto; discriminate.
Qed.

Lemma ExecuteRegistration_attempt_witness :
  1 <= RegistrationRetry config /\
  let r := fst (ExecuteRegistration config sample_worker succeeds_at_2
                  "https://events.example.com/e/launch" "Ada" "Lovelace"
                  "ada@example.com" "Analytical") in
  1 <= Attempt r <= RegistrationRetry config /\
  (Status r = "SUCCESS" \/ Status r = "FAILED") /\
  (Status r = "SUCCESS" ->
     fst (try_outcome succeeds_at_2 (Attempt r)) = true /\
     forall k, 1 <= k < Attempt r ->
               fst (try_outcome succeeds_at_2 k) = false) /\
  (Status r = "FAILED" ->
     Attempt r = RegistrationRetry config /\
     forall k, 1 <= k <= RegistrationRetry config ->
               fst (try_outcome succeeds_at_2 k) = false).
Proof.
  split; [cbv; discriminate|].
  apply ExecuteRegistration_attempt. cbv; discriminate.
Defined.

(** C2, as stated, fails: with the shipped ceiling of 3 and a world where
    every attempt fails, a job alerts once, not three times, and the
    message starts with a capital. *)
Lemma always_failing_job_alerts_once :
  (forall k, fst (try_outcome always_fails k) = false) /\
  (let (r, t) := ExecuteRegistration config sample_worker always_fails
                   "https://events.example.com/e/launch" "Ada" "Lovelace"
                   "ada@example.com" "Analytical" in
   length (alerts t) = 1%nat /\
   Z.of_nat (length (alerts t)) <> RegistrationRetry config /\
   Message r <> "max retries exceeded").
Proof.
  split; [reflexivity|]. vm_compute.
  repeat split; discriminate.
Qed.

(** C2, amended: when every attempt fails and the ceiling is at least one,
    the job calls the attempt capability exactly R times and alerts exactly
    once, at attempt R with that attempt's reason (not at all when the
    worker has no alert chat); its result is FAILED with attempt R and the
    message "Max retries exceeded". *)
Theorem always_failing_job
    (cfg : Config) (w : RegistrationWorker) (world : World)
    (eventURL firstName lastName email organization : string) :
  1 <= RegistrationRetry cfg ->
  (forall k, fst (try_outcome world k) = false) ->
  let (r, t) := ExecuteRegistration cfg w world eventURL firstName lastName
                  email organization in
  Status r = "FAILED" /\
  Attempt r = RegistrationRetry cfg /\
  Message r = "Max retries exceeded" /\
  Z.of_nat (length (tries t)) = RegistrationRetry cfg /\
  alerts t =
    if String.eqb (telegramChatID w) "" then []
    else [TelegramAlert (telegramChatID w) email eventURL
            (RegistrationRetry cfg)
            (snd (try_outcome world (RegistrationRetry cfg)))].
Proof.
  intros HR Hfail. rewrite ExecuteRegistration_unfold.
  destruct (retry_loop_all_fail cfg w world eventURL firstName lastName email
              organization (selectProxy w)
              (Z.to_nat (RegistrationRetry cfg)) 1 ltac:(lia) Hfail)
    as (H1 & H2 & H3).
  rewrite H1, H2, H3. simpl.
  destruct (Z.to_nat (RegistrationRetry cfg)) eqn:E; [lia|].
  repeat split; lia.
Qed.

Lemma always_failing_job_witness :
  1 <= RegistrationRetry config /\
  (forall k, fst (try_outcome always_fails k) = false) /\
  let (r, t) := ExecuteRegistration config sample_worker always_fails
                  "https://events.example.com/e/launch" "Ada" "Lovelace"
                  "ada@example.com" "Analytical" in
  Status r = "FAILED" /\
  Attempt r = RegistrationRetry config /\
  Message r = "Max retries exceeded" /\
  Z.of_nat (length (tries t)) = RegistrationRetry config /\
  alerts t =
    if String.eqb (telegramChatID sample_worker) "" then []
    else [TelegramAlert (telegramChatID sample_worker) "ada@example.com"
            "https://events.example.com/e/launch"
            (RegistrationRetry config)
            (snd (try_outcome always_fails (RegistrationRetry config)))].
Proof.
  split; [cbv; discriminate|]. split; [reflexivity|].
  apply (always_failing_job config sample_worker always_fails);
    [cbv; discriminate | reflexivity].
Defined.

(** C10, as stated, fails in its last part: a target without a slash and
    of at most 20 bytes is its own last segment, so the whole target is the
    event of the result. *)
Lemma event_is_whole_target :
  Event (fst (ExecuteRegistration config sample_worker always_fails
                "event-42" "Ada" "Lovelace" "ada@example.com" "Analytical"))
  = "event-42".
Proof. reflexivity. Qed.

(** C10, amended: the event of every result, success or failure, is the
    last slash-separated segment of the target (one trailing slash removed
    first) cut to at most 20 bytes; it never holds a slash, so it differs
    from every target that holds one. *)
Theorem result_event_truncated
    (cfg : Config) (w : RegistrationWorker) (world : World)
    (eventURL firstName lastName email organization : string) :
  let r := fst (ExecuteRegistration cfg w world eventURL firstName lastName
                  email organization) in
  last (Split (TrimSuffix eventURL "/") "/"%char)
    = Some (lastPathSegment eventURL) /\
  Event r = truncateString (lastPathSegment eventURL) 20 /\
  len (Event r) <= 20 /\
  ~ In "/"%char (list_ascii_of_string (Event r)) /\
  (Contains eventURL "/" = true -> Event r <> eventURL).
Proof.
  intros r.
  assert (He : Event r = truncateString (lastPathSegment eventURL) 20).
  { subst r. rewrite ExecuteRegistration_unfold. simpl.
    pose proof (retry_loop_result cfg w world eventURL firstName lastName
                  email organization (selectProxy w)
                  (Z.to_nat (RegistrationRetry cfg))
                  (RegistrationRetry cfg + 1
                   - Z.of_nat (Z.to_nat (RegistrationRetry cfg)))
                  ltac:(lia)) as H.
    destruct (Z_le_gt_dec 0 (RegistrationRetry cfg)) as [Hp|Hn].
    - replace (RegistrationRetry cfg + 1
               - Z.of_nat (Z.to_nat (RegistrationRetry cfg))) with 1 in H
        by lia.
      destruct (fst (retry_loop _ _ _ _ _ _ _ _ _ _ _)) as [r'|];
        [tauto | reflexivity].
    - replace (Z.to_nat (RegistrationRetry cfg)) with 0%nat by lia.
      reflexivity. }
  assert (Hfree : ~ In "/"%char (list_ascii_of_string (Event r))).
  { rewrite He. intros Hin. apply truncateString_bytes in Hin.
    exact (lastPathSegment_free eventURL Hin). }
  split; [apply lastPathSegment_last|].
  split; [exact He|].
  split; [rewrite He; apply truncateString_len; lia|].
  split; [exact Hfree|].
  intros Hc Heq. apply Hfree. rewrite Heq. apply Contains_byte, Hc.
Qed.

End WorkerResults.

(** ** The proxy-line parser *)
Ltac break_matches :=
  repeat match goal with
         | |- context [match ?x with _ => _ end] =>
             let E := fresh "E" in destruct x eqn:E
         | |- context [if ?x then _ else _] =>
             let E := fresh "E" in destruct x eqn:E
         end.

Section ProxyParserFacts.

Variable url_Parse : string -> option url.URL.

(** The text the format rules see: the trimmed line, unwrapped. *)
Local Abbreviation text line := (unwrapMarkdown (TrimSpace line)).

Lemma parseProxyLine_plain line :
  TrimSpace line <> "" ->
  HasPrefix (TrimSpace line) "#" = false ->
  Contains (text line) "://" = false ->
  parseProxyLine url_Parse line =
  match parseUserPassAtHostPort (text line) with
  | Some proxy => Some proxy
  | None => parseColonSeparated (text line)
  end.
Proof.
  intros Hne Hc Hs. unfold parseProxyLine.
  destruct (String.eqb_spec (TrimSpace line) "") as [E|_]; [contradiction|].
  rewrite Hc, Hs. reflexivity.
Qed.

(** C4, amended: the four fields are those of the text the format rules
    see, the trimmed line with a markdown link replaced by its label, and
    not those of the line.  On a line that is neither blank nor a comment
    and whose text has no "://", no "@" and exactly four colon-separated
    fields: when the second field is an integer the line is read as
    host:port:user:pass, whether or not the fourth is one too; when only
    the fourth is, as user:pass:host:port; when neither is, the line is
    rejected.  The server is "http://host:port". *)
Theorem four_field_line (line f0 f1 f2 f3 : string) :
  TrimSpace line <> "" ->
  HasPrefix (TrimSpace line) "#" = false ->
  Contains (text line) "://" = false ->
  Contains (text line) "@" = false ->
  Split (text line) ":"%char = [f0; f1; f2; f3] ->
  (is_Some (Atoi f1) ->
   parseProxyLine url_Parse line =
   Some {| Server := ("http://" ++ f0 ++ ":" ++ f1)%string;
           Username := f2; Password := f3 |}) /\
  (Atoi f1 = None -> is_Some (Atoi f3) ->
   parseProxyLine url_Parse line =
   Some {| Server := ("http://" ++ f2 ++ ":" ++ f3)%string;
           Username := f0; Password := f1 |}) /\
  (Atoi f1 = None -> Atoi f3 = None ->
   parseProxyLine url_Parse line = None).
Proof.
  intros Hne Hc Hs Hat Hsplit.
  rewrite parseProxyLine_plain by assumption.
  unfold parseUserPassAtHostPort, parseColonSeparated.
  rewrite Hat, Hsplit. repeat split.
  - intros [n ->]. reflexivity.
  - intros -> [n ->]. reflexivity.
  - intros -> ->. reflexivity.
Qed.

(** C5, amended: on a line that is neither blank nor a comment and whose
    text has "@" but no "://", the user:pass@host:port reading (exactly one
    "@", two colon-separated fields on each side, the port an integer) gives
    server "http://host:port" with that user and password; when the text has
    no such reading the line is not rejected at once but handed to the
    colon-separated rules, applied to the whole text. *)
Theorem at_sign_line (line : string) :
  TrimSpace line <> "" ->
  HasPrefix (TrimSpace line) "#" = false ->
  Contains (text line) "://" = false ->
  Contains (text line) "@" = true ->
  (forall user pass host port,
     user_pass_at_host_port (text line) user pass host port ->
     parseProxyLine url_Parse line =
     Some {| Server := ("http://" ++ host ++ ":" ++ port)%string;
             Username := user; Password := pass |}) /\
  ((forall user pass host port,
      ~ user_pass_at_host_port (text line) user pass host port) ->
   parseProxyLine url_Parse line = parseColonSeparated (text line)).
Proof.
  intros Hne Hc Hs Hat.
  rewrite parseProxyLine_plain by assumption.
  unfold parseUserPassAtHostPort. rewrite Hat. split.
  - intros user pass host port (part0 & part1 & H0 & H1 & H2 & [n Hn]).
    rewrite H0, H1, H2, Hn. reflexivity.
  - intros Hno.
    destruct (Split (text line) "@"%char) as [|part0 [|part1 [|? ?]]] eqn:E;
      try reflexivity.
    destruct (Split part0 ":"%char) as [|user [|pass [|? ?]]] eqn:E0;
      try reflexivity.
    destruct (Split part1 ":"%char) as [|host [|port [|? ?]]] eqn:E1;
      try reflexivity.
    destruct (Atoi port) as [n|] eqn:En; [|reflexivity].
    exfalso. apply (Hno user pass host port).
    exists part0, part1. rewrite En. eauto.
Qed.

(** C6 fails on the code: the colon-separated rules accept an empty host
    (the "://" rule rejects one), so ":8080" gives a server without host. *)
Theorem empty_host_accepted :
  parseProxyLine url_Parse ":8080" =
  Some {| Server := "http://:8080"; Username := ""; Password := "" |}.
Proof. reflexivity. Qed.

(** Short of the host, a credential read from a text without "://" is
    whole: its server is "http://host:port" with an integer port. *)
Lemma plain_credential_server (line : string) (proxy : ProxyConfig) :
  Contains (text line) "://" = false ->
  parseProxyLine url_Parse line = Some proxy ->
  exists host port,
    Server proxy = ("http://" ++ host ++ ":" ++ port)%string /\
    is_Some (Atoi port).
Proof.
  intros Hs. unfold parseProxyLine.
  destruct (_ || _); [discriminate|]. rewrite Hs.
  destruct (parseUserPassAtHostPort (text line)) as [p|] eqn:E.
  - intros [= <-]. revert E. unfold parseUserPassAtHostPort.
    break_matches; intros [= <-]; eauto.
  - unfold parseColonSeparated. break_matches; intros [= <-]; eauto.
Qed.

End ProxyParserFacts.

(** C4, as stated, fails: "h:80:u[v](w):p" has exactly four
    colon-separated fields, no "://" and no "@", and its second field is
    an integer, yet the line is rejected: the markdown link is unwrapped
    first and leaves "v". *)
Lemma four_field_markdown_line_rejected :
  TrimSpace "h:80:u[v](w):p" = "h:80:u[v](w):p" /\
  Split "h:80:u[v](w):p" ":"%char = ["h"; "80"; "u[v](w)"; "p"] /\
  Contains "h:80:u[v](w):p" "://" = false /\
  Contains "h:80:u[v](w):p" "@" = false /\
  Atoi "80" = Some 80 /\
  unwrapMarkdown "h:80:u[v](w):p" = "v" /\
  parseProxyLine url_Parse_unused "h:80:u[v](w):p" = None.
Proof. repeat split. Qed.

(** The three cases: both candidate ports are integers, only the fourth
    field is one, neither is. *)
Lemma four_field_line_witness :
  parseProxyLine url_Parse_unused "10.0.0.7:3128:8080:9090" =
  Some {| Server := "http://10.0.0.7:3128";
          Username := "8080"; Password := "9090" |} /\
  parseProxyLine url_Parse_unused "  user:pass:proxy.example.com:8080 " =
  Some {| Server := "http://proxy.example.com:8080";
          Username := "user"; Password := "pass" |} /\
  parseProxyLine url_Parse_unused "[a:b:c:d](e)" = None.
Proof.
  split; [|split].
  - apply (four_field_line url_Parse_unused "10.0.0.7:3128:8080:9090"
             "10.0.0.7" "3128" "8080" "9090");
      solve [reflexivity | vm_compute; discriminate | vm_compute; eauto].
  - apply (four_field_line url_Parse_unused
             "  user:pass:proxy.example.com:8080 "
             "user" "pass" "proxy.example.com" "8080");
      solve [reflexivity | vm_compute; discriminate | vm_compute; eauto].
  - apply (four_field_line url_Parse_unused "[a:b:c:d](e)"
             "a" "b" "c" "d");
      solve [reflexivity | vm_compute; discriminate | vm_compute; eauto].
Defined.

(** C5, as stated, fails: "a@b:80" has "@" and no "://", its left part "a"
    is one field and not two, yet the line is not rejected. *)
Lemma at_sign_line_not_rejected :
  TrimSpace "a@b:80" = "a@b:80" /\
  HasPrefix "a@b:80" "#" = false /\
  unwrapMarkdown "a@b:80" = "a@b:80" /\
  Contains "a@b:80" "@" = true /\
  Contains "a@b:80" "://" = false /\
  Split "a@b:80" "@"%char = ["a"; "b:80"] /\
  Split "a" ":"%char = ["a"] /\
  parseProxyLine url_Parse_unused "a@b:80" =
  Some {| Server := "http://a@b:80"; Username := ""; Password := "" |}.
Proof. repeat split. Qed.

Lemma at_sign_line_witness :
  (forall user pass host port,
     user_pass_at_host_port "user:pass@host.example.com:8080"
       user pass host port ->
     parseProxyLine url_Parse_unused "user:pass@host.example.com:8080" =
     Some {| Server := ("http://" ++ host ++ ":" ++ port)%string;
             Username := user; Password := pass |}) /\
  ((forall user pass host port,
      ~ user_pass_at_host_port "user:pass@host.example.com:8080"
          user pass host port) ->
   parseProxyLine url_Parse_unused "user:pass@host.example.com:8080" =
   parseColonSeparated "user:pass@host.example.com:8080").
Proof.
  apply (at_sign_line url_Parse_unused "user:pass@host.example.com:8080");
    solve [reflexivity | vm_compute; discriminate].
Defined.

(** ** The campaign guard of the control plane *)
Section BotFacts.

Import Bot.

(** C8: a launch while a campaign is running changes neither the campaign
    state (running flag, results, start time) nor the goroutines in flight;
    it only sends one message to the requester: the already-running notice,
    or the setup guidance when the user's details are incomplete. *)
Theorem launch_while_running_rejected
    (files : Files) (now chatID : Z) (userConfig : UserConfig) (b : Bot) :
  running (campaign b) = true ->
  let b' := handleRegister files now chatID userConfig b in
  campaign b' = campaign b /\
  inflight b' = inflight b /\
  sent b' =
    sent b ++
    [(chatID,
      if String.eqb (FirstName userConfig) ""
         || String.eqb (LastName userConfig) ""
         || String.eqb (Organization userConfig) ""
      then RunSetupFirst else AlreadyRunning)].
Proof.
  intros Hrun. unfold handleRegister.
  destruct (_ || _); [repeat split|].
  rewrite Hrun. repeat split.
Qed.

Lemma launch_while_running_rejected_witness :
  running (campaign sample_running_bot) = true /\
  let b' := handleRegister sample_files 9 7 sample_user sample_running_bot in
  campaign b' = campaign sample_running_bot /\
  inflight b' = inflight sample_running_bot /\
  sent b' = sent sample_running_bot ++ [(7, AlreadyRunning)].
Proof.
  split; [reflexivity|].
  apply (launch_while_running_rejected sample_files 9 7 sample_user
           sample_running_bot).
  reflexivity.
Defined.

(** C9: a stop request leaves the running flag false and sends one
    message (the stop acknowledgement when a campaign was running), and
    changes neither the results, nor the start time, nor the goroutines in
    flight; each of these can still complete afterwards, and its completion
    handler stores the results it got and again leaves the flag false. *)
Theorem stop_is_advisory (chatID : Z) (b : Bot) :
  let b1 := handleStop chatID b in
  running (campaign b1) = false /\
  results (campaign b1) = results (campaign b) /\
  startTime (campaign b1) = startTime (campaign b) /\
  inflight b1 = inflight b /\
  sent b1 =
    sent b ++
    [(chatID,
      if running (campaign b) then StopRequested else NoCampaignRunning)] /\
  forall (i : nat) (run : CampaignRun) (rs : list RegistrationResult),
    inflight b !! i = Some run ->
    exists b2,
      runCampaign_completed i rs b1 = Some b2 /\
      results (campaign b2) = rs /\
      running (campaign b2) = false /\
      startTime (campaign b2) = startTime (campaign b) /\
      inflight b2 = delete i (inflight b).
Proof.
  unfold handleStop.
  destruct (running (campaign b)) eqn:Hrun; simpl.
  - repeat split. intros i run rs Hi. unfold runCampaign_completed. simpl.
    rewrite Hi. eexists. repeat split.
  - repeat split; [exact Hrun|].
    intros i run rs Hi. unfold runCampaign_completed. simpl.
    rewrite Hi. eexists. repeat split.
Qed.

End BotFacts.

(** ** The worker pool of the orchestrator *)
Module OrchestratorFacts.

Import Orchestrator.

Lemma held_insert (ws : list WorkerState) (w : nat) (st st' : WorkerState) :
  ws !! w = Some st ->
  flat_map held (<[w := st']> ws) ++ held st
  ≡ₚ held st' ++ flat_map held ws.
Proof.
  revert w. induction ws as [|x ws IH]; intros [|w] H; simpl in *;
    try discriminate.
  - injection H as ->. rewrite <- app_assoc.
    apply Permutation_app_head, Permutation_app_comm.
  - rewrite <- app_assoc, (IH w H), !app_assoc.
    apply Permutation_app_tail, Permutation_app_comm.
Qed.

Lemma weight_insert (ws : list WorkerState) (w : nat) (st st' : WorkerState) :
  ws !! w = Some st ->
  (list_sum (map weight (<[w := st']> ws)) + weight st
   = list_sum (map weight ws) + weight st')%nat.
Proof.
  revert w. induction ws as [|x ws IH]; intros [|w] H; simpl in *;
    try discriminate.
  - injection H as ->. lia.
  - specialize (IH w H). lia.
Qed.

Lemma wrap_small z : 0 <= z < 2 ^ 63 -> wrap z = z.
Proof.
  intros H. unfold wrap. rewrite Z.mod_small; lia.
Qed.

Section RunFacts.

Variable o : RegistrationOrchestrator.
Variables eventURLs emails : list string.
Variable proxies : list ProxyConfig.

Local Abbreviation step := (step o eventURLs emails proxies).
Local Abbreviation init := (init o eventURLs emails).
Local Abbreviation reachable := (reachable o eventURLs emails proxies).
Local Abbreviation Inv := (Inv o eventURLs emails proxies).
Local Abbreviation pair_result := (pair_result o proxies).
Local Abbreviation tasks :=
  (Z.of_nat (length eventURLs) * Z.of_nat (length emails)).

(** The pool keeps its size. *)
Lemma reachable_pool s :
  reachable s -> length (workers s) = Z.to_nat (maxWorkers o).
Proof.
  intros [ls Hexec]. induction Hexec as [|ls s1 l s2 _ IH Hstep].
  - apply length_replicate.
  - destruct Hstep; simpl; rewrite ?length_insert; exact IH.
Qed.

(** The proxy of goroutine [w]. *)
Lemma selectProxy_worker (w : nat) :
  Worker.selectProxy (worker o proxies w) =
  match proxies with
  | [] => None
  | _ :: _ => proxies !! (w mod length proxies)%nat
  end.
Proof.
  unfold Worker.selectProxy, worker. simpl.
  destruct proxies as [|p ps] eqn:E; [reflexivity|].
  replace (0 <? Z.of_nat (length (p :: ps))) with true
    by (symmetry; apply Z.ltb_lt; simpl; lia).
  rewrite Z.rem_mod_nonneg by (simpl; lia).
  rewrite <- Nat2Z.inj_mod, Nat2Z.id. reflexivity.
Qed.

Hypothesis pool : 1 <= maxWorkers o.
Hypothesis fits : tasks < 2 ^ 63.

Lemma totalTasks_product : totalTasks eventURLs emails = tasks.
Proof. apply wrap_small. lia. Qed.

Lemma init_queueing : phase init = Queueing.
Proof.
  simpl. rewrite totalTasks_product.
  destruct (Z.ltb_spec tasks 0); [lia | reflexivity].
Qed.

Lemma Inv_init : Inv init.
Proof.
  constructor; try rewrite init_queueing; simpl.
  - exists [], []. repeat split; try constructor.
    assert (flat_map held (replicate (Z.to_nat (maxWorkers o)) Waiting) = [])
      as ->.
    { induction (Z.to_nat (maxWorkers o)); simpl; auto. }
    simpl. rewrite app_nil_r. reflexivity.
  - apply Forall_replicate. exact I.
  - apply length_replicate.
  - left. apply Forall_replicate. discriminate.
  - discriminate.
  - left. reflexivity.
  - discriminate.
  - discriminate.
Qed.

Lemma Exited_not_waiting (ws : list WorkerState) w st :
  Forall (fun st => st = Exited) ws -> ws !! w = Some st -> st = Exited.
Proof. intros H Hw. exact (proj1 (Forall_lookup _ ws) H w st Hw). Qed.

Lemma pair_result_execute (s : State) (w : nat) (world : Worker.World)
    (j : job) (st : WorkerState) :
  length (workers s) = Z.to_nat (maxWorkers o) ->
  workers s !! w = Some st ->
  pair_result (pair_of j) (fst (execute o proxies w world j)).
Proof.
  intros Hl Hw. exists w, world. split; [|reflexivity].
  rewrite <- Hl. exact (lookup_lt_Some _ _ _ Hw).
Qed.

Lemma Inv_step s l s' : Inv s -> step s l s' -> Inv s'.
Proof.
  intros [(ps_buf & ps_all & Hbuf & Hall & Hperm) Hs Hl He Hc Hq Hr Hn] Hstep.
  assert (Hbusy : forall w st, workers s !! w = Some st -> st <> Exited ->
                               results_closed s = false).
  { intros w st Hw Hne. destruct (results_closed s) eqn:E; [|reflexivity].
    destruct (Hc eq_refl) as [Hex _].
    destruct (Hne (Exited_not_waiting _ _ _ Hex Hw)). }
  destruct Hstep as
    [s eventURL email rest Hph Hpend Hmw Hroom
    |s eventURL email rest Hph Hpend Hmw
    |s Hph Hpend
    |s w j rest Hw Hjobs
    |s w j world Hw
    |s w j result Hw Hroom
    |s w Hw Hph Hjobs
    |s Hph Hex Hrc
    |s result rest Hph Hres
    |s Hph Hres Hrc].
  - (* enqueue *)
    constructor; simpl; try assumption.
    + exists ps_buf, ps_all. repeat split; try assumption.
      rewrite <- Hperm, Hpend, List.map_app. simpl. solve_Permutation.
    + destruct He as [He|[_ He]]; [left; exact He | congruence].
    + intros Hrc. destruct (Hc Hrc) as [_ Hne]. congruence.
    + left. reflexivity.
    + discriminate.
    + discriminate.
  - (* panic *) lia.
  - (* close jobs *)
    constructor; simpl; try assumption.
    + exists ps_buf, ps_all. repeat split; assumption.
    + destruct He as [He|[He _]];
        [left; exact He | right; split; [exact He | discriminate]].
    + intros Hrc. destruct (Hc Hrc) as [_ Hne]. congruence.
    + right. exact Hpend.
    + discriminate.
    + discriminate.
  - (* receive *)
    pose proof (Hbusy w Waiting Hw ltac:(discriminate)) as Hopen.
    constructor; simpl; try assumption.
    + exists ps_buf, ps_all. repeat split; try assumption.
      rewrite <- Hperm, Hjobs. simpl.
      pose proof (held_insert (workers s) w Waiting (Running j) Hw) as Hh.
      simpl in Hh. rewrite app_nil_r in Hh. rewrite Hh. simpl.
      solve_Permutation.
    + apply Forall_insert; [assumption | exact I].
    + rewrite length_insert. assumption.
    + destruct He as [He|[He _]]; [|congruence].
      left. apply Forall_insert; [assumption | discriminate].
    + congruence.
  - (* execute *)
    pose proof (Hbusy w (Running j) Hw ltac:(discriminate)) as Hopen.
    constructor; simpl; try assumption.
    + exists ps_buf, ps_all. repeat split; try assumption.
      rewrite <- Hperm.
      pose proof (held_insert (workers s) w (Running j)
                    (Sending j (fst (execute o proxies w world j))) Hw) as Hh.
      simpl in Hh. rewrite Permutation_app_comm in Hh. simpl in Hh.
      apply Permutation_cons_inv in Hh. rewrite Hh. reflexivity.
    + apply Forall_insert; [assumption|].
      simpl. eapply pair_result_execute; eassumption.
    + rewrite length_insert. assumption.
    + destruct He as [He|He]; [|right; exact He].
      left. apply Forall_insert; [assumption | discriminate].
    + congruence.
  - (* send *)
    pose proof (Hbusy w (Sending j result) Hw ltac:(discriminate)) as Hopen.
    constructor; simpl; try assumption.
    + exists (ps_buf ++ [pair_of j]), ps_all. repeat split; try assumption.
      * apply Forall2_app; [assumption|].
        constructor; [|constructor].
        exact (proj1 (Forall_lookup _ _) Hs w _ Hw).
      * rewrite <- Hperm.
        pose proof (held_insert (workers s) w (Sending j result) Waiting Hw)
          as Hh.
        simpl in Hh. rewrite <- Hh, List.map_app. simpl. solve_Permutation.
    + apply Forall_insert; [assumption | exact I].
    + rewrite length_insert. assumption.
    + destruct He as [He|He]; [|right; exact He].
      left. apply Forall_insert; [assumption | discriminate].
    + congruence.
    + intros Hret. destruct (Hr Hret). congruence.
  - (* exit *)
    pose proof (Hbusy w Waiting Hw ltac:(discriminate)) as Hopen.
    constructor; simpl; try assumption.
    + exists ps_buf, ps_all. repeat split; try assumption.
      rewrite <- Hperm.
      pose proof (held_insert (workers s) w Waiting Exited Hw) as Hh.
      simpl in Hh. rewrite app_nil_r in Hh. rewrite Hh. reflexivity.
    + apply Forall_insert; [assumption | exact I].
    + rewrite length_insert. assumption.
    + right. split; [assumption | congruence].
    + congruence.
  - (* close results *)
    constructor; simpl; try assumption.
    + exists ps_buf, ps_all. repeat split; assumption.
    + intros _. split; [assumption | congruence].
    + congruence.
  - (* collect *)
    rewrite Hres in Hbuf. apply Forall2_cons_inv_r in Hbuf.
    destruct Hbuf as (p & ps_buf' & Hp & Hbuf' & ->).
    constructor; simpl; try assumption.
    + exists ps_buf', (ps_all ++ [p]). repeat split; try assumption.
      * apply Forall2_app; [assumption|]. repeat constructor. exact Hp.
      * rewrite <- Hperm. solve_Permutation.
    + congruence.
  - (* return *)
    constructor; simpl; try assumption.
    + exists ps_buf, ps_all. repeat split; assumption.
    + destruct He as [He|[He _]];
        [left; exact He | right; split; [exact He | discriminate]].
    + intros Hrc'. destruct (Hc Hrc') as [Hex' _].
      split; [exact Hex' | discriminate].
    + right. destruct Hq as [Hq|Hq]; [congruence | exact Hq].
    + intros _. split; assumption.
    + discriminate.
Qed.

Lemma Inv_reachable s : reachable s -> Inv s.
Proof.
  intros [ls Hexec]. induction Hexec as [|ls s1 l s2 _ IH Hstep].
  - apply Inv_init.
  - exact (Inv_step _ _ _ IH Hstep).
Qed.

(** Every step lowers the measure: no execution runs forever. *)
Lemma step_measure s l s' : step s l s' -> (measure s' < measure s)%nat.
Proof.
  intros Hstep. unfold measure.
  destruct Hstep as
    [s eventURL email rest Hph Hpend Hmw Hroom
    |s eventURL email rest Hph Hpend Hmw
    |s Hph Hpend
    |s w j rest Hw Hjobs
    |s w j world Hw
    |s w j result Hw Hroom
    |s w Hw Hph Hjobs
    |s Hph Hex Hrc
    |s result rest Hph Hres
    |s Hph Hres Hrc]; simpl;
    try rewrite Hph; try rewrite Hpend; try rewrite Hjobs;
    try rewrite Hres; try rewrite Hrc; simpl;
    try rewrite !length_app; simpl; try lia.
  - pose proof (weight_insert (workers s) w Waiting (Running j) Hw).
    simpl in *. lia.
  - pose proof (weight_insert (workers s) w (Running j)
                  (Sending j (fst (execute o proxies w world j))) Hw).
    simpl in *. lia.
  - pose proof (weight_insert (workers s) w (Sending j result) Waiting Hw).
    simpl in *. lia.
  - pose proof (weight_insert (workers s) w Waiting Exited Hw).
    simpl in *. lia.
Qed.

Lemma held_Exited (ws : list WorkerState) :
  Forall (fun st => st = Exited) ws -> flat_map held ws = [].
Proof.
  induction ws as [|st ws IH]; intros H; [reflexivity|].
  inversion H as [|? ? -> Hws]; subst. simpl. exact (IH Hws).
Qed.

(** Every pair of the product is in exactly one place. *)
Lemma Inv_count s :
  Inv s ->
  (length (pending s) + length (jobs s) + length (flat_map held (workers s))
   + length (results s) + length (allResults s)
   = length eventURLs * length emails)%nat.
Proof.
  intros [(ps_buf & ps_all & Hbuf & Hall & Hperm) _ _ _ _ _ _ _].
  apply Permutation_length in Hperm.
  rewrite !length_app, !length_map, length_prod in Hperm.
  apply Forall2_length in Hbuf, Hall. lia.
Qed.

Lemma held_lookup (ws : list WorkerState) w st :
  ws !! w = Some st -> (length (held st) <= length (flat_map held ws))%nat.
Proof.
  revert w. induction ws as [|x ws IH]; intros [|w] H; simpl in *;
    try discriminate; rewrite length_app.
  - injection H as ->. lia.
  - specialize (IH w H). lia.
Qed.

Lemma pool_Exited (ws : list WorkerState) :
  Forall (fun st => st = Exited) ws
  \/ exists w st, ws !! w = Some st /\ st <> Exited.
Proof.
  induction ws as [|x ws [IH|(w & st & Hw & Hst)]].
  - left. constructor.
  - destruct x; try (right; exists 0%nat; eexists; split;
                       [reflexivity | discriminate]).
    left. constructor; [reflexivity | exact IH].
  - right. exists (S w), st. split; assumption.
Qed.

(** Until [Run] has returned some goroutine can move: no deadlock. *)
Lemma Inv_progress s :
  Inv s -> phase s <> Returned -> exists l s', step s l s'.
Proof.
  intros HI Hnr. pose proof (Inv_count s HI) as Hcount.
  pose proof totalTasks_product as Htt.
  destruct HI as [_ _ Hl He Hc Hq _ Hn].
  destruct (phase s) eqn:Hph; try congruence.
  - (* queueing *)
    destruct (pending s) as [|[eventURL email] rest] eqn:Hpend.
    + eexists _, _. apply step_close_jobs; assumption.
    + eexists _, _. eapply step_enqueue; try eassumption; [lia|].
      rewrite Htt. simpl in Hcount. nia.
  - (* collecting *)
    destruct (results s) as [|result rest] eqn:Hres.
    2: { eexists _, _. eapply step_collect; eassumption. }
    destruct (pool_Exited (workers s)) as [Hall|(w & st & Hw & Hst)].
    + destruct (results_closed s) eqn:Hrc.
      * eexists _, _. apply step_return; assumption.
      * eexists _, _. apply step_close_results; assumption.
    + destruct st as [|j|j result|]; [| | |congruence].
      * destruct (jobs s) as [|j rest] eqn:Hjobs.
        -- eexists _, _. apply step_exit; eassumption.
        -- eexists _, _. eapply step_receive; eassumption.
      * eexists (Execute w j Worker.always_fails), _.
        apply step_execute. exact Hw.
      * eexists _, _. eapply step_send; [exact Hw|].
        rewrite Htt, Hres. pose proof (held_lookup _ _ _ Hw).
        simpl in *. nia.
Qed.

Lemma Run_reached (n : nat) s :
  (measure s <= n)%nat -> reachable s ->
  exists s', reachable s' /\ phase s' = Returned.
Proof.
  revert s. induction n as [|n IH]; intros s Hm Hreach;
    destruct (decide (phase s = Returned)) as [Hret|Hnr];
    try (exists s; split; assumption);
    destruct (Inv_progress s (Inv_reachable s Hreach) Hnr) as (l & s1 & Hstep);
    pose proof (step_measure _ _ _ Hstep) as Hlt; [lia|].
  apply (IH s1); [lia|].
  destruct Hreach as [ls Hexec]. exists (ls ++ [l]).
  exact (exec_snoc _ _ _ _ _ _ _ _ _ Hexec Hstep).
Qed.

Lemma Run_sound rs :
  Run o eventURLs emails proxies rs ->
  length rs = (length eventURLs * length emails)%nat /\
  exists ps, ps ≡ₚ list_prod eventURLs emails /\ Forall2 pair_result ps rs.
Proof.
  intros (s & Hreach & Hret & <-).
  pose proof (Inv_reachable s Hreach) as HI.
  pose proof (Inv_count s HI) as Hcount.
  destruct HI as [(ps_buf & ps_all & Hbuf & Hall & Hperm) _ Hl He Hc Hq Hr _].
  destruct (Hr Hret) as [Hres Hrc]. destruct (Hc Hrc) as [Hex _].
  assert (Hjobs : jobs s = []).
  { destruct He as [He|[He _]]; [|exact He].
    destruct (workers s) as [|st ws]; [simpl in Hl; lia|].
    inversion He as [|? ? Hne _]; inversion Hex as [|? ? Heq _]; subst.
    contradiction. }
  assert (Hpend : pending s = []) by (destruct Hq; congruence).
  rewrite Hres in Hbuf. apply Forall2_nil_inv_r in Hbuf. subst ps_buf.
  rewrite Hpend, Hjobs, (held_Exited _ Hex) in Hperm.
  rewrite Hpend, Hjobs, Hres, (held_Exited _ Hex) in Hcount.
  simpl in Hperm, Hcount.
  split; [lia|]. exists ps_all. split; assumption.
Qed.

End RunFacts.

(** C1: with a pool of at least one goroutine (and a product that fits
    in an int) [Run] does return: some execution returns, no state short
    of the return is stuck, and every step lowers a bound, so no execution
    runs forever.  Whatever it returns has one result per (event, email)
    pair of the product and nothing else: |events| * |emails| results that
    match, one for one, an arrangement of the pairs. *)
Theorem Run_one_result_per_pair
    (o : RegistrationOrchestrator) (eventURLs emails : list string)
    (proxies : list ProxyConfig) :
  1 <= maxWorkers o ->
  Z.of_nat (length eventURLs) * Z.of_nat (length emails) < 2 ^ 63 ->
  (exists rs, Run o eventURLs emails proxies rs) /\
  (forall s, reachable o eventURLs emails proxies s ->
             phase s <> Returned ->
             exists l s', step o eventURLs emails proxies s l s') /\
  (forall s l s', step o eventURLs emails proxies s l s' ->
                  (measure s' < measure s)%nat) /\
  (forall rs,
     Run o eventURLs emails proxies rs ->
     length rs = (length eventURLs * length emails)%nat /\
     exists ps,
       ps ≡ₚ list_prod eventURLs emails /\
       Forall2 (pair_result o proxies) ps rs).
Proof.
  intros Hpool Hfits. repeat split.
  - destruct (Run_reached o eventURLs emails proxies Hpool Hfits
                (measure (init o eventURLs emails)) (init o eventURLs emails)
                (le_n _)) as (s & Hreach & Hret).
    + exists []. constructor.
    + exists (allResults s), s. repeat split; assumption.
  - intros s Hreach Hnr.
    apply (Inv_progress o eventURLs emails proxies Hpool Hfits s);
      [apply Inv_reachable|]; assumption.
  - intros s l s'. apply step_measure.
  - apply (Run_sound o eventURLs emails proxies Hpool Hfits rs). assumption.
  - apply (Run_sound o eventURLs emails proxies Hpool Hfits rs). assumption.
Qed.

Lemma Run_one_result_per_pair_witness :
  1 <= maxWorkers sample_orchestrator /\
  Z.of_nat (length sample_events) * Z.of_nat (length sample_emails) < 2 ^ 63 /\
  (exists rs, Run sample_orchestrator sample_events sample_emails
                sample_proxies rs) /\
  (forall rs,
     Run sample_orchestrator sample_events sample_emails sample_proxies rs ->
     length rs = 2%nat).
Proof.
  split; [cbv; discriminate|]. split; [reflexivity|].
  destruct (Run_one_result_per_pair sample_orchestrator sample_events
              sample_emails sample_proxies) as (Hex & _ & _ & Hall);
    [cbv; discriminate | reflexivity |].
  split; [exact Hex|]. intros rs Hrs. exact (proj1 (Hall rs Hrs)).
Defined.

(** C3, amended: the proxy passed to the attempts of a job is that of the
    goroutine [w] of the pool that received the job, [0 <= w < maxWorkers]:
    it is [proxies[w mod len(proxies)]], and no proxy when the list is
    empty.  The index stored in the job at enqueue time is not read. *)
Theorem proxy_follows_goroutine
    (o : RegistrationOrchestrator) (eventURLs emails : list string)
    (proxies : list ProxyConfig) (s s' : State) (w : nat) (j : job)
    (world : Worker.World) :
  reachable o eventURLs emails proxies s ->
  step o eventURLs emails proxies s (Execute w j world) s' ->
  (w < Z.to_nat (maxWorkers o))%nat /\
  Worker.used_proxies (snd (execute o proxies w world j)) <> [] /\
  Forall (fun p => p = match proxies with
                       | [] => None
                       | _ :: _ => proxies !! (w mod length proxies)%nat
                       end)
    (Worker.used_proxies (snd (execute o proxies w world j))).
Proof.
  intros Hreach Hstep. inversion Hstep as [| | | |? ? ? ? Hw| | | | |]; subst.
  split; [|split].
  - rewrite <- (reachable_pool o eventURLs emails proxies s Hreach).
    exact (lookup_lt_Some _ _ _ Hw).
  - unfold execute. rewrite ExecuteRegistration_unfold. cbn [snd].
    change (Z.to_nat (RegistrationRetry config)) with 3%nat.
    apply (retry_loop_calls config). cbv; discriminate.
  - unfold execute. rewrite ExecuteRegistration_unfold. cbn [snd].
    rewrite <- (selectProxy_worker o proxies w). apply retry_loop_proxies.
Qed.

Lemma sample_received_reachable :
  reachable sample_orchestrator sample_events sample_emails sample_proxies
    sample_received.
Proof.
  exists (([] ++ [Enqueue]) ++ [Receive 1]).
  apply exec_snoc with (s1 := sample_queued).
  - apply exec_snoc with (s1 := init sample_orchestrator sample_events
                                  sample_emails).
    + apply exec_nil.
    + exact (step_enqueue sample_orchestrator sample_events sample_emails
               sample_proxies (init sample_orchestrator sample_events
                                 sample_emails)
               "https://events.example.com/e/1" "a@x.com"
               [("https://events.example.com/e/1", "b@x.com")]
               eq_refl eq_refl ltac:(discriminate) eq_refl).
  - exact (step_receive sample_orchestrator sample_events sample_emails
             sample_proxies sample_queued 1 sample_job0 [] eq_refl eq_refl).
Qed.

(** C3, as stated, fails: in the sample run the job queued first carries
    index 0, which names the first proxy; goroutine 1 may receive it, and
    then its attempts go through the second proxy. *)
Lemma proxy_not_by_assigned_index :
  reachable sample_orchestrator sample_events sample_emails sample_proxies
    sample_received /\
  step sample_orchestrator sample_events sample_emails sample_proxies
    sample_received (Execute 1 sample_job0 Worker.always_fails)
    (with_workers
       (<[1%nat := Sending sample_job0
                     (fst (execute sample_orchestrator sample_proxies 1
                             Worker.always_fails sample_job0))]>
          (workers sample_received))
       sample_received) /\
  sample_proxies
    !! Z.to_nat (Z.rem (workerID sample_job0)
                   (Z.of_nat (length sample_proxies)))
  = Some proxy0 /\
  Worker.used_proxies
    (snd (execute sample_orchestrator sample_proxies 1 Worker.always_fails
            sample_job0))
  = [Some proxy1; Some proxy1; Some proxy1] /\
  proxy0 <> proxy1.
Proof.
  split; [exact sample_received_reachable|].
  split; [apply step_execute; reflexivity|].
  repeat split. discriminate.
Qed.

Lemma proxy_follows_goroutine_witness :
  (1 < Z.to_nat (maxWorkers sample_orchestrator))%nat /\
  Worker.used_proxies
    (snd (execute sample_orchestrator sample_proxies 1 Worker.always_fails
            sample_job0)) <> [] /\
  Forall (fun p => p = sample_proxies !! (1 mod length sample_proxies)%nat)
    (Worker.used_proxies
       (snd (execute sample_orchestrator sample_proxies 1
               Worker.always_fails sample_job0))).
Proof.
  apply (proxy_follows_goroutine sample_orchestrator sample_events
           sample_emails sample_proxies sample_received
           (with_workers
              (<[1%nat := Sending sample_job0
                            (fst (execute sample_orchestrator sample_proxies 1
                                    Worker.always_fails sample_job0))]>
                 (workers sample_received))
              sample_received)
           1 sample_job0 Worker.always_fails).
  - exists (([] ++ [Enqueue]) ++ [Receive 1]).
    apply exec_snoc with (s1 := sample_queued).
    + apply exec_snoc with (s1 := init sample_orchestrator sample_events
                                    sample_emails).
      * apply exec_nil.
      * exact (step_enqueue sample_orchestrator sample_events sample_emails
                 sample_proxies (init sample_orchestrator sample_events
                                   sample_emails)
                 "https://events.example.com/e/1" "a@x.com"
                 [("https://events.example.com/e/1", "b@x.com")]
                 eq_refl eq_refl ltac:(discriminate) eq_refl).
    + exact (step_receive sample_orchestrator sample_events sample_emails
               sample_proxies sample_queued 1 sample_job0 [] eq_refl eq_refl).
  - apply step_execute. reflexivity.
Defined.

End OrchestratorFacts.

(** ** More on the worker: what one job does to the outside world *)
Section WorkerTrace.

Import Worker.

Variable cfg : Config.
Variable w : RegistrationWorker.
Variable world : World.
Variables eventURL firstName lastName email organization : string.

Local Abbreviation R := (RegistrationRetry cfg).
Local Abbreviation loop :=
  (retry_loop cfg w world eventURL firstName lastName email organization).
Local Abbreviation run :=
  (ExecuteRegistration cfg w world eventURL firstName lastName email
     organization).
Local Abbreviation call :=
  (TryRegistration eventURL firstName lastName email organization).

(** The attempt at which the loop stops: that of its result, or the last
    one. *)
Local Abbreviation stop res :=
  (match res with Some r => Attempt r | None => R end).

Lemma retry_loop_trace proxy n a :
  a + Z.of_nat n = R + 1 ->
  Z.of_nat (length (tries (snd (loop proxy n a))))
    = stop (fst (loop proxy n a)) - a + 1 /\
  sleeps (snd (loop proxy n a))
    = map (pow 3) (seqZ a (stop (fst (loop proxy n a)) - a)) /\
  alerts (snd (loop proxy n a))
    = match fst (loop proxy n a), n with
      | None, S _ =>
          if String.eqb (telegramChatID w) "" then []
          else [TelegramAlert (telegramChatID w) email eventURL R
                  (snd (try_outcome world R))]
      | _, _ => []
      end.
Proof.
  revert a. induction n as [|n IH]; intros a Ha.
  - simpl. rewrite seqZ_nil by lia. repeat split. lia.
  - rewrite retry_loop_step.
    destruct (Z.leb_spec a R) as [Hle|Hgt]; [|lia].
    destruct (fst (try_outcome world a)) eqn:Hs.
    + cbn [fst snd Attempt]. rewrite Z.sub_diag. repeat split.
    + cbn [fst snd]. unfold after_failure.
      destruct (Z.ltb_spec a R) as [Hlt|Hge].
      * destruct (IH (a + 1) ltac:(lia)) as (H1 & H2 & H3).
        pose proof (retry_loop_result cfg w world eventURL firstName lastName
                      email organization proxy n (a + 1) ltac:(lia)) as Hres.
        unfold tries, sleeps, alerts in *.
        cbn [List.filter flat_map is_try is_alert app length].
        rewrite Nat2Z.inj_succ, H1, H2, H3.
        assert (Hstop : a + 1 <= stop (fst (loop proxy n (a + 1)))).
        { destruct (fst (loop proxy n (a + 1))) as [r|]; [|lia].
          destruct Hres as (_ & _ & _ & Hr & _). lia. }
        split; [lia|]. split.
        -- rewrite (seqZ_cons a) by lia.
           replace (Z.succ a) with (a + 1) by lia.
           replace (Z.pred (stop (fst (loop proxy n (a + 1))) - a))
             with (stop (fst (loop proxy n (a + 1))) - (a + 1)) by lia.
           reflexivity.
        -- destruct (fst (loop proxy n (a + 1))); [reflexivity|].
           destruct n; [lia | reflexivity].
      * assert (a = R) by lia. subst a. destruct n; [|lia].
        cbn. rewrite Z.sub_diag.
        destruct (String.eqb (telegramChatID w) ""); repeat split.
Qed.

Lemma retry_loop_order proxy n a :
  a <= R -> a + Z.of_nat n = R + 1 ->
  snd (loop proxy n a)
  = (flat_map (fun k => [call proxy k; Sleep (pow 3 k)])
       (seqZ a (stop (fst (loop proxy n a)) - a))
     ++ call proxy (stop (fst (loop proxy n a)))
        :: alerts (snd (loop proxy n a)))%list.
Proof.
  revert a. induction n as [|n IH]; intros a Hle Ha; [lia|].
  rewrite retry_loop_step.
  destruct (Z.leb_spec a R) as [_|Hgt]; [|lia].
  destruct (fst (try_outcome world a)) eqn:Hs.
  - cbn [fst snd Attempt]. rewrite Z.sub_diag. reflexivity.
  - cbn [fst snd]. unfold after_failure.
    destruct (Z.ltb_spec a R) as [Hlt|Hge].
    + pose proof (retry_loop_result cfg w world eventURL firstName lastName
                    email organization proxy n (a + 1) ltac:(lia)) as Hres.
      assert (Hstop : a + 1 <= stop (fst (loop proxy n (a + 1)))).
      { destruct (fst (loop proxy n (a + 1))) as [r|]; [|lia].
        destruct Hres as (_ & _ & _ & Hr & _). lia. }
      rewrite (seqZ_cons a) by lia.
      replace (Z.succ a) with (a + 1) by lia.
      replace (Z.pred (stop (fst (loop proxy n (a + 1))) - a))
        with (stop (fst (loop proxy n (a + 1))) - (a + 1)) by lia.
      cbn [flat_map app]. unfold alerts. cbn [List.filter is_alert].
      f_equal. f_equal. apply (IH (a + 1)); lia.
    + assert (a = R) by lia. subst a. destruct n; [|lia].
      cbn [retry_loop ret fst snd]. rewrite Z.sub_diag, app_nil_r.
      destruct (String.eqb (telegramChatID w) ""); reflexivity.
Qed.

(** X1: with a ceiling between 1 and 21 (up to which the back-off of 3^k
    seconds fits the 64-bit duration), the trace of a job is, in this
    order: for each attempt k below the attempt number of its result, the
    call of attempt k followed by a sleep of 3^k seconds; then the call of
    the last attempt, with no sleep after it; then the alert, if there is
    one.  So the job makes exactly as many calls as the attempt number of
    its result, every call with the worker's own proxy, and its sleeps are
    3, 9, ..., one after each attempt but the last. *)
Theorem ExecuteRegistration_calls_and_sleeps :
  1 <= R <= 21 ->
  snd run
  = (flat_map (fun k => [call (selectProxy w) k; Sleep (pow 3 k)])
       (seqZ 1 (Attempt (fst run) - 1))
     ++ call (selectProxy w) (Attempt (fst run)) :: alerts (snd run))%list /\
  Z.of_nat (length (tries (snd run))) = Attempt (fst run) /\
  sleeps (snd run) = map (pow 3) (seqZ 1 (Attempt (fst run) - 1)).
Proof.
  intros HR. rewrite ExecuteRegistration_unfold. cbn [fst snd].
  destruct (retry_loop_trace (selectProxy w) (Z.to_nat R) 1 ltac:(lia))
    as (H1 & H2 & _).
  pose proof (retry_loop_order (selectProxy w) (Z.to_nat R) 1
                ltac:(lia) ltac:(lia)) as H0.
  rewrite H1, H2.
  destruct (fst (loop (selectProxy w) (Z.to_nat R) 1));
    cbn [Attempt] in *; (split; [exact H0|]); split; (lia || reflexivity).
Qed.

(** X2: with a ceiling of at least one, a job alerts exactly when its
    result is FAILED and the worker has an alert chat id, and then once,
    with the last attempt's number and reason; a job that succeeds never
    alerts. *)
Theorem ExecuteRegistration_alerts :
  1 <= R ->
  alerts (snd run) =
  if String.eqb (Status (fst run)) "FAILED"
     && negb (String.eqb (telegramChatID w) "")
  then [TelegramAlert (telegramChatID w) email eventURL R
          (snd (try_outcome world R))]
  else [].
Proof.
  intros HR. rewrite ExecuteRegistration_unfold. cbn [fst snd].
  destruct (retry_loop_trace (selectProxy w) (Z.to_nat R) 1 ltac:(lia))
    as (_ & _ & H3).
  pose proof (retry_loop_result cfg w world eventURL firstName lastName email
                organization (selectProxy w) (Z.to_nat R) 1 ltac:(lia))
    as Hres.
  rewrite H3.
  destruct (fst (loop (selectProxy w) (Z.to_nat R) 1)) as [r|].
  - destruct Hres as (-> & _). reflexivity.
  - cbn [Status]. destruct (Z.to_nat R) eqn:E; [lia|].
    destruct (String.eqb (telegramChatID w) ""); reflexivity.
Qed.

(** X3: with a ceiling of zero or less the loop body never runs: the job
    makes no call, does not sleep and does not alert, and still reports
    FAILED, with the ceiling as its attempt number. *)
Theorem ExecuteRegistration_no_attempt :
  R <= 0 ->
  run = ({| Email := email;
            Event := truncateString (lastPathSegment eventURL) 20;
            Status := "FAILED"; Attempt := R;
            Message := "Max retries exceeded";
            Timestamp := time_now world |}, []).
Proof.
  intros HR. rewrite ExecuteRegistration_unfold.
  replace (Z.to_nat R) with 0%nat by lia. reflexivity.
Qed.

End WorkerTrace.

Lemma ExecuteRegistration_calls_and_sleeps_witness :
  snd (Worker.ExecuteRegistration config Worker.sample_worker
         Worker.always_fails "https://events.example.com/e/launch"
         "Ada" "Lovelace" "ada@example.com" "Analytical")
  = [ Worker.TryRegistration "https://events.example.com/e/launch" "Ada"
        "Lovelace" "ada@example.com" "Analytical" None 1;
      Worker.Sleep 3;
      Worker.TryRegistration "https://events.example.com/e/launch" "Ada"
        "Lovelace" "ada@example.com" "Analytical" None 2;
      Worker.Sleep 9;
      Worker.TryRegistration "https://events.example.com/e/launch" "Ada"
        "Lovelace" "ada@example.com" "Analytical" None 3;
      Worker.TelegramAlert "42" "ada@example.com"
        "https://events.example.com/e/launch" 3 "timeout" ].
Proof.
  apply (ExecuteRegistration_calls_and_sleeps config Worker.sample_worker
           Worker.always_fails "https://events.example.com/e/launch"
           "Ada" "Lovelace" "ada@example.com" "Analytical").
  split; cbv; discriminate.
Defined.

Lemma ExecuteRegistration_alerts_witness :
  Worker.alerts
    (snd (Worker.ExecuteRegistration config Worker.sample_worker
            Worker.succeeds_at_2 "https://events.example.com/e/launch"
            "Ada" "Lovelace" "ada@example.com" "Analytical")) = [].
Proof.
  apply (ExecuteRegistration_alerts config Worker.sample_worker
           Worker.succeeds_at_2 "https://events.example.com/e/launch"
           "Ada" "Lovelace" "ada@example.com" "Analytical").
  cbv; discriminate.
Defined.

Lemma ExecuteRegistration_no_attempt_witness :
  Worker.ExecuteRegistration {| RegistrationRetry := 0; MaxWorkers := 20 |}
    Worker.sample_worker Worker.succeeds_at_2
    "https://events.example.com/e/launch" "Ada" "Lovelace"
    "ada@example.com" "Analytical"
  = ({| Email := "ada@example.com"; Event := "launch"; Status := "FAILED";
        Attempt := 0; Message := "Max retries exceeded"; Timestamp := 0 |},
     []).
Proof.
  apply (ExecuteRegistration_no_attempt
           {| RegistrationRetry := 0; MaxWorkers := 20 |}
           Worker.sample_worker Worker.succeeds_at_2
           "https://events.example.com/e/launch" "Ada" "Lovelace"
           "ada@example.com" "Analytical").
  cbv; discriminate.
Defined.

(** ** More on the utilities: truncation and path segments *)
Section UtilsFacts.

Local Open Scope string_scope.

Lemma length_append (a b : string) :
  String.length (a ++ b) = (String.length a + String.length b)%nat.
Proof. induction a as [|c a IH]; simpl; [reflexivity | rewrite IH; reflexivity]. Qed.

Lemma append_empty_r (a : string) : a ++ "" = a.
Proof. induction a as [|c a IH]; simpl; [reflexivity | rewrite IH; reflexivity]. Qed.

Lemma append_assoc (a b c : string) : (a ++ b) ++ c = a ++ (b ++ c).
Proof. induction a as [|x a IH]; simpl; [reflexivity | rewrite IH; reflexivity]. Qed.

Lemma substring_all (s : string) : substring 0 (String.length s) s = s.
Proof. induction s as [|c s IH]; simpl; [reflexivity | rewrite IH; reflexivity]. Qed.

Lemma substring_head (a b : string) :
  substring 0 (String.length a) (a ++ b) = a.
Proof.
  induction a as [|c a IH]; simpl.
  - destruct b; reflexivity.
  - rewrite IH. reflexivity.
Qed.

Lemma substring_tail (a b : string) :
  substring (String.length a) (String.length b) (a ++ b) = b.
Proof.
  induction a as [|c a IH]; simpl; [apply substring_all | exact IH].
Qed.

(** A string is its first [n] bytes followed by the rest. *)
Lemma substring_split (n : nat) (s : string) :
  (n <= String.length s)%nat ->
  s = substring 0 n s ++ substring n (String.length s - n) s.
Proof.
  revert s. induction n as [|n IH]; intros s Hn.
  - simpl. rewrite Nat.sub_0_r, substring_all.
    destruct s; reflexivity.
  - destruct s as [|c s]; simpl in *; [lia|].
    rewrite <- (IH s) by lia. reflexivity.
Qed.

Lemma substring_prefix_length_exact (n : nat) (s : string) :
  (n <= String.length s)%nat -> String.length (substring 0 n s) = n.
Proof.
  revert s. induction n as [|n IH]; intros [|c s] Hn; simpl in *;
    try reflexivity; try lia.
  rewrite IH by lia. reflexivity.
Qed.

(** X4: for a non-negative bound, a truncated string is the first
    min(len s, maxLen) bytes of the string. *)
Theorem truncateString_prefix (s : string) (maxLen : Z) :
  0 <= maxLen ->
  len (truncateString s maxLen) = Z.min (len s) maxLen /\
  exists rest, s = truncateString s maxLen ++ rest.
Proof.
  intros Hm. unfold truncateString, slice, len.
  destruct (Z.leb_spec (Z.of_nat (String.length s)) maxLen) as [H|H].
  - split; [lia|]. exists "". symmetry. apply append_empty_r.
  - change (Z.to_nat 0) with 0%nat. rewrite Z.sub_0_r. split.
    + rewrite substring_prefix_length_exact by lia. lia.
    + eexists. apply substring_split. lia.
Qed.

Lemma substring_beyond (n : nat) (s : string) :
  (String.length s <= n)%nat -> substring 0 n s = s.
Proof.
  revert s. induction n as [|n IH]; intros [|c s] Hn; simpl in *;
    try reflexivity; try lia.
  rewrite IH by lia. reflexivity.
Qed.

Lemma truncateString_substring (s : string) (maxLen : Z) :
  0 <= maxLen -> truncateString s maxLen = substring 0 (Z.to_nat maxLen) s.
Proof.
  intros Hm. unfold truncateString, slice, len.
  destruct (Z.leb_spec (Z.of_nat (String.length s)) maxLen) as [H|H].
  - symmetry. apply substring_beyond. lia.
  - rewrite Z.sub_0_r. reflexivity.
Qed.

Lemma substring_prefix_twice (a b : nat) (s : string) :
  substring 0 b (substring 0 a s) = substring 0 (Nat.min a b) s.
Proof.
  revert b s. induction a as [|a IH]; intros [|b] [|c s]; simpl;
    try reflexivity.
  rewrite IH. reflexivity.
Qed.

(** X5: truncations compose to the shorter one; once a string is cut to
    [n] bytes, cutting it to [m >= n] bytes changes nothing. *)
Theorem truncateString_twice (s : string) (n m : Z) :
  0 <= n -> 0 <= m ->
  truncateString (truncateString s n) m = truncateString s (Z.min n m).
Proof.
  intros Hn Hm.
  rewrite !truncateString_substring by lia.
  rewrite substring_prefix_twice, Z2Nat.inj_min. reflexivity.
Qed.

Lemma bytes_append (a b : string) :
  list_ascii_of_string (a ++ b)
  = (list_ascii_of_string a ++ list_ascii_of_string b)%list.
Proof. induction a as [|c a IH]; simpl; [reflexivity | rewrite IH; reflexivity]. Qed.

Lemma HasPrefix_empty (s : string) : HasPrefix s "" = true.
Proof. destruct s; reflexivity. Qed.

Lemma Index_from_present (i : Z) (s : string) (c : ascii) :
  In c (list_ascii_of_string s) -> i <= Index_from i s (String c "").
Proof.
  revert i. induction s as [|d s IH]; intros i; simpl; [tauto|].
  destruct (Ascii.eqb_spec d c) as [->|Hne]; simpl;
    [rewrite HasPrefix_empty; intros _; lia|].
  intros [H|H]; [contradiction|]. specialize (IH (i + 1) H). lia.
Qed.

Lemma Contains_byte_false (s : string) (c : ascii) :
  Contains s (String c "") = false -> ~ In c (list_ascii_of_string s).
Proof.
  unfold Contains, Index. intros H Hin.
  pose proof (Index_from_present 0 s c Hin). lia.
Qed.

Lemma Split_free (s : string) (sep : ascii) :
  ~ In sep (list_ascii_of_string s) -> Split s sep = [s].
Proof.
  induction s as [|c s IH]; simpl; [reflexivity|]. intros H.
  destruct (Ascii.eqb_spec c sep) as [->|Hne]; [tauto|].
  rewrite IH by tauto. reflexivity.
Qed.

Lemma Split_two (x y : string) (sep : ascii) :
  exists f g fs, Split (x ++ String sep y) sep = f :: g :: fs.
Proof.
  induction x as [|c x (f & g & fs & IH)]; simpl.
  - rewrite Ascii.eqb_refl.
    pose proof (Split_nonempty y sep).
    destruct (Split y sep) as [|g fs]; [congruence|]. eauto.
  - destruct (Ascii.eqb c sep); rewrite IH; eauto.
Qed.

(** The last field of a split is that of what follows a separator. *)
Lemma Split_last_after (x y : string) (sep : ascii) :
  last (Split (x ++ String sep y) sep) = last (Split y sep).
Proof.
  induction x as [|c x IH]; simpl.
  - rewrite Ascii.eqb_refl.
    pose proof (Split_nonempty y sep).
    destruct (Split y sep); [congruence | reflexivity].
  - destruct (Split_two x y sep) as (f & g & fs & E).
    rewrite E in *. destruct (Ascii.eqb c sep); exact IH.
Qed.

Lemma HasSuffix_append (a b : string) : HasSuffix (a ++ b) b = true.
Proof.
  unfold HasSuffix, slice, len. rewrite length_append.
  apply andb_true_intro. split; [apply Z.leb_le; lia|].
  apply String.eqb_eq.
  replace (Z.to_nat (Z.of_nat (String.length a + String.length b)
                     - Z.of_nat (String.length b)))
    with (String.length a) by lia.
  replace (Z.to_nat (Z.of_nat (String.length a + String.length b)
                     - (Z.of_nat (String.length a + String.length b)
                        - Z.of_nat (String.length b))))
    with (String.length b) by lia.
  apply substring_tail.
Qed.

Lemma HasSuffix_inv (s suffix : string) :
  HasSuffix s suffix = true -> exists a, s = a ++ suffix.
Proof.
  unfold HasSuffix, slice, len. intros H.
  apply andb_prop in H. destruct H as [Hle Heq].
  apply Z.leb_le in Hle. apply String.eqb_eq in Heq.
  set (k := (String.length s - String.length suffix)%nat).
  assert (Hsub : substring k (String.length s - k) s = suffix).
  { rewrite <- Heq at 1. unfold k. f_equal; lia. }
  exists (substring 0 k s). rewrite <- Hsub at 1.
  apply substring_split. unfold k. lia.
Qed.

Lemma TrimSuffix_append (a b : string) : TrimSuffix (a ++ b) b = a.
Proof.
  unfold TrimSuffix. rewrite HasSuffix_append.
  unfold slice, len. rewrite length_append.
  change (Z.to_nat 0) with 0%nat.
  replace (Z.to_nat (Z.of_nat (String.length a + String.length b)
                     - Z.of_nat (String.length b) - 0))
    with (String.length a) by lia.
  apply substring_head.
Qed.

(** A text that ends with a byte other than [c] is left alone. *)
Lemma TrimSuffix_other (s seg : string) (c : ascii) :
  seg <> "" -> ~ In c (list_ascii_of_string seg) ->
  TrimSuffix (s ++ seg) (String c "") = s ++ seg.
Proof.
  intros Hne Hfree. unfold TrimSuffix.
  destruct (HasSuffix (s ++ seg) (String c "")) eqn:E; [|reflexivity].
  exfalso. apply HasSuffix_inv in E. destruct E as [a Ea].
  apply (f_equal list_ascii_of_string) in Ea.
  rewrite !bytes_append in Ea. simpl in Ea.
  apply (f_equal last) in Ea. rewrite !last_app in Ea. simpl in Ea.
  destruct (last (list_ascii_of_string seg)) as [d|] eqn:El.
  - injection Ea as ->. apply Hfree.
    apply last_Some in El. destruct El as [l' ->].
    apply in_or_app. right. left. reflexivity.
  - apply last_None in El. destruct seg; [congruence | discriminate].
Qed.

(** X6: the last segment of [prefix/segment] and of [prefix/segment/] is
    [segment], whatever the prefix, when the segment is not empty and has
    no slash. *)
Theorem lastPathSegment_of_path (prefix segment : string) :
  segment <> "" ->
  Contains segment "/" = false ->
  lastPathSegment (prefix ++ "/" ++ segment) = segment /\
  lastPathSegment (prefix ++ "/" ++ segment ++ "/") = segment.
Proof.
  intros Hne Hfree. apply Contains_byte_false in Hfree.
  assert (Hlast : forall x, last (Split (x ++ "/" ++ segment) "/"%char)
                            = Some segment).
  { intros x. change ("/" ++ segment) with (String "/" segment).
    rewrite Split_last_after, Split_free by assumption. reflexivity. }
  split; apply (inj Some); rewrite <- lastPathSegment_last.
  - rewrite <- append_assoc, TrimSuffix_other, append_assoc by assumption.
    apply Hlast.
  - replace (prefix ++ "/" ++ segment ++ "/")
      with ((prefix ++ "/" ++ segment) ++ "/")
      by (rewrite !append_assoc; reflexivity).
    rewrite TrimSuffix_append. apply Hlast.
Qed.

(** X7: a target without any slash is its own last segment. *)
Theorem lastPathSegment_no_slash (url : string) :
  Contains url "/" = false -> lastPathSegment url = url.
Proof.
  intros Hfree. apply Contains_byte_false in Hfree.
  apply (inj Some). rewrite <- lastPathSegment_last.
  assert (TrimSuffix url "/" = url) as ->.
  { destruct url as [|c url]; [reflexivity|].
    apply (TrimSuffix_other "" (String c url) "/"%char);
      [discriminate | assumption]. }
  rewrite Split_free by assumption. reflexivity.
Qed.

End UtilsFacts.

Lemma truncateString_prefix_witness :
  len (truncateString "registration" 5) = Z.min (len "registration") 5 /\
  exists rest, "registration" = (truncateString "registration" 5 ++ rest)%string.
Proof. apply (truncateString_prefix "registration" 5). lia. Defined.

Lemma truncateString_twice_witness :
  truncateString (truncateString "registration" 5) 8
  = truncateString "registration" (Z.min 5 8).
Proof. apply (truncateString_twice "registration" 5 8); lia. Defined.

Lemma lastPathSegment_of_path_witness :
  lastPathSegment ("https://example.com/event" ++ "/" ++ "12345") = "12345" /\
  lastPathSegment ("https://example.com/event" ++ "/" ++ "12345" ++ "/")
  = "12345".
Proof.
  apply (lastPathSegment_of_path "https://example.com/event" "12345");
    [discriminate | reflexivity].
Defined.

Lemma lastPathSegment_no_slash_witness :
  lastPathSegment "event123" = "event123".
Proof. apply (lastPathSegment_no_slash "event123"). reflexivity. Defined.

(** ** More on the proxy-line parser *)
Section ParserShape.

Local Open Scope string_scope.

Variable url_Parse : string -> option url.URL.

Local Abbreviation text line := (unwrapMarkdown (TrimSpace line)).

Lemma HasPrefix_inv (s prefix : string) :
  HasPrefix s prefix = true -> exists rest, s = prefix ++ rest.
Proof.
  revert s. induction prefix as [|p prefix IH]; intros s H.
  - exists s. reflexivity.
  - destruct s as [|c s]; simpl in H; [discriminate|].
    apply andb_prop in H. destruct H as [Hc Hs].
    apply Ascii.eqb_eq in Hc. subst c.
    destruct (IH s Hs) as [rest ->]. exists rest. reflexivity.
Qed.

(** A text that contains [substr] holds each of its bytes. *)
Lemma Index_from_bytes (i : Z) (s substr : string) (c : ascii) :
  Index_from i s substr <> -1 -> 0 <= i ->
  In c (list_ascii_of_string substr) -> In c (list_ascii_of_string s).
Proof.
  revert i. induction s as [|d s IH]; intros i Hi Hpos Hc.
  - cbn [Index_from] in Hi.
    destruct (HasPrefix "" substr) eqn:E; [|contradiction].
    apply HasPrefix_inv in E. destruct E as [rest E].
    destruct substr; [destruct Hc | discriminate].
  - cbn [Index_from] in Hi.
    destruct (HasPrefix (String d s) substr) eqn:E.
    + apply HasPrefix_inv in E. destruct E as [rest ->].
      rewrite bytes_append. apply in_or_app. left. exact Hc.
    + right. apply (IH (i + 1)); [exact Hi | lia | exact Hc].
Qed.

Lemma Contains_bytes (s substr : string) (c : ascii) :
  In c (list_ascii_of_string substr) ->
  ~ In c (list_ascii_of_string s) ->
  Contains s substr = false.
Proof.
  intros Hc Hs. unfold Contains, Index.
  destruct (Z.leb_spec 0 (Index_from 0 s substr)) as [H|H]; [|reflexivity].
  exfalso. apply Hs.
  apply (Index_from_bytes 0 s substr c); [lia | lia | exact Hc].
Qed.

(** The bytes of a field are bytes of the text that was split. *)
Lemma Split_fields_bytes (s : string) (sep c : ascii) (field : string) :
  In field (Split s sep) -> In c (list_ascii_of_string field) ->
  In c (list_ascii_of_string s).
Proof.
  revert field. induction s as [|d s IH]; intros field; simpl.
  - intros [<-|[]] H. exact H.
  - destruct (Ascii.eqb d sep).
    + intros [<-|H] Hc; [destruct Hc | right; exact (IH _ H Hc)].
    + destruct (Split s sep) as [|f fs] eqn:E.
      * intros [<-|[]] [Hc|[]]. left. exact Hc.
      * intros [<-|H] Hc.
        -- destruct Hc as [Hc|Hc]; [left; exact Hc|].
           right. apply (IH f); [left; reflexivity | exact Hc].
        -- right. apply (IH field); [right; exact H | exact Hc].
Qed.

(** X8: a line whose text has no colon is rejected, whatever else it
    holds. *)
Theorem line_without_colon_rejected (line : string) :
  Contains (text line) ":" = false ->
  parseProxyLine url_Parse line = None.
Proof.
  intros Hc. apply Contains_byte_false in Hc.
  unfold parseProxyLine. destruct (_ || _); [reflexivity|].
  rewrite (Contains_bytes (text line) "://" ":"%char)
    by (simpl; tauto).
  assert (Hat : parseUserPassAtHostPort (text line) = None).
  { unfold parseUserPassAtHostPort.
    destruct (Contains (text line) "@"); [|reflexivity].
    destruct (Split (text line) "@"%char) as [|part0 [|part1 [|? ?]]] eqn:E;
      try reflexivity.
    rewrite (Split_free part0 ":"%char); [reflexivity|].
    intros Hin. apply Hc.
    apply (Split_fields_bytes (text line) "@"%char ":"%char part0);
      [rewrite E; left; reflexivity | exact Hin]. }
  rewrite Hat. unfold parseColonSeparated.
  rewrite Split_free by assumption. reflexivity.
Qed.

(** X9: every credential read from a text without "://" is whole: its
    server is "http://host:port" where host and port hold no colon and the
    port is an integer. *)
Theorem plain_credential_whole (line : string) (proxy : ProxyConfig) :
  Contains (text line) "://" = false ->
  parseProxyLine url_Parse line = Some proxy ->
  exists host port,
    Server proxy = "http://" ++ host ++ ":" ++ port /\
    Contains host ":" = false /\
    Contains port ":" = false /\
    is_Some (Atoi port).
Proof.
  intros Hs. unfold parseProxyLine.
  destruct (_ || _); [discriminate|]. rewrite Hs.
  assert (Hfree : forall s f, In f (Split s ":"%char) ->
                              Contains f ":" = false).
  { intros s f Hf. apply (Contains_bytes f ":" ":"%char);
      [left; reflexivity | exact (Split_fields_free s ":"%char f Hf)]. }
  destruct (parseUserPassAtHostPort (text line)) as [p|] eqn:E.
  - intros [= <-]. revert E. unfold parseUserPassAtHostPort.
    destruct (Contains (text line) "@"); [|discriminate].
    destruct (Split (text line) "@"%char) as [|part0 [|part1 [|? ?]]];
      try discriminate.
    destruct (Split part0 ":"%char) as [|user [|pass [|? ?]]];
      try discriminate.
    destruct (Split part1 ":"%char) as [|host [|port [|? ?]]] eqn:E1;
      try discriminate.
    destruct (Atoi port) eqn:En; [|discriminate].
    intros [= <-]. exists host, port. simpl.
    repeat split; try (apply (Hfree part1); rewrite E1; simpl; tauto); eauto.
  - unfold parseColonSeparated.
    destruct (Split (text line) ":"%char) as [|p0 [|p1 [|p2 [|p3 [|? ?]]]]]
      eqn:E0; try discriminate.
    + destruct (Atoi p1) eqn:En; [|discriminate].
      intros [= <-]. exists p0, p1. simpl.
      repeat split;
        try (apply (Hfree (text line)); rewrite E0; simpl; tauto); eauto.
    + destruct (Atoi p1) eqn:En1.
      * intros [= <-]. exists p0, p1. simpl.
        repeat split;
          try (apply (Hfree (text line)); rewrite E0; simpl; tauto); eauto.
      * destruct (Atoi p3) eqn:En3; [|discriminate].
        intros [= <-]. exists p2, p3. simpl.
        repeat split;
          try (apply (Hfree (text line)); rewrite E0; simpl; tauto); eauto.
Qed.

End ParserShape.

Lemma line_without_colon_rejected_witness :
  parseProxyLine url_Parse_unused "invalid-proxy-format" = None.
Proof.
  apply (line_without_colon_rejected url_Parse_unused "invalid-proxy-format").
  reflexivity.
Defined.

Lemma plain_credential_whole_witness :
  exists host port,
    Server {| Server := "http://proxy.example.com:8080";
              Username := ""; Password := "" |}
    = ("http://" ++ host ++ ":" ++ port)%string /\
    Contains host ":" = false /\
    Contains port ":" = false /\
    is_Some (Atoi port).
Proof.
  apply (plain_credential_whole url_Parse_unused "proxy.example.com:8080");
    reflexivity.
Defined.

(** ** The credential syntaxes agree *)
Section ParserFormats.

Local Open Scope string_scope.

Variable url_Parse : string -> option url.URL.

Lemma first_cut_none (cut : string -> string -> option string) (s : string)
    (runes : list string) :
  (forall r, In r runes -> cut s r = None) -> first_cut cut s runes = None.
Proof.
  induction runes as [|r runes IH]; intros H; simpl; [reflexivity|].
  rewrite (H r) by (left; reflexivity).
  apply IH. intros r' Hr'. apply H. right. exact Hr'.
Qed.

(** No white-space rune starts or ends with a printable byte. *)
Lemma space_runes_ends :
  forallb (fun r => match list_ascii_of_string r with
                    | [] => false
                    | c :: _ => negb (graphic c)
                    end
                    && match last (list_ascii_of_string r) with
                       | None => false
                       | Some c => negb (graphic c)
                       end) space_runes = true.
Proof. vm_compute. reflexivity. Qed.

Lemma TrimSpace_graphic (s : string) : all_graphic s -> TrimSpace s = s.
Proof.
  intros Hs.
  assert (Hp : first_cut cut_prefix s space_runes = None).
  { apply first_cut_none. intros r Hr. unfold cut_prefix.
    destruct (HasPrefix s r) eqn:E; [exfalso|reflexivity].
    pose proof (proj1 (forallb_forall _ _) space_runes_ends r Hr) as Hends.
    apply HasPrefix_inv in E. destruct E as [rest ->].
    destruct r as [|c r]; [discriminate|]. simpl in Hends.
    rewrite (Hs c) in Hends by (left; reflexivity). discriminate. }
  assert (Hq : first_cut cut_suffix s space_runes = None).
  { apply first_cut_none. intros r Hr. unfold cut_suffix.
    destruct (HasSuffix s r) eqn:E; [exfalso|reflexivity].
    pose proof (proj1 (forallb_forall _ _) space_runes_ends r Hr) as Hends.
    apply HasSuffix_inv in E. destruct E as [a ->].
    apply andb_prop in Hends. destruct Hends as [_ Hends].
    destruct (last (list_ascii_of_string r)) as [c|] eqn:El; [|discriminate].
    rewrite (Hs c) in Hends; [discriminate|].
    rewrite bytes_append. apply in_or_app. right.
    apply last_Some in El. destruct El as [l' ->].
    apply in_or_app. right. left. reflexivity. }
  unfold TrimSpace.
  assert (Ht : forall cut n, first_cut cut s space_runes = None ->
                             trim_end cut n s = s).
  { intros cut [|n] H; cbn [trim_end]; [reflexivity | rewrite H; reflexivity]. }
  rewrite (Ht cut_prefix) by exact Hp. apply Ht. exact Hq.
Qed.

Lemma Split_sep (a b : string) (sep : ascii) :
  ~ In sep (list_ascii_of_string a) ->
  Split (a ++ String sep b) sep = a :: Split b sep.
Proof.
  induction a as [|c a IH]; simpl; intros H.
  - rewrite Ascii.eqb_refl. reflexivity.
  - destruct (Ascii.eqb_spec c sep) as [->|Hne]; [tauto|].
    rewrite IH by tauto. reflexivity.
Qed.

Lemma plain_field_bytes (f : string) (c : ascii) :
  plain_field f = true -> In c (list_ascii_of_string f) ->
  graphic c = true /\ c <> ":"%char /\ c <> "@"%char /\ c <> "["%char
  /\ c <> "/"%char.
Proof.
  intros Hf Hc. unfold plain_field in Hf.
  pose proof (proj1 (forallb_forall _ _) Hf c Hc) as H.
  unfold field_byte in H. apply andb_prop in H. destruct H as [Hg Hn].
  apply negb_true_iff in Hn. repeat (apply orb_false_elim in Hn;
                                      destruct Hn as [Hn ?]).
  repeat split; try assumption; intros ->; discriminate.
Qed.

Lemma In_append (c : ascii) (a b : string) :
  In c (list_ascii_of_string (a ++ b)) <->
  In c (list_ascii_of_string a) \/ In c (list_ascii_of_string b).
Proof. rewrite bytes_append. apply in_app_iff. Qed.

Lemma In_append_sep (c d : ascii) (a b : string) :
  In c (list_ascii_of_string (a ++ String d b)) <->
  In c (list_ascii_of_string a) \/ d = c \/ In c (list_ascii_of_string b).
Proof. rewrite In_append. reflexivity. Qed.

Lemma HasPrefix_append (a b : string) (c d : ascii) :
  HasPrefix a (String d "") = false -> c <> d ->
  HasPrefix (a ++ String c b) (String d "") = false.
Proof.
  destruct a as [|x a]; simpl; intros H Hne.
  - destruct (Ascii.eqb_spec c d); [contradiction | reflexivity].
  - rewrite HasPrefix_empty in *. exact H.
Qed.

(** A line of printable bytes without "[" and "/" that is no comment goes
    to the "@" rule and the colon rules as it is. *)
Lemma parseProxyLine_graphic (s rest : string) (c : ascii) :
  all_graphic (s ++ String c rest) ->
  ~ In "["%char (list_ascii_of_string (s ++ String c rest)) ->
  ~ In "/"%char (list_ascii_of_string (s ++ String c rest)) ->
  HasPrefix s "#" = false -> c <> "#"%char ->
  parseProxyLine url_Parse (s ++ String c rest) =
  match parseUserPassAtHostPort (s ++ String c rest) with
  | Some proxy => Some proxy
  | None => parseColonSeparated (s ++ String c rest)
  end.
Proof.
  intros Hg Hb Hs Hh Hc.
  assert (Hu : unwrapMarkdown (s ++ String c rest) = s ++ String c rest).
  { unfold unwrapMarkdown.
    rewrite (Contains_bytes _ "[" "["%char) by (simpl; tauto). reflexivity. }
  rewrite (parseProxyLine_plain url_Parse (s ++ String c rest));
    rewrite ?TrimSpace_graphic, ?Hu by assumption; try reflexivity.
  - destruct s; discriminate.
  - apply HasPrefix_append; assumption.
  - apply (Contains_bytes _ "://" "/"%char); [simpl; tauto | assumption].
Qed.

Ltac free_bytes Hfree Hc :=
  repeat (apply In_append_sep in Hc;
          destruct Hc as [Hc|[Hc|Hc]];
          [refine (Hfree _ _ _ _ Hc); [assumption | tauto]
          |discriminate
          |]);
  refine (Hfree _ _ _ _ Hc); [assumption | tauto].

(** X10: the credential syntaxes agree.  For fields of printable bytes
    without ":", "@", "[" and "/", the first of them no comment mark, and
    an integer port, user:pass@host:port and host:port:user:pass give the
    same credential, server "http://host:port" with that user and
    password; so does user:pass:host:port unless the password is an
    integer too; and host:port alone gives the server without
    credentials. *)
Theorem credential_syntaxes_agree (user pass host port : string) :
  plain_field user = true -> plain_field pass = true ->
  plain_field host = true -> plain_field port = true ->
  HasPrefix user "#" = false -> HasPrefix host "#" = false ->
  is_Some (Atoi port) ->
  let credential := {| Server := "http://" ++ host ++ ":" ++ port;
                       Username := user; Password := pass |} in
  parseProxyLine url_Parse (user ++ ":" ++ pass ++ "@" ++ host ++ ":" ++ port)
    = Some credential /\
  parseProxyLine url_Parse (host ++ ":" ++ port ++ ":" ++ user ++ ":" ++ pass)
    = Some credential /\
  (Atoi pass = None ->
   parseProxyLine url_Parse
     (user ++ ":" ++ pass ++ ":" ++ host ++ ":" ++ port)
     = Some credential) /\
  parseProxyLine url_Parse (host ++ ":" ++ port)
    = Some {| Server := "http://" ++ host ++ ":" ++ port;
              Username := ""; Password := "" |}.
Proof.
  intros Hu Hp Hh Ho Hcu Hch [n Hn] credential.
  pose proof (plain_field_bytes user) as Bu.
  pose proof (plain_field_bytes pass) as Bp.
  pose proof (plain_field_bytes host) as Bh.
  pose proof (plain_field_bytes port) as Bo.
  assert (Hsep : forall c : ascii,
             c = ":"%char \/ c = "@"%char ->
             graphic c = true /\ c <> "["%char /\ c <> "/"%char
             /\ c <> "#"%char).
  { intros c [->| ->]; repeat split; discriminate. }
  assert (Hfree : forall f c, plain_field f = true ->
             (c = ":"%char \/ c = "@"%char \/ c = "["%char \/ c = "/"%char) ->
             ~ In c (list_ascii_of_string f)).
  { intros f c Hf Hc Hin.
    destruct (plain_field_bytes f c Hf Hin) as (_ & ? & ? & ? & ?).
    destruct Hc as [->|[->|[->| ->]]]; contradiction. }
  assert (Hline : forall s, (forall c, In c (list_ascii_of_string s) ->
                     graphic c = true /\ c <> "["%char /\ c <> "/"%char) ->
                   all_graphic s
                   /\ ~ In "["%char (list_ascii_of_string s)
                   /\ ~ In "/"%char (list_ascii_of_string s)).
  { intros s Hs. repeat split.
    - intros c Hc. apply (Hs c Hc).
    - intros Hc. destruct (Hs _ Hc) as (_ & ? & _). congruence.
    - intros Hc. destruct (Hs _ Hc) as (_ & _ & ?). congruence. }
  assert (Hbyte : forall f c, plain_field f = true ->
                    In c (list_ascii_of_string f) ->
                    graphic c = true /\ c <> "["%char /\ c <> "/"%char).
  { intros f c Hf Hc. destruct (plain_field_bytes f c Hf Hc) as (?&?&?&?&?).
    repeat split; assumption. }
  assert (Hcolon : graphic ":" = true /\ ":"%char <> "["%char
                   /\ ":"%char <> "/"%char)
    by (repeat split; discriminate).
  assert (Hat : graphic "@" = true /\ "@"%char <> "["%char
                /\ "@"%char <> "/"%char)
    by (repeat split; discriminate).
  repeat split.
  - (* user:pass@host:port *)
    change (user ++ ":" ++ pass ++ "@" ++ host ++ ":" ++ port)
      with (user ++ String ":" (pass ++ "@" ++ host ++ ":" ++ port)).
    destruct (Hline (user ++ String ":" (pass ++ "@" ++ host ++ ":" ++ port)))
      as (Hg & Hb & Hs).
    { intros c Hc. apply In_append_sep in Hc. destruct Hc as [Hc|[<-|Hc]]; eauto.
      apply In_append_sep in Hc. destruct Hc as [Hc|[<-|Hc]]; eauto.
      apply In_append_sep in Hc. destruct Hc as [Hc|[<-|Hc]]; eauto. }
    rewrite parseProxyLine_graphic by (assumption || discriminate).
    unfold parseUserPassAtHostPort.
    replace (Contains (user ++ String ":" (pass ++ "@" ++ host ++ ":" ++ port))
               "@") with true.
    2: { symmetry. unfold Contains, Index. apply Z.leb_le.
         apply Index_from_present. apply In_append_sep. right. right.
         apply In_append_sep. right. left. reflexivity. }
    replace (user ++ String ":" (pass ++ "@" ++ host ++ ":" ++ port))
      with ((user ++ ":" ++ pass) ++ String "@" (host ++ ":" ++ port))
      by (rewrite !append_assoc; reflexivity).
    rewrite Split_sep, Split_free.
    + change (user ++ ":" ++ pass) with (user ++ String ":" pass).
      change (host ++ ":" ++ port) with (host ++ String ":" port).
      rewrite !Split_sep, !Split_free by (apply Hfree; tauto).
      rewrite Hn. reflexivity.
    + intros Hc. free_bytes Hfree Hc.
    + intros Hc. free_bytes Hfree Hc.
  - (* host:port:user:pass *)
    change (host ++ ":" ++ port ++ ":" ++ user ++ ":" ++ pass)
      with (host ++ String ":" (port ++ String ":" (user ++ String ":" pass))).
    destruct (Hline (host ++ String ":"
                       (port ++ String ":" (user ++ String ":" pass))))
      as (Hg & Hb & Hs).
    { intros c Hc. apply In_append_sep in Hc. destruct Hc as [Hc|[<-|Hc]]; eauto.
      apply In_append_sep in Hc. destruct Hc as [Hc|[<-|Hc]]; eauto.
      apply In_append_sep in Hc. destruct Hc as [Hc|[<-|Hc]]; eauto. }
    rewrite parseProxyLine_graphic by (assumption || discriminate).
    unfold parseUserPassAtHostPort.
    rewrite (Contains_bytes _ "@" "@"%char).
    + unfold parseColonSeparated.
      rewrite !Split_sep, Split_free by (apply Hfree; tauto).
      rewrite Hn. reflexivity.
    + left. reflexivity.
    + intros Hc. free_bytes Hfree Hc.
  - (* user:pass:host:port *)
    intros Hpass.
    change (user ++ ":" ++ pass ++ ":" ++ host ++ ":" ++ port)
      with (user ++ String ":" (pass ++ String ":" (host ++ String ":" port))).
    destruct (Hline (user ++ String ":"
                       (pass ++ String ":" (host ++ String ":" port))))
      as (Hg & Hb & Hs).
    { intros c Hc. apply In_append_sep in Hc. destruct Hc as [Hc|[<-|Hc]]; eauto.
      apply In_append_sep in Hc. destruct Hc as [Hc|[<-|Hc]]; eauto.
      apply In_append_sep in Hc. destruct Hc as [Hc|[<-|Hc]]; eauto. }
    rewrite parseProxyLine_graphic by (assumption || discriminate).
    unfold parseUserPassAtHostPort.
    rewrite (Contains_bytes _ "@" "@"%char).
    + unfold parseColonSeparated.
      rewrite !Split_sep, Split_free by (apply Hfree; tauto).
      rewrite Hpass, Hn. reflexivity.
    + left. reflexivity.
    + intros Hc. free_bytes Hfree Hc.
  - (* host:port *)
    change (host ++ ":" ++ port) with (host ++ String ":" port).
    destruct (Hline (host ++ String ":" port)) as (Hg & Hb & Hs).
    { intros c Hc. apply In_append_sep in Hc. destruct Hc as [Hc|[<-|Hc]]; eauto. }
    rewrite parseProxyLine_graphic by (assumption || discriminate).
    unfold parseUserPassAtHostPort.
    rewrite (Contains_bytes _ "@" "@"%char).
    + unfold parseColonSeparated.
      rewrite !Split_sep, Split_free by (apply Hfree; tauto).
      rewrite Hn. reflexivity.
    + left. reflexivity.
    + intros Hc. free_bytes Hfree Hc.
Qed.

End ParserFormats.

Lemma credential_syntaxes_agree_witness :
  parseProxyLine url_Parse_unused "user:pass@proxy.example.com:8080"
    = Some {| Server := "http://proxy.example.com:8080";
              Username := "user"; Password := "pass" |} /\
  parseProxyLine url_Parse_unused "proxy.example.com:8080:user:pass"
    = Some {| Server := "http://proxy.example.com:8080";
              Username := "user"; Password := "pass" |} /\
  (Atoi "pass" = None ->
   parseProxyLine url_Parse_unused "user:pass:proxy.example.com:8080"
     = Some {| Server := "http://proxy.example.com:8080";
               Username := "user"; Password := "pass" |}) /\
  parseProxyLine url_Parse_unused "proxy.example.com:8080"
    = Some {| Server := "http://proxy.example.com:8080";
              Username := ""; Password := "" |}.
Proof.
  apply (credential_syntaxes_agree url_Parse_unused "user" "pass"
           "proxy.example.com" "8080");
    solve [reflexivity | exists 8080; reflexivity].
Defined.

(** ** More on the worker pool: degenerate pools and the pool of one *)
Module PoolEdges.

Import Orchestrator.

Section Pools.

Variable o : RegistrationOrchestrator.
Variables eventURLs emails : list string.
Variable proxies : list ProxyConfig.

Local Abbreviation step := (step o eventURLs emails proxies).
Local Abbreviation init := (init o eventURLs emails).
Local Abbreviation reachable := (reachable o eventURLs emails proxies).
Local Abbreviation Run := (Run o eventURLs emails proxies).
Local Abbreviation pair_result := (pair_result o proxies).
Local Abbreviation product := (list_prod eventURLs emails).

Lemma zero_pool_states s :
  maxWorkers o = 0 -> product <> [] -> reachable s ->
  workers s = [] /\ pending s = product /\
  (phase s = Queueing \/ phase s = Panicked).
Proof.
  intros Hz Hne [ls Hexec]. induction Hexec as [|ls s1 l s2 _ IH Hstep].
  - simpl. rewrite Hz. repeat split.
    destruct (totalTasks eventURLs emails <? 0); auto.
  - destruct IH as (Hw & Hp & Hph).
    destruct Hstep; simpl; try congruence;
      try (rewrite Hw in *; discriminate);
      try (destruct Hph; congruence).
    repeat split; auto.
Qed.

(** X11: with a pool size of zero and at least one job, [Run] never
    returns: the first job to be queued divides by zero (or [make] has
    already refused the size), and the panic can be reached. *)
Theorem Run_zero_pool_panics :
  maxWorkers o = 0 -> eventURLs <> [] -> emails <> [] ->
  (forall rs, ~ Run rs) /\
  exists s, reachable s /\ phase s = Panicked.
Proof.
  intros Hz He Hm.
  assert (Hne : product <> []).
  { destruct eventURLs as [|e es]; [congruence|].
    destruct emails as [|m ms]; [congruence|]. discriminate. }
  split.
  - intros rs (s & Hreach & Hret & _).
    destruct (zero_pool_states s Hz Hne Hreach) as (_ & _ & [H|H]);
      congruence.
  - destruct (phase init) eqn:Hph.
    + destruct product as [|[e m] rest] eqn:Hp; [congruence|].
      exists (with_phase Panicked init). split; [|reflexivity].
      exists ([] ++ [Panic]). eapply exec_snoc; [apply exec_nil|].
      eapply step_panic; [exact Hph | exact Hp | exact Hz].
    + simpl in Hph. destruct (_ <? _); discriminate.
    + simpl in Hph. destruct (_ <? _); discriminate.
    + exists init. split; [exists []; apply exec_nil | exact Hph].
Qed.

Lemma negative_pool_states s :
  maxWorkers o < 0 ->
  Z.of_nat (length eventURLs) * Z.of_nat (length emails) < 2 ^ 63 ->
  reachable s ->
  workers s = [] /\ results s = [] /\ allResults s = [] /\
  (length (pending s) + length (jobs s) = length product)%nat /\
  phase s <> Panicked /\ (phase s = Queueing \/ pending s = []).
Proof.
  intros Hneg Hfits [ls Hexec].
  induction Hexec as [|ls s1 l s2 _ IH Hstep].
  - simpl. replace (Z.to_nat (maxWorkers o)) with 0%nat by lia.
    unfold totalTasks. rewrite OrchestratorFacts.wrap_small by lia.
    destruct (Z.ltb_spec (Z.of_nat (length eventURLs)
                          * Z.of_nat (length emails)) 0); [lia|].
    repeat split; auto; discriminate.
  - destruct IH as (Hw & Hr & Ha & Hc & Hp & Hq).
    destruct Hstep as
      [s eventURL email rest Hph Hpend Hmw Hroom
      |s eventURL email rest Hph Hpend Hmw
      |s Hph Hpend
      |s w j rest Hw' Hjobs
      |s w j world Hw'
      |s w j result Hw' Hroom
      |s w Hw' Hph Hjobs
      |s Hph Hex Hrc
      |s result rest Hph Hres
      |s Hph Hres Hrc]; simpl;
      try (rewrite Hw in Hw'; discriminate).
    + rewrite Hpend in Hc. rewrite length_app. simpl in *.
      repeat split; auto; try lia; discriminate.
    + lia.
    + repeat split; auto; discriminate.
    + repeat split; auto.
    + congruence.
    + repeat split; auto; try discriminate.
      right. destruct Hq as [Hq|Hq]; [congruence | exact Hq].
Qed.

Lemma negative_pool_progress s :
  maxWorkers o < 0 ->
  Z.of_nat (length eventURLs) * Z.of_nat (length emails) < 2 ^ 63 ->
  reachable s -> phase s <> Returned -> exists l s1, step s l s1.
Proof.
  intros Hneg Hfits Hreach Hnr.
  destruct (negative_pool_states s Hneg Hfits Hreach)
    as (Hw & Hr & Ha & Hc & Hp & Hq).
  destruct (phase s) eqn:Hph; try congruence.
  - destruct (pending s) as [|[e m] rest] eqn:Hpend.
    + eexists _, _. apply step_close_jobs; assumption.
    + eexists _, _. eapply step_enqueue; try eassumption; [lia|].
      unfold totalTasks. rewrite OrchestratorFacts.wrap_small by lia.
      rewrite length_prod in Hc. simpl in Hc. nia.
  - destruct (results_closed s) eqn:Hrc.
    + eexists _, _. apply step_return; assumption.
    + eexists _, _. apply step_close_results; try assumption.
      rewrite Hw. constructor.
Qed.

Lemma negative_pool_run :
  maxWorkers o < 0 ->
  Z.of_nat (length eventURLs) * Z.of_nat (length emails) < 2 ^ 63 ->
  Run [].
Proof.
  intros Hneg Hfits.
  assert (Hgo : forall n s, (measure s <= n)%nat -> reachable s ->
                  exists s', reachable s' /\ phase s' = Returned).
  { induction n as [|n IH]; intros s Hm Hreach;
      destruct (decide (phase s = Returned)) as [Hret|Hnr];
      try (exists s; split; assumption);
      destruct (negative_pool_progress s Hneg Hfits Hreach Hnr)
        as (l & s1 & Hstep);
      pose proof (OrchestratorFacts.step_measure _ _ _ _ _ _ _ Hstep);
      [lia|].
    apply (IH s1); [lia|].
    destruct Hreach as [ls Hexec]. exists (ls ++ [l]).
    exact (exec_snoc _ _ _ _ _ _ _ _ _ Hexec Hstep). }
  destruct (Hgo (measure init) init (le_n _)) as (s & Hreach & Hret).
  - exists []. apply exec_nil.
  - exists s. repeat split; try assumption.
    apply (negative_pool_states s Hneg Hfits Hreach).
Qed.

(** X12: with a negative pool size no goroutine is started: [Run] queues
    every job, collects nothing and returns an empty list, so every job
    is lost without an error. *)
Theorem Run_negative_pool_returns_nothing :
  maxWorkers o < 0 ->
  Z.of_nat (length eventURLs) * Z.of_nat (length emails) < 2 ^ 63 ->
  Run [] /\ forall rs, Run rs -> rs = [].
Proof.
  intros Hneg Hfits. split; [exact (negative_pool_run Hneg Hfits)|].
  intros rs (s & Hreach & _ & <-).
  apply (negative_pool_states s Hneg Hfits Hreach).
Qed.

Lemma pool_of_one (ws : list WorkerState) (w : nat) (st : WorkerState) :
  length ws = 1%nat -> ws !! w = Some st -> ws = [st] /\ w = 0%nat.
Proof.
  destruct ws as [|x [|y ws]]; simpl; try discriminate. intros _.
  destruct w as [|w]; simpl; [|discriminate].
  intros [= ->]. split; reflexivity.
Qed.

(** With one goroutine the pairs stay in line: collected, buffered, held,
    queued and not yet visited, in this order, they are the product. *)
Lemma one_worker_line s :
  maxWorkers o = 1 ->
  Z.of_nat (length eventURLs) * Z.of_nat (length emails) < 2 ^ 63 ->
  reachable s ->
  exists ps_all ps_buf,
    Forall2 pair_result ps_all (allResults s) /\
    Forall2 pair_result ps_buf (results s) /\
    ps_all ++ ps_buf ++ map pair_of (flat_map held (workers s))
      ++ map pair_of (jobs s) ++ pending s = product.
Proof.
  intros Hone Hfits [ls Hexec].
  induction Hexec as [|ls s1 l s2 Hexec IH Hstep].
  - exists [], []. simpl. rewrite Hone. repeat split; constructor.
  - destruct IH as (ps_all & ps_buf & Hall & Hbuf & Heq).
    pose proof (OrchestratorFacts.Inv_reachable o eventURLs emails proxies
                  ltac:(lia) Hfits s1 (ex_intro _ ls Hexec)) as HI.
    pose proof (inv_pool _ _ _ _ _ HI) as Hpool.
    pose proof (inv_sending _ _ _ _ _ HI) as Hsend.
    rewrite Hone in Hpool. change (Z.to_nat 1) with 1%nat in Hpool.
    destruct Hstep as
      [s eventURL email rest Hph Hpend Hmw Hroom
      |s eventURL email rest Hph Hpend Hmw
      |s Hph Hpend
      |s w j rest Hw Hjobs
      |s w j world Hw
      |s w j result Hw Hroom
      |s w Hw Hph Hjobs
      |s Hph Hex Hrc
      |s result rest Hph Hres
      |s Hph Hres Hrc]; simpl;
      try (destruct (pool_of_one _ _ _ Hpool Hw) as [Hws ->];
           rewrite Hws in *; simpl in * ).
    + exists ps_all, ps_buf. repeat split; try assumption.
      rewrite <- Heq, Hpend, List.map_app. simpl.
      rewrite <- !app_assoc. reflexivity.
    + lia.
    + exists ps_all, ps_buf. repeat split; assumption.
    + exists ps_all, ps_buf. repeat split; try assumption.
      rewrite <- Heq, Hjobs. reflexivity.
    + exists ps_all, ps_buf. repeat split; assumption.
    + exists ps_all, (ps_buf ++ [pair_of j]). repeat split; try assumption.
      * apply Forall2_app; [assumption|]. repeat constructor.
        inversion Hsend; assumption.
      * rewrite <- Heq, <- !app_assoc. reflexivity.
    + exists ps_all, ps_buf. repeat split; assumption.
    + exists ps_all, ps_buf. repeat split; assumption.
    + rewrite Hres in Hbuf. apply Forall2_cons_inv_r in Hbuf.
      destruct Hbuf as (p & ps_buf' & Hp & Hbuf' & ->).
      exists (ps_all ++ [p]), ps_buf'. repeat split; try assumption.
      * apply Forall2_app; [assumption|]. repeat constructor. exact Hp.
      * rewrite <- Heq, <- !app_assoc. reflexivity.
    + exists ps_all, ps_buf. repeat split; assumption.
Qed.

(** X13: with a pool of one, [Run] returns the results in the order in
    which the jobs are queued: event by event, and for each event email by
    email. *)
Theorem Run_single_worker_in_order (rs : list RegistrationResult) :
  maxWorkers o = 1 ->
  Z.of_nat (length eventURLs) * Z.of_nat (length emails) < 2 ^ 63 ->
  Run rs ->
  Forall2 pair_result (list_prod eventURLs emails) rs.
Proof.
  intros Hone Hfits (s & Hreach & Hret & <-).
  destruct (one_worker_line s Hone Hfits Hreach)
    as (ps_all & ps_buf & Hall & Hbuf & Heq).
  pose proof (OrchestratorFacts.Inv_reachable o eventURLs emails proxies
                ltac:(lia) Hfits s Hreach) as HI.
  destruct HI as [_ _ Hl He Hc Hq Hr _].
  destruct (Hr Hret) as [Hres Hrc]. destruct (Hc Hrc) as [Hex _].
  assert (Hjobs : jobs s = []).
  { destruct He as [He|[He _]]; [|exact He].
    destruct (workers s) as [|st ws]; [simpl in Hl; lia|].
    inversion He as [|? ? Hne _]; inversion Hex as [|? ? Heq' _]; subst.
    contradiction. }
  assert (Hpend : pending s = []) by (destruct Hq; congruence).
  rewrite Hres in Hbuf. apply Forall2_nil_inv_r in Hbuf. subst ps_buf.
  rewrite Hpend, Hjobs, (OrchestratorFacts.held_Exited _ Hex) in Heq.
  simpl in Heq. rewrite app_nil_r in Heq. rewrite <- Heq. exact Hall.
Qed.

End Pools.

Lemma Run_zero_pool_panics_witness :
  (forall rs,
     ~ Run {| firstName := "Ada"; lastName := "Lovelace";
              organization := "Analytical"; headless := true;
              maxWorkers := 0; telegramChatID := "" |}
         sample_events sample_emails sample_proxies rs) /\
  exists s,
    reachable {| firstName := "Ada"; lastName := "Lovelace";
                 organization := "Analytical"; headless := true;
                 maxWorkers := 0; telegramChatID := "" |}
      sample_events sample_emails sample_proxies s /\
    phase s = Panicked.
Proof.
  apply Run_zero_pool_panics; [reflexivity | discriminate | discriminate].
Defined.

Lemma Run_negative_pool_returns_nothing_witness :
  Run {| firstName := "Ada"; lastName := "Lovelace";
         organization := "Analytical"; headless := true;
         maxWorkers := -1; telegramChatID := "" |}
    sample_events sample_emails sample_proxies [] /\
  forall rs,
    Run {| firstName := "Ada"; lastName := "Lovelace";
           organization := "Analytical"; headless := true;
           maxWorkers := -1; telegramChatID := "" |}
      sample_events sample_emails sample_proxies rs ->
    rs = [].
Proof.
  apply Run_negative_pool_returns_nothing; reflexivity.
Defined.

Ltac exec_back n :=
  match n with
  | O => apply exec_nil
  | S ?k => eapply exec_snoc; [exec_back k|]
  end.

Lemma Run_single_worker_in_order_witness :
  Forall2
    (pair_result {| firstName := "Ada"; lastName := "Lovelace";
                    organization := "Analytical"; headless := true;
                    maxWorkers := 1; telegramChatID := "" |} [])
    (list_prod sample_events ["a@x.com"])
    [ {| Email := "a@x.com"; Event := "1"; Status := "SUCCESS";
         Attempt := 2; Message := "registered"; Timestamp := 0 |} ].
Proof.
  apply (Run_single_worker_in_order
           {| firstName := "Ada"; lastName := "Lovelace";
              organization := "Analytical"; headless := true;
              maxWorkers := 1; telegramChatID := "" |}
           sample_events ["a@x.com"] []);
    [reflexivity | reflexivity |].
  eexists. split; [eexists|].
  - exec_back 9%nat.
    + eapply step_enqueue;
        [reflexivity | reflexivity | discriminate | reflexivity].
    + apply step_close_jobs; reflexivity.
    + eapply (step_receive _ _ _ _ _ 0%nat); reflexivity.
    + eapply (step_execute _ _ _ _ _ 0%nat _ Worker.succeeds_at_2).
      reflexivity.
    + eapply (step_send _ _ _ _ _ 0%nat); reflexivity.
    + eapply (step_exit _ _ _ _ _ 0%nat); reflexivity.
    + apply step_close_results;
        [reflexivity | repeat constructor | reflexivity].
    + eapply step_collect; reflexivity.
    + apply step_return; reflexivity.
  - split; reflexivity.
Defined.

End PoolEdges.

(** ** The proxy file reader *)
Section ReaderFacts.

Local Open Scope string_scope.

Variable url_Parse : string -> option url.URL.

Lemma first_cut_some (cut : string -> string -> option string)
    (s a : string) (runes : list string) :
  first_cut cut s runes = Some a -> exists r, In r runes /\ cut s r = Some a.
Proof.
  induction runes as [|r runes IH]; simpl; [discriminate|].
  destruct (cut s r) as [a'|] eqn:E.
  - intros [= <-]. exists r. split; [left; reflexivity | exact E].
  - intros H. destruct (IH H) as (r' & Hr' & Hc).
    exists r'. split; [right; exact Hr' | exact Hc].
Qed.

Lemma cut_suffix_inv (s r a : string) :
  cut_suffix s r = Some a -> s = a ++ r.
Proof.
  unfold cut_suffix. destruct (HasSuffix s r) eqn:E; [|discriminate].
  intros [= <-]. apply HasSuffix_inv in E. destruct E as [a ->].
  unfold slice, len. rewrite length_append.
  change (Z.to_nat 0) with 0%nat.
  replace (Z.to_nat (Z.of_nat (String.length a + String.length r)
                     - Z.of_nat (String.length r) - 0))
    with (String.length a) by lia.
  rewrite substring_head. reflexivity.
Qed.

(** Trimming leaves a comment mark at the start of a line in place. *)
Lemma TrimSpace_comment (s : string) :
  HasPrefix s "#" = true -> HasPrefix (TrimSpace s) "#" = true.
Proof.
  intros Hs. unfold TrimSpace.
  assert (Hp : first_cut cut_prefix s space_runes = None).
  { apply first_cut_none. intros r Hr. unfold cut_prefix.
    destruct (HasPrefix s r) eqn:E; [exfalso|reflexivity].
    pose proof (proj1 (forallb_forall _ _) space_runes_ends r Hr) as Hends.
    apply HasPrefix_inv in E. destruct E as [rest ->].
    destruct r as [|c r]; [discriminate|]. simpl in Hends, Hs.
    apply andb_prop in Hs. destruct Hs as [Hc _].
    apply Ascii.eqb_eq in Hc. subst c. discriminate. }
  assert (Hsame : trim_end cut_prefix (String.length s) s = s).
  { destruct (String.length s); cbn [trim_end];
      [reflexivity | rewrite Hp; reflexivity]. }
  rewrite Hsame. clear Hp Hsame. generalize (String.length s). intros n.
  revert s Hs. induction n as [|n IH]; intros s Hs;
    cbn [trim_end]; [exact Hs|].
  destruct (first_cut cut_suffix s space_runes) as [a|] eqn:E; [|exact Hs].
  apply first_cut_some in E. destruct E as (r & Hr & Hcut).
  pose proof (proj1 (forallb_forall _ _) space_runes_ends r Hr) as Hends.
  apply cut_suffix_inv in Hcut. subst s.
  assert (Ha : HasPrefix a "#" = true).
  { destruct a as [|c a].
    - destruct r as [|c r]; [discriminate|]. simpl in Hends, Hs.
      apply andb_prop in Hs. destruct Hs as [Hc _].
      apply Ascii.eqb_eq in Hc. subst c. discriminate.
    - simpl in Hs |- *. rewrite HasPrefix_empty in *. exact Hs. }
  apply IH. exact Ha.
Qed.

(** Only a line that is neither blank nor a comment is read as a
    proxy. *)
Lemma parseProxyLine_significant (line : string) (proxy : ProxyConfig) :
  parseProxyLine url_Parse line = Some proxy ->
  negb (String.eqb line "") && negb (HasPrefix line "#") = true.
Proof.
  intros H. destruct (String.eqb_spec line "") as [->|Hne];
    [discriminate|].
  destruct (HasPrefix line "#") eqn:Hc; [|reflexivity].
  apply TrimSpace_comment in Hc. unfold parseProxyLine in H.
  rewrite Hc, orb_true_r in H. discriminate.
Qed.

(** X14: [readProxies] accounts for every line: a line that, trimmed, is
    neither blank nor a comment gives one proxy or one warning, a blank
    line or a comment gives neither; a warning shows at most 120 bytes of
    the line; every proxy loaded is the reading of one of the lines. *)
Theorem scanProxies_accounts (lines : list string) :
  let (loaded, warned) := scanProxies url_Parse lines in
  (length loaded + length warned)%nat
  = length (List.filter
              (fun text => negb (String.eqb (TrimSpace text) "")
                           && negb (HasPrefix (TrimSpace text) "#")) lines)
  /\ Forall (fun text => len text <= 120) warned
  /\ forall proxy, In proxy loaded ->
       exists text, In text lines /\
                    parseProxyLine url_Parse (TrimSpace text) = Some proxy.
Proof.
  induction lines as [|text rest IH]; simpl.
  - repeat split; [constructor | intros ? []].
  - destruct (scanProxies url_Parse rest) as [loaded warned].
    destruct IH as (Hn & Hw & Hp).
    destruct (parseProxyLine url_Parse (TrimSpace text)) as [proxy|] eqn:E.
    + rewrite (parseProxyLine_significant _ _ E). simpl.
      repeat split; [lia | exact Hw |].
      intros p [<-|Hin]; [exists text; split; [left; reflexivity | exact E]|].
      destruct (Hp p Hin) as (t & Ht & Et). exists t. split; [right|]; auto.
    + destruct (negb (String.eqb (TrimSpace text) "")
                && negb (HasPrefix (TrimSpace text) "#")); simpl.
      * repeat split; [lia | |].
        -- constructor; [apply truncateString_len; lia | exact Hw].
        -- intros p Hin. destruct (Hp p Hin) as (t & Ht & Et).
           exists t. split; [right|]; auto.
      * repeat split; [exact Hn | exact Hw |].
        intros p Hin. destruct (Hp p Hin) as (t & Ht & Et).
        exists t. split; [right|]; auto.
Qed.

End ReaderFacts.

(** ** The command loop of the bot *)
Module ControlFacts.

Import Control.

Local Open Scope string_scope.

Lemma handleRegister_halves (files : Bot.Files) (now chatID : Z)
    (u : Bot.UserConfig) (c : Bot.Bot) :
  Bot.handleRegister files now chatID u c =
  let (c1, accepted) := register_locked now chatID u c in
  if accepted then register_unlocked files chatID u c1 else c1.
Proof.
  unfold Bot.handleRegister, register_locked, register_unlocked.
  destruct (_ || _); [reflexivity|].
  destruct (Bot.running (Bot.campaign c)); [reflexivity|].
  destruct (Bot.readEmails files (Bot.EmailsFile u)); [|reflexivity].
  destruct (Bot.readEventURLs files (Bot.EventsFile u)); reflexivity.
Qed.

Lemma register_locked_accepted (now chatID : Z) (u : Bot.UserConfig)
    (c c1 : Bot.Bot) :
  register_locked now chatID u c = (c1, true) ->
  Bot.FirstName u <> "" /\ Bot.LastName u <> "" /\ Bot.Organization u <> "" /\
  Bot.running (Bot.campaign c) = false /\
  c1 = Bot.set_campaign {| Bot.running := true; Bot.results := [];
                           Bot.startTime := now |} c.
Proof.
  unfold register_locked.
  destruct (String.eqb_spec (Bot.FirstName u) ""); [discriminate|].
  destruct (String.eqb_spec (Bot.LastName u) ""); [discriminate|].
  destruct (String.eqb_spec (Bot.Organization u) ""); [discriminate|].
  simpl. destruct (Bot.running (Bot.campaign c)); [discriminate|].
  intros [= <-]. repeat split; assumption.
Qed.

Lemma sendMessage_Good chatID text b : Good b -> Good (sendMessage chatID text b).
Proof. intros [H1 H2 H3]. constructor; assumption. Qed.

Lemma set_user_Good chatID u b : Good b -> user_ok u -> Good (set_user chatID u b).
Proof.
  intros [H1 H2 H3] Hu. constructor; simpl; try assumption.
  apply map_Forall_insert_2; assumption.
Qed.

Lemma default_config_ok chatID : user_ok (default_config chatID).
Proof. split; simpl; [lia | left; reflexivity]. Qed.

Lemma getUserConfig_Good chatID b :
  Good b ->
  Good (snd (getUserConfig chatID b)) /\
  user_ok (fst (getUserConfig chatID b)) /\
  userConfigs (snd (getUserConfig chatID b)) !! chatID
    = Some (fst (getUserConfig chatID b)) /\
  campaign (snd (getUserConfig chatID b)) = campaign b /\
  inflight (snd (getUserConfig chatID b)) = inflight b.
Proof.
  intros HG. unfold getUserConfig.
  destruct (userConfigs b !! chatID) as [u|] eqn:E; simpl.
  - split; [exact HG|]. split; [exact (good_users b HG chatID u E)|].
    split; [exact E|]. split; reflexivity.
  - pose proof (default_config_ok chatID) as Hd.
    split; [apply set_user_Good; assumption|]. split; [exact Hd|].
    split; [apply lookup_insert_eq|]. split; reflexivity.
Qed.

Lemma handleStateInput_Good chatID text u b :
  Good b -> user_ok u -> Good (handleStateInput chatID text u b).
Proof.
  intros HG [Hw Hs]. unfold handleStateInput.
  repeat (destruct (String.eqb _ _)); try assumption;
    apply sendMessage_Good, set_user_Good; try assumption;
    split; simpl; auto.
Qed.

Lemma handleWorkers_Good chatID text u b :
  Good b -> user_ok u -> Good (handleWorkers chatID text u b).
Proof.
  intros HG [Hw Hs]. unfold handleWorkers.
  destruct (Fields text) as [|? [|arg [|? ?]]];
    try (apply sendMessage_Good; assumption).
  destruct (Atoi arg) as [workers|]; [|apply sendMessage_Good; assumption].
  destruct (Z.ltb_spec workers 1); [apply sendMessage_Good; assumption|].
  destruct (Z.ltb_spec 200 workers); [apply sendMessage_Good; assumption|].
  simpl. apply sendMessage_Good, set_user_Good; [assumption|].
  split; simpl; [lia | assumption].
Qed.

Lemma handleFileUpload_Good env chatID doc u b :
  Good b -> Good (handleFileUpload env chatID doc u b).
Proof.
  intros HG. unfold handleFileUpload.
  repeat match goal with
         | |- context [if ?x then _ else _] => destruct x
         end; apply sendMessage_Good; assumption.
Qed.

Lemma sendStats_Good env chatID b : Good b -> Good (sendStats env chatID b).
Proof.
  intros HG. unfold sendStats.
  destruct (getUserConfig_Good chatID b HG) as (H & _).
  destruct (getUserConfig chatID b) as [u b0].
  apply sendMessage_Good. exact H.
Qed.

(** What the second half of a launch leaves of a bot whose first half was
    accepted. *)
Lemma register_unlocked_Good files chatID u b :
  Good b -> user_ok u ->
  Bot.FirstName u <> "" -> Bot.LastName u <> "" -> Bot.Organization u <> "" ->
  Good (with_core b (register_unlocked files chatID u (core b))).
Proof.
  intros [H1 H2 H3] [Hw _] Hf Hl Ho. unfold register_unlocked.
  destruct (Bot.readEmails files (Bot.EmailsFile u)) as [emails|].
  2: { constructor; simpl; try assumption. discriminate. }
  destruct (Bot.readEventURLs files (Bot.EventsFile u)) as [eventURLs|].
  2: { constructor; simpl; try assumption. discriminate. }
  constructor; simpl; try assumption.
  apply Forall_app. split; [assumption|].
  repeat constructor; simpl; try assumption; lia.
Qed.

Lemma handleRegister_Good env chatID u b :
  Good b -> user_ok u -> Good (handleRegister env chatID u b).
Proof.
  intros HG Hu. unfold handleRegister. rewrite handleRegister_halves.
  destruct (register_locked (now env) chatID u (core b)) as [c1 accepted]
    eqn:E.
  destruct accepted.
  - apply register_locked_accepted in E.
    destruct E as (Hf & Hl & Ho & Hr & ->).
    pose proof (register_unlocked_Good (files env) chatID u
                  {| campaign := {| Bot.running := true; Bot.results := [];
                                    Bot.startTime := now env |};
                     inflight := inflight b;
                     userConfigs := userConfigs b;
                     outbox := outbox b |}) as H.
    destruct HG as [H1 H2 H3].
    specialize (H ltac:(constructor; simpl; auto) Hu Hf Hl Ho).
    destruct H as [G1 G2 G3]. revert G1 G2 G3.
    unfold register_unlocked, core, with_core. simpl.
    destruct (Bot.readEmails _ _); [destruct (Bot.readEventURLs _ _)|];
      simpl; intros; constructor; simpl; assumption.
  - revert E. unfold register_locked.
    destruct HG as [H1 H2 H3].
    destruct (_ || _); [intros [= <- ]; constructor; simpl; assumption|].
    destruct (Bot.running (Bot.campaign (core b)));
      intros [= <-]; constructor; simpl; assumption.
Qed.

Lemma handleStop_Good chatID b : Good b -> Good (handleStop chatID b).
Proof.
  intros [H1 H2 H3]. unfold handleStop, Bot.handleStop. simpl.
  destruct (Bot.running (campaign b)) eqn:E; simpl;
    constructor; simpl; try assumption; try discriminate; congruence.
Qed.

Lemma handleMessage_Good env msg b b' :
  Good b -> handleMessage env msg b = Some b' -> Good b'.
Proof.
  intros HG Hb'. unfold handleMessage in Hb'.
  destruct (Chat msg) as [chat|]; [|discriminate].
  destruct (getUserConfig_Good (ID chat) b HG) as (H & Hu & _).
  destruct (getUserConfig (ID chat) b) as [u b0]. simpl in H, Hu.
  destruct (Document msg) as [doc|];
    [injection Hb' as <-; apply handleFileUpload_Good, H|].
  destruct (From msg) as [sender|]; [|discriminate].
  injection Hb' as <-.
  repeat match goal with
         | |- context [if ?x then _ else _] => destruct x
         end;
    first [ apply handleStateInput_Good; assumption
          | apply handleWorkers_Good; assumption
          | apply handleRegister_Good; assumption
          | apply handleStop_Good; assumption
          | apply sendStats_Good; assumption
          | apply sendMessage_Good; assumption
          | idtac ].
  - unfold handleSetup. apply sendMessage_Good, set_user_Good; [assumption|].
    destruct Hu as [Hw _]. split; simpl; auto.
  - unfold sendStatus. destruct (negb _); apply sendMessage_Good; assumption.
  - unfold sendResults. destruct (Z.eqb _ _); apply sendMessage_Good; assumption.
Qed.

Lemma completed_inv i rs b b' :
  completed i rs b b' ->
  exists run,
    inflight b !! i = Some run /\
    Orchestrator.Run (orchestrator_of run) (Bot.run_eventURLs run)
      (Bot.run_emails run) (Bot.run_proxies run) rs /\
    campaign b' = {| Bot.running := false; Bot.results := rs;
                     Bot.startTime := Bot.startTime (campaign b) |} /\
    inflight b' = delete i (inflight b) /\
    userConfigs b' = userConfigs b.
Proof.
  intros (run & c & Hi & Hrun & Hc & ->).
  unfold Bot.runCampaign_completed in Hc. simpl in Hc. rewrite Hi in Hc.
  injection Hc as <-. exists run. repeat split; assumption.
Qed.

Lemma completed_Good i rs b b' : Good b -> completed i rs b b' -> Good b'.
Proof.
  intros [H1 H2 H3] Hc.
  destruct (completed_inv _ _ _ _ Hc) as (run & _ & _ & Hcamp & Hin & Hu).
  constructor.
  - rewrite Hcamp. discriminate.
  - rewrite Hu. exact H2.
  - rewrite Hin. apply Forall_delete. exact H3.
Qed.

Lemma finishing_Good b b' :
  Good b -> finishing b b' -> Good b' /\ userConfigs b' = userConfigs b.
Proof.
  intros HG Hf. induction Hf as [b|b i rs b1 b2 Hc _ IH].
  - split; [exact HG | reflexivity].
  - destruct (IH (completed_Good _ _ _ _ HG Hc)) as [HG2 Hu].
    split; [exact HG2|]. rewrite Hu.
    destruct (completed_inv _ _ _ _ Hc) as (_ & _ & _ & _ & _ & Hu1).
    exact Hu1.
Qed.

Lemma step_Good b b' : Good b -> step b b' -> Good b'.
Proof.
  intros HG Hstep.
  destruct Hstep as [env msg b b' Hmsg|i rs b b' Hc
                    |env chatID u b c b1 b2 Hu Hidle Hlock -> Hfin].
  - exact (handleMessage_Good _ _ _ _ HG Hmsg).
  - exact (completed_Good _ _ _ _ HG Hc).
  - apply register_locked_accepted in Hlock.
    destruct Hlock as (Hf & Hl & Ho & Hr & ->).
    assert (HG1 : Good (with_core b
                          (Bot.set_campaign
                             {| Bot.running := true; Bot.results := [];
                                Bot.startTime := now env |} (core b)))).
    { destruct HG as [H1 H2 H3]. constructor; simpl; auto. }
    destruct (finishing_Good _ _ HG1 Hfin) as [HG2 Hu2].
    apply register_unlocked_Good; try assumption.
    exact (good_users b HG chatID u Hu).
Qed.

Lemma reachable_Good b : reachable b -> Good b.
Proof.
  induction 1 as [|b b' _ IH Hstep].
  - constructor; simpl; [discriminate | apply map_Forall_empty | constructor].
  - exact (step_Good _ _ IH Hstep).
Qed.

Lemma itoa_nonempty (n : Z) : itoa n <> "".
Proof.
  unfold itoa. destruct (Z.to_int n) as [d|d]; simpl; [|discriminate].
  destruct d; discriminate.
Qed.

(** X15: in every state the bot reaches, the cached results are empty
    while the running flag is set; so a status request never shows
    progress: it reports no campaign, or a running campaign with 0
    completed, 0 successful and 0 failed. *)
Theorem status_never_shows_progress
    (env : Env) (chatID : Z) (b : TelegramBot) :
  reachable b ->
  (Bot.running (campaign b) = true -> Bot.results (campaign b) = []) /\
  sendStatus env chatID b =
  sendMessage chatID
    (if Bot.running (campaign b)
     then StatusRunning (now env - Bot.startTime (campaign b)) 0 0 0
     else StatusIdle) b.
Proof.
  intros Hreach. pose proof (good_status b (reachable_Good b Hreach)) as H.
  split; [exact H|]. unfold sendStatus.
  destruct (Bot.running (campaign b)); [|reflexivity].
  simpl. rewrite (H eq_refl). reflexivity.
Qed.

(** X16: in every state the bot reaches, every chat's configuration has
    between 1 and 200 workers and its dialogue state is one of "idle",
    "awaiting_firstname", "awaiting_lastname" and "awaiting_org". *)
Theorem configurations_stay_valid
    (b : TelegramBot) (chatID : Z) (u : Bot.UserConfig) :
  reachable b -> userConfigs b !! chatID = Some u ->
  1 <= Bot.MaxWorkers u <= 200 /\
  (Bot.State u = "idle" \/ Bot.State u = "awaiting_firstname"
   \/ Bot.State u = "awaiting_lastname" \/ Bot.State u = "awaiting_org").
Proof.
  intros Hreach Hu.
  exact (good_users b (reachable_Good b Hreach) chatID u Hu).
Qed.

(** X17: every campaign the bot has launched and that is still in flight
    was launched with the three names filled in and with between 1 and 200
    workers; so (its product of events and emails fitting in an int) its
    [Run] does return, and with one result per (event, email) pair. *)
Theorem launched_campaigns_return (b : TelegramBot) (run : Bot.CampaignRun) :
  reachable b -> In run (inflight b) ->
  Z.of_nat (length (Bot.run_eventURLs run))
    * Z.of_nat (length (Bot.run_emails run)) < 2 ^ 63 ->
  1 <= Bot.run_maxWorkers run <= 200 /\
  Bot.run_firstName run <> "" /\ Bot.run_lastName run <> "" /\
  Bot.run_organization run <> "" /\
  (exists rs,
     Orchestrator.Run (orchestrator_of run) (Bot.run_eventURLs run)
       (Bot.run_emails run) (Bot.run_proxies run) rs) /\
  (forall rs,
     Orchestrator.Run (orchestrator_of run) (Bot.run_eventURLs run)
       (Bot.run_emails run) (Bot.run_proxies run) rs ->
     length rs = (length (Bot.run_eventURLs run)
                  * length (Bot.run_emails run))%nat).
Proof.
  intros Hreach Hin Hfits.
  pose proof (good_runs b (reachable_Good b Hreach)) as Hruns.
  rewrite List.Forall_forall in Hruns.
  destruct (Hruns run Hin) as (Hw & Hf & Hl & Ho).
  assert (Hpool : 1 <= Orchestrator.maxWorkers (orchestrator_of run))
    by (simpl; lia).
  repeat split; try assumption; try lia.
  - destruct (OrchestratorFacts.Run_reached (orchestrator_of run)
                (Bot.run_eventURLs run) (Bot.run_emails run)
                (Bot.run_proxies run) Hpool Hfits
                (Orchestrator.measure
                   (Orchestrator.init (orchestrator_of run)
                      (Bot.run_eventURLs run) (Bot.run_emails run)))
                (Orchestrator.init (orchestrator_of run)
                   (Bot.run_eventURLs run) (Bot.run_emails run))
                (le_n _))
      as (s & Hs & Hret).
    + exists []. constructor.
    + exists (Orchestrator.allResults s), s. repeat split; assumption.
  - intros rs Hrs.
    exact (proj1 (OrchestratorFacts.Run_sound _ _ _ _ Hpool Hfits rs Hrs)).
Qed.

(** X18: a job of a campaign launched by the bot that fails at every
    attempt sends exactly one alert, to the chat that launched the
    campaign, at the third attempt. *)
Theorem bot_campaign_alerts_launcher
    (run : Bot.CampaignRun) (proxies : list ProxyConfig) (w : nat)
    (world : Worker.World) (j : Orchestrator.job) :
  (forall k, fst (Worker.try_outcome world k) = false) ->
  Worker.alerts
    (snd (Orchestrator.execute (orchestrator_of run) proxies w world j))
  = [Worker.TelegramAlert (itoa (Bot.run_chatID run))
       (Orchestrator.email j) (Orchestrator.eventURL j) 3
       (snd (Worker.try_outcome world 3))].
Proof.
  intros Hfail. unfold Orchestrator.execute.
  rewrite ExecuteRegistration_unfold. cbn [snd].
  destruct (retry_loop_all_fail config
              (Orchestrator.worker (orchestrator_of run) proxies w) world
              (Orchestrator.eventURL j) (Bot.run_firstName run)
              (Bot.run_lastName run) (Orchestrator.email j)
              (Bot.run_organization run)
              (Worker.selectProxy
                 (Orchestrator.worker (orchestrator_of run) proxies w))
              3 1 eq_refl Hfail) as (_ & _ & H).
  change (Z.to_nat (RegistrationRetry config)) with 3%nat.
  simpl in H |- *. rewrite H.
  destruct (String.eqb_spec (itoa (Bot.run_chatID run)) "") as [E|_];
    [destruct (itoa_nonempty _ E) | reflexivity].
Qed.

Lemma getUserConfig_lookup chatID b :
  userConfigs (snd (getUserConfig chatID b)) !! chatID
    = Some (fst (getUserConfig chatID b)) /\
  (forall other, other <> chatID ->
     userConfigs (snd (getUserConfig chatID b)) !! other
     = userConfigs b !! other) /\
  campaign (snd (getUserConfig chatID b)) = campaign b /\
  inflight (snd (getUserConfig chatID b)) = inflight b /\
  outbox (snd (getUserConfig chatID b)) = outbox b.
Proof.
  unfold getUserConfig.
  destruct (userConfigs b !! chatID) as [u|] eqn:E; simpl.
  - repeat split. exact E.
  - repeat split; [apply lookup_insert_eq|].
    intros other Hne. apply lookup_insert_ne. congruence.
Qed.

Lemma getUserConfig_known chatID b u :
  userConfigs b !! chatID = Some u -> getUserConfig chatID b = (u, b).
Proof. intros E. unfold getUserConfig. rewrite E. reflexivity. Qed.

(** A text message to a chat whose dialogue is open is an answer. *)
Lemma handleMessage_answer env id sender chat text b u :
  userConfigs b !! ID chat = Some u -> Bot.State u <> "idle" ->
  handleMessage env (text_of id sender chat text) b
  = Some (handleStateInput (ID chat) (TrimSpace text) u b).
Proof.
  intros E Hs. unfold handleMessage. simpl.
  rewrite (getUserConfig_known _ _ _ E).
  destruct (String.eqb_spec (Bot.State u) "idle"); [contradiction|].
  reflexivity.
Qed.

Lemma handleMessage_setup env id sender chat b :
  Bot.State (fst (getUserConfig (ID chat) b)) = "idle" ->
  handleMessage env (text_of id sender chat "/setup") b
  = Some (handleSetup (ID chat) (fst (getUserConfig (ID chat) b))
            (snd (getUserConfig (ID chat) b))).
Proof.
  intros Hs. unfold handleMessage. cbn [Chat Document From Text text_of].
  replace (TrimSpace "/setup") with "/setup" by (vm_compute; reflexivity).
  destruct (getUserConfig (ID chat) b) as [u0 b0]. cbn [fst snd] in *.
  rewrite Hs. reflexivity.
Qed.

(** X19: the setup dialogue.  For a chat whose dialogue is idle, "/setup"
    followed by three text messages stores the three texts, trimmed, as
    first name, last name and organization, and leaves the dialogue idle
    again; the chat's files and worker count, the other chats, the
    campaign state and the goroutines in flight are untouched. *)
Theorem setup_dialogue
    (env1 env2 env3 env4 : Env) (id1 id2 id3 id4 : Z)
    (sender : TelegramUser) (chat : TelegramChat) (t1 t2 t3 : string)
    (b : TelegramBot) :
  let u := fst (getUserConfig (ID chat) b) in
  Bot.State u = "idle" ->
  exists b',
    ((handleMessage env1 (text_of id1 sender chat "/setup") b
        ≫= handleMessage env2 (text_of id2 sender chat t1))
       ≫= handleMessage env3 (text_of id3 sender chat t2))
      ≫= handleMessage env4 (text_of id4 sender chat t3) = Some b' /\
    userConfigs b' !! ID chat
      = Some {| Bot.FirstName := TrimSpace t1; Bot.LastName := TrimSpace t2;
                Bot.Organization := TrimSpace t3;
                Bot.EmailsFile := Bot.EmailsFile u;
                Bot.EventsFile := Bot.EventsFile u;
                Bot.ProxiesFile := Bot.ProxiesFile u;
                Bot.MaxWorkers := Bot.MaxWorkers u;
                Bot.State := "idle" |} /\
    (forall other, other <> ID chat ->
       userConfigs b' !! other = userConfigs b !! other) /\
    campaign b' = campaign b /\ inflight b' = inflight b.
Proof.
  intros u Hidle.
  destruct (getUserConfig_lookup (ID chat) b) as (Hu & Hother & Hc & Hi & _).
  fold u in Hu.
  rewrite (handleMessage_setup env1 id1 sender chat b Hidle).
  fold u. set (b0 := snd (getUserConfig (ID chat) b)) in *.
  unfold handleSetup. cbn [mbind option_bind].
  rewrite (handleMessage_answer env2 id2 sender chat t1 _
             (set_State "awaiting_firstname" u))
    by (simpl; first [apply lookup_insert_eq | discriminate]).
  unfold handleStateInput. cbn [mbind option_bind]. simpl.
  rewrite (handleMessage_answer env3 id3 sender chat t2 _
             {| Bot.FirstName := TrimSpace t1; Bot.LastName := Bot.LastName u;
                Bot.Organization := Bot.Organization u;
                Bot.EmailsFile := Bot.EmailsFile u;
                Bot.EventsFile := Bot.EventsFile u;
                Bot.ProxiesFile := Bot.ProxiesFile u;
                Bot.MaxWorkers := Bot.MaxWorkers u;
                Bot.State := "awaiting_lastname" |})
    by (simpl; first [apply lookup_insert_eq | discriminate]).
  unfold handleStateInput. simpl.
  rewrite (handleMessage_answer env4 id4 sender chat t3 _
             {| Bot.FirstName := TrimSpace t1; Bot.LastName := TrimSpace t2;
                Bot.Organization := Bot.Organization u;
                Bot.EmailsFile := Bot.EmailsFile u;
                Bot.EventsFile := Bot.EventsFile u;
                Bot.ProxiesFile := Bot.ProxiesFile u;
                Bot.MaxWorkers := Bot.MaxWorkers u;
                Bot.State := "awaiting_org" |})
    by (simpl; first [apply lookup_insert_eq | discriminate]).
  unfold handleStateInput. simpl.
  eexists. split; [reflexivity|]. simpl.
  split; [apply lookup_insert_eq|].
  split; [|split; assumption].
  intros other Hne. rewrite !lookup_insert_ne by congruence.
  apply Hother. exact Hne.
Qed.

(** X20: while a chat's setup dialogue is open no command is carried
    out: whatever the text, "/register" and "/stop" included, the message
    changes neither the campaign state, nor the goroutines in flight, nor
    another chat's configuration. *)
Theorem open_dialogue_takes_commands
    (env : Env) (id : Z) (sender : TelegramUser) (chat : TelegramChat)
    (text : string) (b : TelegramBot) (u : Bot.UserConfig) :
  userConfigs b !! ID chat = Some u -> Bot.State u <> "idle" ->
  exists b',
    handleMessage env (text_of id sender chat text) b = Some b' /\
    campaign b' = campaign b /\ inflight b' = inflight b /\
    forall other, other <> ID chat ->
      userConfigs b' !! other = userConfigs b !! other.
Proof.
  intros E Hs. rewrite (handleMessage_answer _ _ _ _ _ _ _ E Hs).
  eexists. split; [reflexivity|].
  unfold handleStateInput.
  repeat (destruct (String.eqb _ _)); simpl; repeat split;
    intros other Hne; try reflexivity;
    apply lookup_insert_ne; congruence.
Qed.

Lemma handleMessage_stop env id sender chat b u :
  userConfigs b !! ID chat = Some u -> Bot.State u = "idle" ->
  handleMessage env (text_of id sender chat "/stop") b
  = Some (handleStop (ID chat) b).
Proof.
  intros E Hs. unfold handleMessage. cbn [Chat Document From Text text_of].
  replace (TrimSpace "/stop") with "/stop" by (vm_compute; reflexivity).
  rewrite (getUserConfig_known _ _ _ E), Hs. reflexivity.
Qed.

Lemma handleMessage_register env id sender chat b u :
  userConfigs b !! ID chat = Some u -> Bot.State u = "idle" ->
  handleMessage env (text_of id sender chat "/register") b
  = Some (handleRegister env (ID chat) u b).
Proof.
  intros E Hs. unfold handleMessage. cbn [Chat Document From Text text_of].
  replace (TrimSpace "/register") with "/register"
    by (vm_compute; reflexivity).
  rewrite (getUserConfig_known _ _ _ E), Hs. reflexivity.
Qed.

Lemma handleMessage_workers env id sender chat text b u :
  userConfigs b !! ID chat = Some u -> Bot.State u = "idle" ->
  HasPrefix (TrimSpace text) "/workers" = true ->
  handleMessage env (text_of id sender chat text) b
  = Some (handleWorkers (ID chat) (TrimSpace text) u b).
Proof.
  intros E Hs Hp. unfold handleMessage. simpl.
  rewrite (getUserConfig_known _ _ _ E), Hs. cbn [String.eqb negb].
  change (String.eqb "idle" "idle") with true. cbn [negb].
  rewrite Hp.
  destruct (HasPrefix_inv _ _ Hp) as [rest ->]. reflexivity.
Qed.

(** X21: "/workers" with an argument.  For a chat whose dialogue is idle
    and a text that begins with "/workers" and has exactly two fields,
    the worker count is stored only when the second field is a decimal
    number between 1 and 200; otherwise the configuration is left as it
    was and the range message is sent.  Either way the campaign, the
    goroutines in flight and the other chats are untouched. *)
Theorem workers_argument_validated
    (env : Env) (id : Z) (sender : TelegramUser) (chat : TelegramChat)
    (text command arg : string) (b : TelegramBot) (u : Bot.UserConfig) :
  let chatID := ID chat in
  userConfigs b !! chatID = Some u -> Bot.State u = "idle" ->
  HasPrefix (TrimSpace text) "/workers" = true ->
  Fields (TrimSpace text) = [command; arg] ->
  exists b',
  handleMessage env (text_of id sender chat text) b = Some b' /\
  ((exists n, Atoi arg = Some n /\ 1 <= n <= 200 /\
      userConfigs b' !! chatID = Some (set_MaxWorkers n u) /\
      outbox b' = (outbox b
                   ++ [(chatID, inr (WorkersUpdated n (advice_for n)))])%list)
   \/
   ((Atoi arg = None \/ exists n, Atoi arg = Some n /\ (n < 1 \/ 200 < n)) /\
    userConfigs b' !! chatID = Some u /\
    outbox b' = (outbox b ++ [(chatID, inr WorkersInvalid)])%list)) /\
  campaign b' = campaign b /\ inflight b' = inflight b /\
  (forall other, other <> chatID ->
     userConfigs b' !! other = userConfigs b !! other).
Proof.
  intros chatID E Hs Hp Hf. subst chatID.
  rewrite (handleMessage_workers _ _ _ _ _ _ _ E Hs Hp).
  eexists. split; [reflexivity|].
  unfold handleWorkers. rewrite Hf.
  destruct (Atoi arg) as [n|] eqn:Ea.
  - destruct (Z.ltb_spec n 1) as [Hlo|Hlo]; simpl.
    + split; [right|repeat split].
      split; [right; exists n; split; [reflexivity|lia]|].
      split; [exact E|reflexivity].
    + destruct (Z.ltb_spec 200 n) as [Hhi|Hhi]; simpl.
      * split; [right|repeat split].
        split; [right; exists n; split; [reflexivity|lia]|].
        split; [exact E|reflexivity].
      * split; [left|repeat split].
        -- exists n. split; [reflexivity|]. split; [lia|].
           split; [apply lookup_insert_eq|reflexivity].
        -- intros other Hne. apply lookup_insert_ne. congruence.
  - simpl. split; [right|repeat split].
    split; [left; reflexivity|]. split; [exact E|reflexivity].
Qed.

(** X22: a launch that fails at a file.  When the names are set, no
    campaign is running and the emails file or the events file cannot be
    read, the launch starts no goroutine and leaves the running flag
    clear, but it has already emptied the cached results and overwritten
    the start time: a following "/results" finds nothing. *)
Theorem failed_launch_clears_results
    (env : Env) (chatID : Z) (u : Bot.UserConfig) (b : TelegramBot) :
  Bot.FirstName u <> "" -> Bot.LastName u <> "" ->
  Bot.Organization u <> "" ->
  Bot.running (campaign b) = false ->
  Bot.readEmails (files env) (Bot.EmailsFile u) = None \/
  Bot.readEventURLs (files env) (Bot.EventsFile u) = None ->
  let b' := handleRegister env chatID u b in
  campaign b' = {| Bot.running := false; Bot.results := [];
                   Bot.startTime := now env |} /\
  inflight b' = inflight b /\
  sendResults chatID b' = sendMessage chatID NoResultsYet b'.
Proof.
  intros Hf Hl Ho Hrun Hfiles b'. subst b'.
  unfold handleRegister, Bot.handleRegister, sendResults. simpl.
  destruct (String.eqb_spec (Bot.FirstName u) ""); [contradiction|].
  destruct (String.eqb_spec (Bot.LastName u) ""); [contradiction|].
  destruct (String.eqb_spec (Bot.Organization u) ""); [contradiction|].
  simpl. rewrite Hrun.
  destruct (Bot.readEmails (files env) (Bot.EmailsFile u)) as [emails|];
    [|simpl; repeat split].
  destruct Hfiles as [Hfiles|Hfiles]; [discriminate|].
  rewrite Hfiles. simpl. repeat split.
Qed.

Lemma In_delete_app {A} (x : A) (l : list A) (i : nat) :
  (i < length l)%nat -> In x (delete i (l ++ [x])%list).
Proof.
  revert i. induction l as [|y l IH]; intros i Hi; simpl in Hi; [lia|].
  destruct i as [|i]; simpl.
  - apply in_or_app. right. left. reflexivity.
  - right. apply IH. lia.
Qed.

(** X23: "/stop" then "/register" while a campaign is running.  The stop
    clears the flag without ending the goroutines, so the launch is
    accepted and a second campaign runs beside those in flight.  When one
    of the older goroutines then finishes, it overwrites the state of the
    new campaign: the running flag is cleared and the cached results are
    the older campaign's, while the new goroutine is still in flight. *)
Theorem stop_then_register_overlaps
    (env1 env2 : Env) (id1 id2 : Z) (sender : TelegramUser)
    (chat : TelegramChat) (u : Bot.UserConfig) (b : TelegramBot)
    (emails eventURLs : list string) :
  let chatID := ID chat in
  userConfigs b !! chatID = Some u -> Bot.State u = "idle" ->
  Bot.FirstName u <> "" -> Bot.LastName u <> "" ->
  Bot.Organization u <> "" ->
  Bot.running (campaign b) = true ->
  Bot.readEmails (files env2) (Bot.EmailsFile u) = Some emails ->
  Bot.readEventURLs (files env2) (Bot.EventsFile u) = Some eventURLs ->
  let run := {| Bot.run_chatID := chatID;
                Bot.run_firstName := Bot.FirstName u;
                Bot.run_lastName := Bot.LastName u;
                Bot.run_organization := Bot.Organization u;
                Bot.run_maxWorkers := Bot.MaxWorkers u;
                Bot.run_emails := emails;
                Bot.run_eventURLs := eventURLs;
                Bot.run_proxies :=
                  Bot.readProxies (files env2) (Bot.ProxiesFile u) |} in
  exists b',
  handleMessage env1 (text_of id1 sender chat "/stop") b
    ≫= handleMessage env2 (text_of id2 sender chat "/register") = Some b' /\
  inflight b' = (inflight b ++ [run])%list /\
  campaign b' = {| Bot.running := true; Bot.results := [];
                   Bot.startTime := now env2 |} /\
  forall i rs b'',
    (i < length (inflight b))%nat -> completed i rs b' b'' ->
    campaign b'' = {| Bot.running := false; Bot.results := rs;
                      Bot.startTime := now env2 |} /\
    In run (inflight b'').
Proof.
  intros chatID E Hs Hf Hl Ho Hrun Hemails Hevents run. subst chatID.
  rewrite (handleMessage_stop _ _ _ _ _ _ E Hs). cbn [mbind option_bind].
  rewrite (handleMessage_register env2 id2 sender chat _ u) by assumption.
  eexists. split; [reflexivity|].
  set (b' := handleRegister env2 (ID chat) u (handleStop (ID chat) b)).
  assert (Hb' : inflight b' = (inflight b ++ [run])%list /\
                campaign b' = {| Bot.running := true; Bot.results := [];
                                 Bot.startTime := now env2 |}).
  { subst b'.
    unfold handleRegister, Bot.handleRegister, handleStop, Bot.handleStop.
    simpl. rewrite Hrun. simpl.
    destruct (String.eqb_spec (Bot.FirstName u) ""); [contradiction|].
    destruct (String.eqb_spec (Bot.LastName u) ""); [contradiction|].
    destruct (String.eqb_spec (Bot.Organization u) ""); [contradiction|].
    simpl. rewrite Hemails, Hevents. simpl. split; reflexivity. }
  destruct Hb' as [Hin Hc]. split; [exact Hin|]. split; [exact Hc|].
  intros i rs b'' Hi Hdone.
  destruct (completed_inv _ _ _ _ Hdone) as (_ & _ & _ & Hc' & Hin' & _).
  rewrite Hc', Hin', Hc, Hin. split; [reflexivity|].
  apply In_delete_app. exact Hi.
Qed.

Lemma sendMessage_answers chatID text b :
  exists answer,
    outbox (sendMessage chatID text b) = (outbox b ++ [(chatID, answer)])%list.
Proof. eexists. reflexivity. Qed.

Lemma handleWorkers_answers chatID text u b :
  exists answer,
    outbox (handleWorkers chatID text u b)
    = (outbox b ++ [(chatID, answer)])%list.
Proof.
  unfold handleWorkers.
  destruct (Fields text) as [|c [|arg [|x parts]]];
    try (eexists; reflexivity).
  destruct (Atoi arg) as [n|]; [|eexists; reflexivity].
  destruct (_ || _); eexists; reflexivity.
Qed.

Lemma handleFileUpload_answers env chatID doc u b :
  exists answer,
    outbox (handleFileUpload env chatID doc u b)
    = (outbox b ++ [(chatID, answer)])%list.
Proof.
  unfold handleFileUpload.
  destruct (Contains _ "email").
  { destruct (downloadFile env _ _); eexists; reflexivity. }
  destruct (_ || _).
  { destruct (downloadFile env _ _); eexists; reflexivity. }
  destruct (_ || _).
  { destruct (downloadFile env _ _); eexists; reflexivity. }
  eexists; reflexivity.
Qed.

Lemma handleRegister_answers env chatID u b :
  exists answer,
    outbox (handleRegister env chatID u b)
    = (outbox b ++ [(chatID, answer)])%list.
Proof.
  unfold handleRegister, Bot.handleRegister. simpl.
  destruct (_ || _); [eexists; reflexivity|].
  destruct (Bot.running (campaign b)); [eexists; reflexivity|].
  destruct (Bot.readEmails _ _); [|eexists; reflexivity].
  destruct (Bot.readEventURLs _ _); eexists; reflexivity.
Qed.

Lemma sendStats_answers env chatID b :
  exists answer,
    outbox (sendStats env chatID b) = (outbox b ++ [(chatID, answer)])%list.
Proof.
  unfold sendStats.
  destruct (getUserConfig_lookup chatID b) as (_ & _ & _ & _ & Hout).
  destruct (getUserConfig chatID b) as [u1 b1].
  simpl in Hout |- *. rewrite Hout. eexists; reflexivity.
Qed.

(** X24: a message without a chat stops the bot, and so does a text
    message without a sender; a file upload needs no sender, and every
    other message is handled. *)
Theorem handleMessage_panics
    (env : Env) (msg : TelegramMessage) (b : TelegramBot) :
  handleMessage env msg b = None <->
  Chat msg = None \/ (Document msg = None /\ From msg = None).
Proof.
  unfold handleMessage.
  destruct (Chat msg) as [chat|]; [|split; auto].
  destruct (getUserConfig (ID chat) b) as [u b0].
  destruct (Document msg) as [doc|].
  - split; [discriminate|]. intros [H|[H _]]; discriminate.
  - destruct (From msg) as [sender|].
    + split; [discriminate|]. intros [H|[_ H]]; discriminate.
    + split; auto.
Qed.

(** X25: in every state the bot reaches, a message that is handled is
    answered with exactly one message, sent to the chat it came from. *)
Theorem every_message_answered_once
    (env : Env) (msg : TelegramMessage) (b b' : TelegramBot) :
  reachable b -> handleMessage env msg b = Some b' ->
  exists chat answer,
    Chat msg = Some chat /\
    outbox b' = (outbox b ++ [(ID chat, answer)])%list.
Proof.
  intros Hreach Hb'. pose proof (reachable_Good b Hreach) as HG.
  unfold handleMessage in Hb'.
  destruct (Chat msg) as [chat|]; [|discriminate].
  exists chat. cut (exists answer,
                     outbox b' = (outbox b ++ [(ID chat, answer)])%list).
  { intros [answer H]. exists answer. split; [reflexivity|exact H]. }
  destruct (getUserConfig_Good (ID chat) b HG) as (_ & Hu & _).
  destruct (getUserConfig_lookup (ID chat) b) as (_ & _ & _ & _ & Hout).
  destruct (getUserConfig (ID chat) b) as [u b0]. simpl in Hu, Hout.
  rewrite <- Hout. clear Hout HG Hreach.
  destruct (Document msg) as [doc|];
    [injection Hb' as <-; apply handleFileUpload_answers|].
  destruct (From msg) as [sender|]; [|discriminate].
  injection Hb' as <-.
  destruct Hu as [_ Hstate].
  destruct (String.eqb_spec (Bot.State u) "idle") as [Hidle|Hbusy]; simpl.
  - destruct (String.eqb _ "/start"); [apply sendMessage_answers|].
    destruct (String.eqb _ "/help"); [apply sendMessage_answers|].
    destruct (String.eqb _ "/setup"); [eexists; reflexivity|].
    destruct (HasPrefix _ "/workers"); [apply handleWorkers_answers|].
    destruct (String.eqb _ "/status").
    { unfold sendStatus. destruct (negb _); apply sendMessage_answers. }
    destruct (String.eqb _ "/register"); [apply handleRegister_answers|].
    destruct (String.eqb _ "/stop").
    { unfold handleStop, Bot.handleStop. simpl.
      destruct (negb _); eexists; reflexivity. }
    destruct (String.eqb _ "/results").
    { unfold sendResults. destruct (_ =? _)%Z; apply sendMessage_answers. }
    destruct (String.eqb _ "/stats"); [apply sendStats_answers|].
    destruct (String.eqb _ "/config"); apply sendMessage_answers.
  - unfold handleStateInput.
    destruct Hstate as [H|[H|[H|H]]]; rewrite H; simpl;
      try contradiction; eexists; reflexivity.
Qed.

Lemma reachable_handle_all env msgs b b' :
  reachable b -> handle_all env msgs b = Some b' -> reachable b'.
Proof.
  revert b. induction msgs as [|msg msgs IH]; intros b Hb H; simpl in H.
  - injection H as <-. exact Hb.
  - destruct (handleMessage env msg b) as [b1|] eqn:E; [|discriminate].
    apply (IH b1); [|exact H].
    exact (reachable_step _ _ Hb (step_message _ _ _ _ E)).
Qed.

Lemma sample_asking_reachable : reachable sample_asking.
Proof.
  apply (reachable_handle_all sample_env [text_message "/setup"]
           NewTelegramBot); [apply reachable_new|].
  vm_compute. reflexivity.
Qed.

Lemma sample_configured_reachable : reachable sample_configured.
Proof.
  apply (reachable_handle_all sample_env
           [text_message "/setup"; text_message "Ada";
            text_message "Lovelace"; text_message "Analytical"]
           NewTelegramBot); [apply reachable_new|].
  vm_compute. reflexivity.
Qed.

Lemma sample_launched_reachable : reachable sample_launched.
Proof.
  apply (reachable_handle_all sample_env [text_message "/register"]
           sample_configured); [apply sample_configured_reachable|].
  vm_compute. reflexivity.
Qed.

Lemma status_never_shows_progress_witness :
  (Bot.running (campaign sample_launched) = true ->
   Bot.results (campaign sample_launched) = []) /\
  sendStatus sample_env 7 sample_launched
  = sendMessage 7 (StatusRunning 0 0 0 0) sample_launched.
Proof.
  exact (status_never_shows_progress sample_env 7 sample_launched
           sample_launched_reachable).
Defined.

Lemma configurations_stay_valid_witness :
  1 <= 20 <= 200 /\
  ("idle" = "idle" \/ "idle" = "awaiting_firstname"
   \/ "idle" = "awaiting_lastname" \/ "idle" = "awaiting_org").
Proof.
  apply (configurations_stay_valid sample_configured 7 Bot.sample_user).
  - exact sample_configured_reachable.
  - vm_compute. reflexivity.
Defined.

Lemma launched_campaigns_return_witness :
  1 <= 20 <= 200 /\
  "Ada" <> "" /\ "Lovelace" <> "" /\ "Analytical" <> "" /\
  (exists rs,
     Orchestrator.Run (orchestrator_of sample_run)
       (Bot.run_eventURLs sample_run) (Bot.run_emails sample_run)
       (Bot.run_proxies sample_run) rs) /\
  (forall rs,
     Orchestrator.Run (orchestrator_of sample_run)
       (Bot.run_eventURLs sample_run) (Bot.run_emails sample_run)
       (Bot.run_proxies sample_run) rs ->
     length rs = 2%nat).
Proof.
  apply (launched_campaigns_return sample_launched sample_run).
  - exact sample_launched_reachable.
  - vm_compute. left. reflexivity.
  - vm_compute. reflexivity.
Defined.

Lemma bot_campaign_alerts_launcher_witness :
  Worker.alerts
    (snd (Orchestrator.execute (orchestrator_of sample_run) [] 0
            Worker.always_fails Orchestrator.sample_job0))
  = [Worker.TelegramAlert "7" (Orchestrator.email Orchestrator.sample_job0)
       (Orchestrator.eventURL Orchestrator.sample_job0) 3
       (snd (Worker.try_outcome Worker.always_fails 3))].
Proof.
  apply (bot_campaign_alerts_launcher sample_run [] 0 Worker.always_fails
           Orchestrator.sample_job0).
  intros k. reflexivity.
Defined.

Lemma setup_dialogue_witness :
  exists b',
    handle_all sample_env
      [text_message "/setup"; text_message "Ada"; text_message "Lovelace";
       text_message "Analytical"] NewTelegramBot = Some b' /\
    userConfigs b' !! 7 = Some Bot.sample_user.
Proof.
  destruct (setup_dialogue sample_env sample_env sample_env sample_env
              1 1 1 1 sample_sender sample_chat "Ada" "Lovelace"
              "Analytical" NewTelegramBot eq_refl)
    as (b' & Hb' & Hu & _).
  exists b'. split; [exact Hb' | exact Hu].
Defined.

Lemma open_dialogue_takes_commands_witness :
  exists b',
    handleMessage sample_env (text_message "/register") sample_asking
    = Some b' /\
    campaign b' = campaign sample_asking /\
    inflight b' = inflight sample_asking /\
    forall other, other <> 7 ->
      userConfigs b' !! other = userConfigs sample_asking !! other.
Proof.
  apply (open_dialogue_takes_commands sample_env 1 sample_sender sample_chat
           "/register" sample_asking
           (set_State "awaiting_firstname" (default_config 7))).
  - vm_compute. reflexivity.
  - simpl. discriminate.
Defined.

Lemma workers_argument_validated_witness :
  exists b',
    handleMessage sample_env (text_message " /workers  50 ") sample_configured
    = Some b' /\
    userConfigs b' !! 7 = Some (set_MaxWorkers 50 Bot.sample_user).
Proof.
  destruct (workers_argument_validated sample_env 1 sample_sender sample_chat
              " /workers  50 " "/workers" "50" sample_configured
              Bot.sample_user)
    as (b' & Hb' & [(n & Hn & _ & Hu & _)|(Hbad & _)] & _).
  - vm_compute. reflexivity.
  - reflexivity.
  - vm_compute. reflexivity.
  - vm_compute. reflexivity.
  - exists b'. split; [exact Hb'|].
    vm_compute in Hn. injection Hn as <-. exact Hu.
  - exfalso. destruct Hbad as [Hbad|(n & Hn & Hbad)].
    + vm_compute in Hbad. discriminate.
    + vm_compute in Hn. injection Hn as <-. lia.
Defined.

Lemma failed_launch_clears_results_witness :
  campaign (handleRegister sample_env_no_emails 7 Bot.sample_user
              sample_finished)
  = {| Bot.running := false; Bot.results := []; Bot.startTime := 9 |} /\
  inflight (handleRegister sample_env_no_emails 7 Bot.sample_user
              sample_finished) = [] /\
  sendResults 7 (handleRegister sample_env_no_emails 7 Bot.sample_user
                   sample_finished)
  = sendMessage 7 NoResultsYet
      (handleRegister sample_env_no_emails 7 Bot.sample_user
         sample_finished).
Proof.
  apply (failed_launch_clears_results sample_env_no_emails 7 Bot.sample_user
           sample_finished).
  - simpl. discriminate.
  - simpl. discriminate.
  - simpl. discriminate.
  - reflexivity.
  - left. reflexivity.
Defined.

Lemma stop_then_register_overlaps_witness :
  exists b',
    handle_all sample_env [text_message "/stop"; text_message "/register"]
      sample_launched = Some b' /\
    inflight b' = [sample_run; sample_run] /\
    Bot.running (campaign b') = true.
Proof.
  destruct (stop_then_register_overlaps sample_env sample_env 1 1
              sample_sender sample_chat Bot.sample_user sample_launched
              ["a@x.com"; "b@x.com"] ["https://events.example.com/e/1"])
    as (b' & Hb' & Hin & Hc & _).
  - vm_compute. reflexivity.
  - reflexivity.
  - simpl. discriminate.
  - simpl. discriminate.
  - simpl. discriminate.
  - vm_compute. reflexivity.
  - reflexivity.
  - reflexivity.
  - exists b'. split; [|split].
    + exact Hb'.
    + exact Hin.
    + rewrite Hc. reflexivity.
Defined.

Lemma every_message_answered_once_witness :
  exists chat answer,
    Chat (text_message "/status") = Some chat /\
    outbox (sendStatus sample_env 7 sample_configured)
    = (outbox sample_configured ++ [(ID chat, answer)])%list.
Proof.
  apply (every_message_answered_once sample_env (text_message "/status")
           sample_configured).
  - exact sample_configured_reachable.
  - vm_compute. reflexivity.
Defined.

End ControlFacts.

(** ** The success test on the address of the page *)
Section SuccessFacts.

Lemma contains_nonempty (s : string) (c : ascii) (substr : string) :
  contains s (String c substr) = (len (String c substr) <=? len s).
Proof.
  unfold contains, len.
  destruct (Z.leb_spec (Z.of_nat (String.length (String c substr)))
              (Z.of_nat (String.length s))) as [H|H]; [|reflexivity].
  simpl in H |- *.
  destruct s as [|d s]; [simpl in H; lia|].
  destruct (String.eqb (String d s) (String c substr)); reflexivity.
Qed.

(** X26: [contains] does not look for the substring: for a non-empty
    [substr] it only compares the lengths, and for the empty one it tells
    whether [s] is empty. *)
Theorem contains_compares_lengths (s substr : string) :
  contains s substr
  = if String.eqb substr "" then String.eqb s ""
    else len substr <=? len s.
Proof.
  destruct substr as [|c substr]; [|apply contains_nonempty].
  unfold contains, len. destruct s as [|d s]; reflexivity.
Qed.

(** X27: [containsSuccessIndicator] accepts exactly the addresses of five
    bytes or more, five being the length of the shortest keyword, whatever
    the address holds. *)
Theorem containsSuccessIndicator_by_length (url : string) :
  containsSuccessIndicator url = (5 <=? len url).
Proof.
  unfold containsSuccessIndicator. cbn [existsb].
  rewrite !contains_nonempty.
  change (len "success") with 7. change (len "confirmation") with 12.
  change (len "thank") with 5. change (len "registered") with 10.
  change (len "complete") with 8.
  destruct (Z.leb_spec 7 (len url)), (Z.leb_spec 12 (len url)),
    (Z.leb_spec 5 (len url)), (Z.leb_spec 10 (len url)),
    (Z.leb_spec 8 (len url)); simpl; try reflexivity; lia.
Qed.

End SuccessFacts.

(** ** The command line *)
Module MainFacts.

Import Main.

Lemma Run_returns (o : Orchestrator.RegistrationOrchestrator)
    (eventURLs emails : list string) (proxies : list ProxyConfig) :
  1 <= Orchestrator.maxWorkers o ->
  Z.of_nat (length eventURLs) * Z.of_nat (length emails) < 2 ^ 63 ->
  (exists rs, Orchestrator.Run o eventURLs emails proxies rs) /\
  (forall rs, Orchestrator.Run o eventURLs emails proxies rs ->
     length rs = (length eventURLs * length emails)%nat).
Proof.
  intros Hpool Hfits. split.
  - destruct (OrchestratorFacts.Run_reached o eventURLs emails proxies
                Hpool Hfits
                (Orchestrator.measure (Orchestrator.init o eventURLs emails))
                (Orchestrator.init o eventURLs emails) (le_n _))
      as (s & Hs & Hret).
    + exists []. constructor.
    + exists (Orchestrator.allResults s), s. repeat split; assumption.
  - intros rs Hrs.
    exact (proj1 (OrchestratorFacts.Run_sound _ _ _ _ Hpool Hfits rs Hrs)).
Qed.

Lemma plan_campaign (flags : Flags) (files : Bot.Files)
    (emails eventURLs : list string) :
  botMode flags = false ->
  firstName flags <> "" -> lastName flags <> "" ->
  organization flags <> "" -> debug flags = false ->
  Bot.readEmails files (emailsFile flags) = Some emails ->
  Bot.readEventURLs files (eventsFile flags) = Some eventURLs ->
  emails <> [] -> eventURLs <> [] ->
  plan flags files
  = Campaign
      {| Orchestrator.firstName := firstName flags;
         Orchestrator.lastName := lastName flags;
         Orchestrator.organization := organization flags;
         Orchestrator.headless := negb (windowMode flags) && headless flags;
         Orchestrator.maxWorkers := workers flags;
         Orchestrator.telegramChatID := telegram flags |}
      eventURLs emails (Bot.readProxies files (proxiesFile flags)).
Proof.
  intros Hbot Hf Hl Ho Hd Hemails Hevents Hne1 Hne2. unfold plan.
  rewrite Hbot, Hd, Hemails, Hevents.
  destruct (String.eqb_spec (firstName flags) ""); [contradiction|].
  destruct (String.eqb_spec (lastName flags) ""); [contradiction|].
  destruct (String.eqb_spec (organization flags) ""); [contradiction|].
  simpl.
  destruct emails as [|m ms]; [contradiction|].
  destruct eventURLs as [|e es]; [contradiction|]. reflexivity.
Qed.

(** X28: the exit status of a campaign from the command line.  With the
    three names given, both lists read and non-empty, and a pool of at
    least one goroutine, the process can run to its end, and every end has
    status 0: the status depends on the number of results only, and never
    on whether any registration succeeded. *)
Theorem exit_status_ignores_failures
    (flags : Flags) (files : Bot.Files) (emails eventURLs : list string) :
  botMode flags = false ->
  firstName flags <> "" -> lastName flags <> "" ->
  organization flags <> "" -> debug flags = false ->
  Bot.readEmails files (emailsFile flags) = Some emails ->
  Bot.readEventURLs files (eventsFile flags) = Some eventURLs ->
  emails <> [] -> eventURLs <> [] ->
  1 <= workers flags ->
  Z.of_nat (length eventURLs) * Z.of_nat (length emails) < 2 ^ 63 ->
  main flags files 0 /\ forall code, main flags files code -> code = 0.
Proof.
  intros Hbot Hf Hl Ho Hd Hemails Hevents Hne1 Hne2 Hpool Hfits.
  unfold main.
  rewrite (plan_campaign flags files emails eventURLs) by assumption.
  match goal with
  | |- context [Orchestrator.Run ?o _ _ ?px _] =>
      destruct (Run_returns o eventURLs emails px Hpool Hfits)
        as [[rs Hrs] Hlen]
  end.
  assert (Hpos : forall rs0 : list RegistrationResult,
            length rs0 = (length eventURLs * length emails)%nat ->
            (0 <? Z.of_nat (length rs0)) = true).
  { intros rs0 H. apply Z.ltb_lt. rewrite H.
    destruct emails; [contradiction|].
    destruct eventURLs; [contradiction|]. simpl. lia. }
  split.
  - exists rs. split; [exact Hrs|]. rewrite (Hpos rs (Hlen rs Hrs)).
    reflexivity.
  - intros code (rs0 & Hrs0 & ->). rewrite (Hpos rs0 (Hlen rs0 Hrs0)).
    reflexivity.
Qed.

(** X29: a pool size of zero or less on the command line.  With
    [--workers 0] the process never ends by [os.Exit] or by the return of
    [main]: [Run] panics at the first job.  With a negative number it can
    run to its end, and every end has status 1, without a single
    registration attempt: [Run] returns no result. *)
Theorem workers_flag_not_positive
    (flags : Flags) (files : Bot.Files) (emails eventURLs : list string) :
  botMode flags = false ->
  firstName flags <> "" -> lastName flags <> "" ->
  organization flags <> "" -> debug flags = false ->
  Bot.readEmails files (emailsFile flags) = Some emails ->
  Bot.readEventURLs files (eventsFile flags) = Some eventURLs ->
  emails <> [] -> eventURLs <> [] ->
  workers flags <= 0 ->
  Z.of_nat (length eventURLs) * Z.of_nat (length emails) < 2 ^ 63 ->
  if workers flags =? 0
  then forall code, ~ main flags files code
  else main flags files 1 /\ forall code, main flags files code -> code = 1.
Proof.
  intros Hbot Hf Hl Ho Hd Hemails Hevents Hne1 Hne2 Hpool Hfits.
  unfold main.
  rewrite (plan_campaign flags files emails eventURLs) by assumption.
  assert (Hprod : list_prod eventURLs emails <> []).
  { destruct eventURLs as [|e es]; [congruence|].
    destruct emails as [|m ms]; [congruence|]. discriminate. }
  destruct (Z.eqb_spec (workers flags) 0) as [Hz|Hnz].
  - intros code (rs & (s & Hreach & Hret & _) & _).
    match type of Hreach with
    | Orchestrator.reachable ?o _ _ ?px _ =>
        destruct (PoolEdges.zero_pool_states o eventURLs emails px s
                    Hz Hprod Hreach) as (_ & _ & [H|H]); congruence
    end.
  - assert (Hneg : workers flags < 0) by lia.
    split.
    + exists []. split; [|reflexivity].
      apply PoolEdges.negative_pool_run; [exact Hneg | exact Hfits].
    + intros code (rs & (s & Hreach & _ & <-) & ->).
      match type of Hreach with
      | Orchestrator.reachable ?o _ _ ?px _ =>
          destruct (PoolEdges.negative_pool_states o eventURLs emails px s
                      Hneg Hfits Hreach) as (_ & _ & -> & _)
      end.
      reflexivity.
Qed.

Lemma exit_status_ignores_failures_witness :
  main sample_flags Bot.sample_files 0 /\
  forall code, main sample_flags Bot.sample_files code -> code = 0.
Proof.
  apply (exit_status_ignores_failures sample_flags Bot.sample_files
           ["a@x.com"; "b@x.com"] ["https://events.example.com/e/1"]);
    first [ reflexivity | simpl; discriminate | simpl; lia
          | vm_compute; reflexivity ].
Defined.

Lemma workers_flag_not_positive_witness :
  ~ exists code, main sample_flags_no_worker Bot.sample_files code.
Proof.
  intros [code Hcode]. revert code Hcode.
  apply (workers_flag_not_positive sample_flags_no_worker Bot.sample_files
           ["a@x.com"; "b@x.com"] ["https://events.example.com/e/1"]);
    first [ reflexivity | simpl; discriminate | simpl; lia
          | vm_compute; reflexivity ].
Defined.

End MainFacts.

(** ** The reader of the event list *)
Section EventReaderFacts.

Local Open Scope string_scope.

Lemma space_runes_nonempty :
  forallb (fun r => negb (String.eqb r "")) space_runes = true.
Proof. vm_compute. reflexivity. Qed.

Lemma cut_prefix_inv (s r a : string) :
  cut_prefix s r = Some a -> s = r ++ a.
Proof.
  unfold cut_prefix. destruct (HasPrefix s r) eqn:E; [|discriminate].
  intros [= <-]. apply HasPrefix_inv in E. destruct E as [rest ->].
  unfold slice, len. rewrite length_append.
  replace (Z.to_nat (Z.of_nat (String.length r + String.length rest)
                     - Z.of_nat (String.length r)))
    with (String.length rest) by lia.
  rewrite Nat2Z.id, substring_tail. reflexivity.
Qed.

Lemma first_cut_shorter (cut : string -> string -> option string) :
  (forall s r a, cut s r = Some a ->
     String.length s = (String.length r + String.length a)%nat) ->
  forall s a, first_cut cut s space_runes = Some a ->
    (String.length a < String.length s)%nat.
Proof.
  intros Hcut s a H. apply first_cut_some in H. destruct H as (r & Hr & Hc).
  pose proof (proj1 (forallb_forall _ _) space_runes_nonempty r Hr) as Hne.
  apply Hcut in Hc. destruct r as [|c r]; [discriminate|]. simpl in Hc. lia.
Qed.

Lemma cut_prefix_length (s r a : string) :
  cut_prefix s r = Some a ->
  String.length s = (String.length r + String.length a)%nat.
Proof. intros H. apply cut_prefix_inv in H. subst s. apply length_append. Qed.

Lemma cut_suffix_length (s r a : string) :
  cut_suffix s r = Some a ->
  String.length s = (String.length r + String.length a)%nat.
Proof.
  intros H. apply cut_suffix_inv in H. subst s. rewrite length_append. lia.
Qed.

Lemma trim_end_stable (cut : string -> string -> option string) (n : nat)
    (s : string) :
  first_cut cut s space_runes = None -> trim_end cut n s = s.
Proof. intros H. destruct n; cbn [trim_end]; [|rewrite H]; reflexivity. Qed.

Lemma trim_end_done (cut : string -> string -> option string) :
  (forall s r a, cut s r = Some a ->
     String.length s = (String.length r + String.length a)%nat) ->
  forall n s, (String.length s <= n)%nat ->
    first_cut cut (trim_end cut n s) space_runes = None.
Proof.
  intros Hcut n. induction n as [|n IH]; intros s Hn; cbn [trim_end].
  - destruct (first_cut cut s space_runes) as [a|] eqn:E; [|reflexivity].
    apply (first_cut_shorter cut Hcut) in E. lia.
  - destruct (first_cut cut s space_runes) as [a|] eqn:E; [|exact E].
    apply IH. apply (first_cut_shorter cut Hcut) in E. lia.
Qed.

Lemma trim_suffix_prefix (n : nat) (s : string) :
  exists rest, s = trim_end cut_suffix n s ++ rest.
Proof.
  revert s. induction n as [|n IH]; intros s; cbn [trim_end].
  - exists "". symmetry. apply append_empty_r.
  - destruct (first_cut cut_suffix s space_runes) as [a|] eqn:E.
    + apply first_cut_some in E. destruct E as (r & _ & Hc).
      apply cut_suffix_inv in Hc. destruct (IH a) as [rest Hrest].
      exists (rest ++ r). rewrite <- append_assoc, <- Hrest. exact Hc.
    + exists "". symmetry. apply append_empty_r.
Qed.

Lemma HasPrefix_app (a b r : string) :
  HasPrefix a r = true -> HasPrefix (a ++ b) r = true.
Proof.
  revert a. induction r as [|c r IH]; intros a H;
    [destruct (a ++ b); reflexivity|].
  destruct a as [|d a]; [discriminate|]. simpl in H |- *.
  apply andb_prop in H. destruct H as [-> H]. simpl. apply IH. exact H.
Qed.

Lemma first_cut_prefix_app (a b : string) (runes : list string) :
  first_cut cut_prefix (a ++ b) runes = None ->
  first_cut cut_prefix a runes = None.
Proof.
  induction runes as [|r runes IH]; [reflexivity|]. cbn [first_cut].
  unfold cut_prefix at 1 3.
  destruct (HasPrefix a r) eqn:E.
  - rewrite (HasPrefix_app a b r E). discriminate.
  - destruct (HasPrefix (a ++ b) r); [discriminate|]. exact IH.
Qed.

Lemma TrimSpace_idempotent (s : string) : TrimSpace (TrimSpace s) = TrimSpace s.
Proof.
  unfold TrimSpace.
  set (s1 := trim_end cut_prefix (String.length s) s).
  set (s2 := trim_end cut_suffix (String.length s1) s1).
  assert (H1 : first_cut cut_prefix s1 space_runes = None)
    by (apply (trim_end_done cut_prefix cut_prefix_length); lia).
  assert (H2 : first_cut cut_suffix s2 space_runes = None)
    by (apply (trim_end_done cut_suffix cut_suffix_length); lia).
  assert (H3 : first_cut cut_prefix s2 space_runes = None).
  { destruct (trim_suffix_prefix (String.length s1) s1) as [rest Hrest].
    fold s2 in Hrest. apply (first_cut_prefix_app s2 rest).
    rewrite <- Hrest. exact H1. }
  cbv zeta. rewrite (trim_end_stable cut_prefix _ s2 H3).
  apply trim_end_stable. exact H2.
Qed.

(** X30: what [readEventURLs] has loaded it loads again unchanged: every
    loaded line is already trimmed, so scanning the loaded list a second
    time gives the same list. *)
Theorem scanEventURLs_idempotent (lines : list string) :
  Forall (fun line => TrimSpace line = line) (scanEventURLs lines) /\
  scanEventURLs (scanEventURLs lines) = scanEventURLs lines.
Proof.
  induction lines as [|text rest [IH1 IH2]];
    [split; [constructor|reflexivity]|].
  cbn [scanEventURLs]. cbv zeta.
  destruct (negb (String.eqb (TrimSpace text) "")
            && (HasPrefix (TrimSpace text) "http"
                || Contains (TrimSpace text) "event")) eqn:E;
    [|split; assumption].
  split.
  - constructor; [apply TrimSpace_idempotent | exact IH1].
  - cbn [scanEventURLs]. cbv zeta. rewrite TrimSpace_idempotent, E, IH2.
    reflexivity.
Qed.

End EventReaderFacts.
